(** * BidMonitor: the monitoring pipeline, embedded and verified

    A shallow embedding of the core of the bid monitor:
    - [Hashlib]   : [hashlib.md5(..).hexdigest()] (RFC 1321), used by
                    [BidInfo.unique_id];
    - [Storage]   : [src/database/storage.py], the SQLite table [bids]
                    as a list of rows in rowid order;
    - [Matcher]   : [src/matcher/keyword.py];
    - [Guard]     : [src/ai_guard.py];
    - [Crawler]   : [src/crawler/base.py];
    - [Notify]    : the notification fan-out of [gui.py], [_do_crawl];
    - [Round]     : one monitoring round.

    Python [str] values are modelled by [string], the UTF-8 encoding of
    the text; [url.encode()] is then the identity. *)

From Stdlib Require Import List Bool Arith NArith ZArith Lia.
From Stdlib Require Import Ascii String DecimalString.
From Stdlib Require Import Sorted Permutation.
Import ListNotations.

Local Open Scope string_scope.
Local Open Scope list_scope.

(* ===================================================================== *)
(** ** Python string primitives                                          *)
(* ===================================================================== *)

Module PyStr.

(** [not s] for a string: the empty string is the only falsy one. *)
Definition falsy (s : string) : bool :=
  match s with EmptyString => true | String _ _ => false end.

Definition truthy (s : string) : bool := negb (falsy s).

(** [kw in text]: [kw] occurs in [text] as a contiguous substring. *)
Fixpoint contains (kw text : string) : bool :=
  if String.prefix kw text then true
  else match text with
       | EmptyString => false
       | String _ rest => contains kw rest
       end.

(** [x in l] for a list of strings. *)
Definition mem (x : string) (l : list string) : bool :=
  existsb (String.eqb x) l.

(** A byte of the form 10xxxxxx continues a UTF-8 code point. *)
Definition is_continuation (c : ascii) : bool :=
  let n := N_of_ascii c in (128 <=? n)%N && (n <? 192)%N.

(** [s[:n]]: the first [n] code points of [s]. *)
Fixpoint slice_to (n : nat) (s : string) : string :=
  match s with
  | EmptyString => EmptyString
  | String c rest =>
      if is_continuation c then String c (slice_to n rest)
      else match n with
           | O => EmptyString
           | S n' => String c (slice_to n' rest)
           end
  end.

(** [str(n)] for a natural number. *)
Definition str_of_nat (n : nat) : string :=
  NilEmpty.string_of_uint (Nat.to_uint n).

(** [s.lower()] on ASCII text: only the letters A-Z change.  The
    general [str.lower] is a parameter of the modules that use it; this
    instance agrees with it on every text whose cased letters are
    ASCII. *)
Definition lower_char (c : ascii) : ascii :=
  let n := N_of_ascii c in
  if (65 <=? n)%N && (n <=? 90)%N then ascii_of_N (n + 32) else c.

Fixpoint lower_ascii (s : string) : string :=
  match s with
  | EmptyString => EmptyString
  | String c rest => String (lower_char c) (lower_ascii rest)
  end.

End PyStr.

(* ===================================================================== *)
(** ** hashlib.md5                                                       *)
(* ===================================================================== *)

Module Hashlib.

Local Open Scope N_scope.

Definition mask32 : N := 0xffffffff.
Definition add32 (x y : N) : N := N.land (x + y) mask32.
Definition not32 (x : N) : N := N.lxor x mask32.
Definition rotl32 (x : N) (c : N) : N :=
  N.land (N.lor (N.shiftl x c) (N.shiftr x (32 - c))) mask32.

(** Per-round shift amounts. *)
Definition shifts : list N :=
  [7; 12; 17; 22; 7; 12; 17; 22; 7; 12; 17; 22; 7; 12; 17; 22;
   5; 9; 14; 20; 5; 9; 14; 20; 5; 9; 14; 20; 5; 9; 14; 20;
   4; 11; 16; 23; 4; 11; 16; 23; 4; 11; 16; 23; 4; 11; 16; 23;
   6; 10; 15; 21; 6; 10; 15; 21; 6; 10; 15; 21; 6; 10; 15; 21].

(** [floor(2^32 * abs(sin(i + 1)))]. *)
Definition sines : list N :=
  [0xd76aa478; 0xe8c7b756; 0x242070db; 0xc1bdceee;
   0xf57c0faf; 0x4787c62a; 0xa8304613; 0xfd469501;
   0x698098d8; 0x8b44f7af; 0xffff5bb1; 0x895cd7be;
   0x6b901122; 0xfd987193; 0xa679438e; 0x49b40821;
   0xf61e2562; 0xc040b340; 0x265e5a51; 0xe9b6c7aa;
   0xd62f105d; 0x02441453; 0xd8a1e681; 0xe7d3fbc8;
   0x21e1cde6; 0xc33707d6; 0xf4d50d87; 0x455a14ed;
   0xa9e3e905; 0xfcefa3f8; 0x676f02d9; 0x8d2a4c8a;
   0xfffa3942; 0x8771f681; 0x6d9d6122; 0xfde5380c;
   0xa4beea44; 0x4bdecfa9; 0xf6bb4b60; 0xbebfbc70;
   0x289b7ec6; 0xeaa127fa; 0xd4ef3085; 0x04881d05;
   0xd9d4d039; 0xe6db99e5; 0x1fa27cf8; 0xc4ac5665;
   0xf4292244; 0x432aff97; 0xab9423a7; 0xfc93a039;
   0x655b59c3; 0x8f0ccc92; 0xffeff47d; 0x85845dd1;
   0x6fa87e4f; 0xfe2ce6e0; 0xa3014314; 0x4e0811a1;
   0xf7537e82; 0xbd3af235; 0x2ad7d2bb; 0xeb86d391].

Definition bytes_of_string (s : string) : list N :=
  map N_of_ascii (list_ascii_of_string s).

(** Little-endian bytes of [x], [n] of them. *)
Fixpoint le_bytes (n : nat) (x : N) : list N :=
  match n with
  | O => []
  | S n' => N.land x 0xff :: le_bytes n' (N.shiftr x 8)
  end.

Fixpoint le_word (bs : list N) : N :=
  match bs with
  | [] => 0
  | b :: rest => b + 256 * le_word rest
  end.

(** Message padding: 0x80, zeros up to 56 mod 64, the bit length. *)
Definition pad (msg : list N) : list N :=
  let len := N.of_nat (List.length msg) in
  let zeros := N.to_nat ((55 + 64 - len mod 64) mod 64) in
  msg ++ [0x80] ++ repeat 0 zeros ++ le_bytes 8 (N.land (8 * len) 0xffffffffffffffff).

(** Split into groups of [k] elements; [fuel] bounds the number of groups. *)
Fixpoint chunks {A} (fuel k : nat) (l : list A) : list (list A) :=
  match fuel, l with
  | O, _ | _, [] => []
  | S fuel', _ => firstn k l :: chunks fuel' k (skipn k l)
  end.

Definition words_of_block (block : list N) : list N :=
  map le_word (chunks 16 4 block).

Record state := { sa : N; sb : N; sc : N; sd : N }.

Definition init_state : state :=
  {| sa := 0x67452301; sb := 0xefcdab89; sc := 0x98badcfe; sd := 0x10325476 |}.

Definition round_step (m : list N) (st : state) (i : N) : state :=
  let '(Build_state a b c d) := st in
  let '(f, g) :=
    if i <? 16 then (N.lor (N.land b c) (N.land (not32 b) d), i)
    else if i <? 32 then (N.lor (N.land d b) (N.land (not32 d) c), (5 * i + 1) mod 16)
    else if i <? 48 then (N.lxor b (N.lxor c d), (3 * i + 5) mod 16)
    else (N.lxor c (N.lor b (not32 d)), (7 * i) mod 16) in
  let f' := add32 (add32 (add32 f a) (nth (N.to_nat i) sines 0)) (nth (N.to_nat g) m 0) in
  {| sa := d; sd := c; sc := b;
     sb := add32 b (rotl32 f' (nth (N.to_nat i) shifts 0)) |}.

Definition process_block (st : state) (block : list N) : state :=
  let m := words_of_block block in
  let st' := fold_left (round_step m) (map N.of_nat (seq 0 64)) st in
  {| sa := add32 (sa st) (sa st'); sb := add32 (sb st) (sb st');
     sc := add32 (sc st) (sc st'); sd := add32 (sd st) (sd st') |}.

Definition digest (msg : list N) : list N :=
  let p := pad msg in
  let st := fold_left process_block (chunks (List.length p) 64 p) init_state in
  le_bytes 4 (sa st) ++ le_bytes 4 (sb st) ++ le_bytes 4 (sc st) ++ le_bytes 4 (sd st).

Definition hex_digit (n : N) : ascii :=
  if n <? 10 then ascii_of_N (48 + n) else ascii_of_N (87 + n).

Fixpoint hex_of_bytes (bs : list N) : string :=
  match bs with
  | [] => EmptyString
  | b :: rest => String (hex_digit (b / 16)) (String (hex_digit (b mod 16)) (hex_of_bytes rest))
  end.

(** [hashlib.md5(s.encode()).hexdigest()] *)
Definition md5_hexdigest (s : string) : string :=
  hex_of_bytes (digest (bytes_of_string s)).

#[global] Arguments md5_hexdigest : simpl never.

End Hashlib.

(* ===================================================================== *)
(** ** src/database/storage.py                                           *)
(* ===================================================================== *)

Module Storage.

(** [@dataclass class BidInfo] *)
Record BidInfo := {
  title : string;
  url : string;
  publish_date : string;
  source : string;
  content : string;
  purchaser : string
}.

(** [BidInfo.unique_id]: [hashlib.md5(self.url.encode()).hexdigest()] *)
Definition unique_id (bid : BidInfo) : string :=
  Hashlib.md5_hexdigest (url bid).

#[global] Arguments unique_id : simpl never.

(** One row of the table [bids].  [created_at] is the reading of the
    database clock ([CURRENT_TIMESTAMP], whole seconds) at insertion. *)
Record Row := {
  r_id : N;
  r_unique_id : string;
  r_title : string;
  r_url : string;
  r_publish_date : string;
  r_source : string;
  r_content : string;
  r_purchaser : string;
  r_notified : Z;
  r_created_at : N
}.

(** The table: its rows in rowid order, and the largest rowid handed
    out so far ([AUTOINCREMENT] never reuses one). *)
Record Store := {
  rows : list Row;
  last_rowid : N
}.

(** [_init_db] on a new file. *)
Definition init_db : Store := {| rows := []; last_rowid := 0 |}.

Definition has_uid (uid : string) (r : Row) : bool :=
  String.eqb (r_unique_id r) uid.

(** [exists]: [SELECT 1 FROM bids WHERE unique_id = ?] *)
Definition exists_ (st : Store) (bid : BidInfo) : bool :=
  existsb (has_uid (unique_id bid)) (rows st).

Definition new_row (st : Store) (now : N) (bid : BidInfo) (notified : bool) : Row :=
  {| r_id := last_rowid st + 1;
     r_unique_id := unique_id bid;
     r_title := title bid;
     r_url := url bid;
     r_publish_date := publish_date bid;
     r_source := source bid;
     r_content := content bid;
     r_purchaser := purchaser bid;
     r_notified := if notified then 1%Z else 0%Z;
     r_created_at := now |}.

(** [save]: [now] is the clock reading taken by the INSERT. *)
Definition save (st : Store) (now : N) (bid : BidInfo) (notified : bool)
  : bool * Store :=
  if exists_ st bid then (false, st)
  else (true, {| rows := rows st ++ [new_row st now bid notified];
                 last_rowid := (last_rowid st + 1)%N |}).

Definition set_notified (r : Row) : Row :=
  {| r_id := r_id r; r_unique_id := r_unique_id r; r_title := r_title r;
     r_url := r_url r; r_publish_date := r_publish_date r;
     r_source := r_source r; r_content := r_content r;
     r_purchaser := r_purchaser r; r_notified := 1%Z;
     r_created_at := r_created_at r |}.

(** [UPDATE bids SET notified = 1 WHERE unique_id = ?] *)
Definition update_notified (uid : string) (st : Store) : Store :=
  {| rows := map (fun r => if has_uid uid r then set_notified r else r) (rows st);
     last_rowid := last_rowid st |}.

(** The three documented shapes of the argument of [mark_notified]. *)
Inductive bids_arg :=
| OneBid (bid : BidInfo)
| BidList (bids : list BidInfo)
| UrlList (urls : list string).

Definition mark_notified (st : Store) (bids : bids_arg) : Store :=
  match bids with
  | OneBid bid => update_notified (unique_id bid) st
  | BidList l =>
      fold_left (fun s bid => update_notified (unique_id bid) s) l st
  | UrlList l =>
      fold_left (fun s u => update_notified (Hashlib.md5_hexdigest u) s) l st
  end.

Definition bid_of_row (r : Row) : BidInfo :=
  {| title := r_title r; url := r_url r; publish_date := r_publish_date r;
     source := r_source r; content := r_content r; purchaser := r_purchaser r |}.

(** [get_unnotified]: [... FROM bids WHERE notified = 0], no ORDER BY:
    SQLite walks the index on [notified], that is, rowid order. *)
Definition get_unnotified (st : Store) : list BidInfo :=
  map bid_of_row (filter (fun r => (r_notified r =? 0)%Z) (rows st)).

(** [ORDER BY created_at DESC]: SQLite's sorter keeps rows with equal
    keys in scan (rowid) order. *)
Fixpoint insert_desc (r : Row) (sorted : list Row) : list Row :=
  match sorted with
  | [] => [r]
  | x :: rest =>
      if (r_created_at x <=? r_created_at r)%N then r :: x :: rest
      else x :: insert_desc r rest
  end.

Definition order_by_created_at_desc (l : list Row) : list Row :=
  fold_right insert_desc [] l.

(** [get_all] *)
Definition get_all (st : Store) : list BidInfo :=
  map bid_of_row (order_by_created_at_desc (rows st)).

(** [count_all] *)
Definition count_all (st : Store) : nat := List.length (rows st).

(** [clear_all]: [DELETE FROM bids] *)
Definition clear_all (st : Store) : Store :=
  {| rows := []; last_rowid := last_rowid st |}.

(** Number of stored rows for a url. *)
Definition rows_for (st : Store) (u : string) : list Row :=
  filter (has_uid (Hashlib.md5_hexdigest u)) (rows st).

(** The table constraints and what AUTOINCREMENT guarantees. *)
Record well_formed (st : Store) : Prop := {
  wf_unique : NoDup (map r_unique_id (rows st));
  wf_uid : Forall (fun r => r_unique_id r = Hashlib.md5_hexdigest (r_url r)) (rows st);
  wf_rowid : StronglySorted N.lt (map r_id (rows st));
  wf_last : Forall (fun r => (r_id r <= last_rowid st)%N) (rows st)
}.

Definition unnotified (r : Row) : bool := (r_notified r =? 0)%Z.

(** Newer clock reading first; within one reading, earlier rowid first. *)
Definition newer_first (x y : Row) : Prop :=
  (r_created_at y < r_created_at x)%N
  \/ (r_created_at y = r_created_at x /\ (r_id x < r_id y)%N).

Definition older_rowid_first (x y : Row) : Prop := (r_id x < r_id y)%N.

(** The operations a client can run, for stores reached from [init_db]. *)
Inductive op :=
| OpSave (now : N) (bid : BidInfo) (notified : bool)
| OpMark (bids : bids_arg)
| OpClear.

Definition run_op (st : Store) (o : op) : Store :=
  match o with
  | OpSave now bid n => snd (save st now bid n)
  | OpMark bids => mark_notified st bids
  | OpClear => clear_all st
  end.

Definition run_ops (ops : list op) : Store := fold_left run_op ops init_db.

End Storage.

(* ===================================================================== *)
(** ** src/matcher/keyword.py                                            *)
(* ===================================================================== *)

Module Matcher.

Import PyStr.

(** [@dataclass class MatchResult] *)
Record MatchResult := {
  matched : bool;
  matched_keywords : list string;
  excluded_by : option string
}.

(** The three lists held by a [KeywordMatcher], already lower-cased. *)
Record KeywordMatcher := {
  include_keywords : list string;
  exclude_keywords : list string;
  must_contain_keywords : list string
}.

Definition not_matched : MatchResult :=
  {| matched := false; matched_keywords := []; excluded_by := None |}.

Section WithLower.

(** The builtin [str.lower]. *)
Variable lower : string -> string.

(** [KeywordMatcher.__init__]; [None] stands for an omitted list. *)
Definition init (include_kw : list string)
           (exclude_kw must_contain_kw : option (list string)) : KeywordMatcher :=
  {| include_keywords := map lower include_kw;
     exclude_keywords :=
       map lower (match exclude_kw with Some l => l | None => [] end);
     must_contain_keywords :=
       map lower (match must_contain_kw with Some l => l | None => [] end) |}.

(** The second loop of step 3: must-contain hits not yet reported. *)
Definition add_must_hits (text_lower : string) (must acc : list string) : list string :=
  fold_left
    (fun acc kw =>
       if contains kw text_lower && negb (mem kw acc) then acc ++ [kw] else acc)
    must acc.

(** [KeywordMatcher.match] *)
Definition match_ (m : KeywordMatcher) (text : string) : MatchResult :=
  if falsy text then not_matched
  else
    let text_lower := lower text in
    match find (fun kw => contains kw text_lower) (exclude_keywords m) with
    | Some kw =>
        {| matched := false; matched_keywords := []; excluded_by := Some kw |}
    | None =>
        let must := must_contain_keywords m in
        let must_matched := existsb (fun kw => contains kw text_lower) must in
        if negb (Nat.eqb (List.length must) 0) && negb must_matched
        then not_matched
        else
          let hits := filter (fun kw => contains kw text_lower) (include_keywords m) in
          let matched_keywords := add_must_hits text_lower must hits in
          {| matched := Nat.ltb 0 (List.length matched_keywords);
             matched_keywords := matched_keywords;
             excluded_by := None |}
    end.

(** [if result.excluded_by:] is false for [None] and for the empty string. *)
Definition truthy_opt (o : option string) : bool :=
  match o with Some s => truthy s | None => false end.

Fixpoint dedup (l : list string) : list string :=
  match l with
  | [] => []
  | x :: rest => if mem x rest then dedup rest else x :: dedup rest
  end.

(** [KeywordMatcher.match_any]; [list(set(..))] is modelled up to order. *)
Definition match_any (m : KeywordMatcher) (texts : list string) : MatchResult :=
  let step (acc : list string * option string) (text : string) :=
    let result := match_ m text in
    (fst acc ++ matched_keywords result,
     if truthy_opt (excluded_by result) then excluded_by result else snd acc) in
  let '(all_kw, excl) := fold_left step texts ([], None) in
  let all_kw := dedup all_kw in
  if truthy_opt excl
  then {| matched := false; matched_keywords := []; excluded_by := excl |}
  else {| matched := Nat.ltb 0 (List.length all_kw);
          matched_keywords := all_kw; excluded_by := None |}.

End WithLower.

End Matcher.

(* ===================================================================== *)
(** ** src/ai_guard.py                                                   *)
(* ===================================================================== *)

Module Guard.

Import PyStr.

(** The attributes [update_config] sets on an [AIGuard]. *)
Record AIGuard := {
  enabled : bool;
  api_key : string;
  base_url : string;
  model : string;
  custom_prompt : string
}.

(** The configuration dictionary; [None] is a missing key. *)
Record Config := {
  cfg_api_key : option string;
  cfg_base_url : option string;
  cfg_model : option string;
  cfg_enable : option bool;
  cfg_prompt : option string
}.

Definition get_default {A} (o : option A) (d : A) : A :=
  match o with Some x => x | None => d end.

(** [s.rstrip('/')] *)
Fixpoint rstrip_slash (s : string) : string :=
  match s with
  | EmptyString => EmptyString
  | String c rest =>
      match rstrip_slash rest with
      | EmptyString => if Ascii.eqb c "/"%char then EmptyString else String c EmptyString
      | r => String c r
      end
  end.

(** [not config]: [None], or a dictionary without any key. *)
Definition falsy_config (config : option Config) : bool :=
  match config with
  | None => true
  | Some c =>
      match cfg_api_key c, cfg_base_url c, cfg_model c, cfg_enable c, cfg_prompt c with
      | None, None, None, None, None => true
      | _, _, _, _, _ => false
      end
  end.

(** [update_config]: a falsy config only switches the guard off. *)
Definition update_config (g : AIGuard) (config : option Config) : AIGuard :=
  match config with
  | Some c =>
      if falsy_config config
      then {| enabled := false; api_key := api_key g; base_url := base_url g;
              model := model g; custom_prompt := custom_prompt g |}
      else {| api_key := get_default (cfg_api_key c) "";
              base_url := rstrip_slash (get_default (cfg_base_url c)
                                                    "https://cc.honoursoft.cn/");
              model := get_default (cfg_model c) "claude-sonnet-4-5-20250929-thinking";
              enabled := get_default (cfg_enable c) false;
              custom_prompt := get_default (cfg_prompt c) "" |}
  | None =>
      {| enabled := false; api_key := api_key g; base_url := base_url g;
         model := model g; custom_prompt := custom_prompt g |}
  end.

(** What one [requests.post] does. *)
Inductive post_result :=
| ConnectionError (msg : string)
| Timeout (msg : string)
| OtherException (msg : string)
| Response (status_code : nat) (text : string).

(** What lines 122-156 make of a 200 response: a verdict (from the JSON
    answer or from the text fallback) or an exception (a body that is
    not JSON, a missing key, an answer that is not an object). *)
Inductive interpretation :=
| Verdict (is_relevant : bool) (reason : string)
| Fails (msg : string).

(** The failures the inner handler retries: a connection error or a
    timeout. *)
Definition transient (r : post_result) : bool :=
  match r with
  | ConnectionError _ | Timeout _ => true
  | OtherException _ | Response _ _ => false
  end.

(** How a call of [check_relevance] ends. *)
Inductive outcome :=
| Return (is_relevant : bool) (reason : string)
| ReturnNone
| Raise (msg : string).

Definition returns (o : outcome) : Prop :=
  exists is_relevant reason, o = Return is_relevant reason.

Definition max_retries : nat := 3.
Definition retry_delay : nat := 2.

Section Environment.

(** The [attempt]-th post of this call, the decoding of an answer, and
    whether [import requests] succeeds. *)
Variable post : nat -> post_result.
Variable interpret : string -> interpretation.
Variable requests_installed : bool.

(** The handler [except Exception as e] at the end of [check_relevance]. *)
Definition on_exception (raise_on_error : bool) (error_msg : string) : outcome :=
  if raise_on_error then Raise error_msg
  else Return true ("AI请求异常: " ++ slice_to 50 error_msg)%string.

(** The handler of a connection error or timeout at [attempt]:
    [None] continues the loop after the delay. *)
Definition on_transient (raise_on_error : bool) (attempt : nat) (msg : string)
  : option outcome :=
  if Nat.ltb attempt (max_retries - 1) then None
  else if raise_on_error then Some (on_exception raise_on_error msg)
  else Some (Return true
               ("AI网络异常（已重试" ++ str_of_nat max_retries ++ "次）")%string).

(** [for attempt in range(max_retries)], from the attempts still to run. *)
Fixpoint retry_loop (raise_on_error : bool) (todo : list nat) : outcome :=
  match todo with
  | [] => ReturnNone
  | attempt :: rest =>
      match post attempt with
      | ConnectionError msg | Timeout msg =>
          match on_transient raise_on_error attempt msg with
          | None => retry_loop raise_on_error rest
          | Some o => o
          end
      | OtherException msg => on_exception raise_on_error msg
      | Response status_code text =>
          if negb (Nat.eqb status_code 200)
          then on_exception raise_on_error
                 ("HTTP " ++ str_of_nat status_code ++ ": "
                  ++ slice_to 200 text)%string
          else match interpret text with
               | Verdict is_relevant reason => Return is_relevant reason
               | Fails msg => on_exception raise_on_error msg
               end
      end
  end.

(** [AIGuard.check_relevance]; the texts only enter the request. *)
Definition check_relevance (g : AIGuard) (title content : string)
           (raise_on_error : bool) : outcome :=
  if negb (enabled g) then Return true "AI未启用"
  else if falsy (api_key g) then Return true "AI未配置Key"
  else if negb requests_installed
       then Return true "请安装 requests 库: pip install requests"
       else retry_loop raise_on_error (seq 0 max_retries).

(** Number of posts a call makes. *)
Fixpoint posts_made (todo : list nat) : nat :=
  match todo with
  | [] => 0
  | attempt :: rest =>
      match post attempt with
      | ConnectionError _ | Timeout _ =>
          if Nat.ltb attempt (max_retries - 1) then S (posts_made rest) else 1
      | _ => 1
      end
  end.

End Environment.

End Guard.

(* ===================================================================== *)
(** ** src/crawler/base.py                                               *)
(* ===================================================================== *)

Module Crawler.

Import PyStr.

(** The part of [requests.Response] the crawler reads. *)
Record Response := {
  status_code : nat;
  text : string
}.

(** [Response.ok], which is also [Response.__bool__]: a response with a
    4xx or 5xx status is falsy. *)
Definition ok (r : Response) : bool :=
  negb (Nat.leb 400 (status_code r) && Nat.ltb (status_code r) 600).

(** The exceptions of [requests.exceptions] that [fetch] handles. *)
Inductive exn :=
| SSLError
| Timeout
| ConnectionError
| HTTPError (response : option Response)
| RequestException.

(** What one [session.get] does. *)
Inductive get_result :=
| Got (r : Response)
| Raised (e : exn).

(** [response.raise_for_status()] *)
Definition raise_for_status (r : Response) : option exn :=
  if ok r then None else Some (HTTPError (Some r)).

(** [e.response.status_code if e.response else 'N/A'];
    [None] stands for the string ['N/A']. *)
Definition error_status (response : option Response) : option nat :=
  match response with
  | Some r => if ok r then Some (status_code r) else None
  | None => None
  end.

(** [status_code in [401, 403]] *)
Definition is_denied (status : option nat) : bool :=
  match status with
  | Some c => Nat.eqb c 401 || Nat.eqb c 403
  | None => false
  end.

(** What the crawler does to the outside, in order. *)
Inductive event :=
| EvPoll (answer : bool)
| EvGet (url : string)
| EvDelay
| EvBackoff (seconds : nat)
| EvParse (html : string).

(** The state threaded through a crawl: how many requests were issued,
    how many times the stop event was polled, and the trace. *)
Record world := {
  requests : nat;
  polls : nat;
  trace : list event
}.

Definition start : world := {| requests := 0; polls := 0; trace := [] |}.

Definition emit (e : event) (w : world) : world :=
  {| requests := requests w; polls := polls w; trace := trace w ++ [e] |}.

Definition count_request (url : string) (w : world) : world :=
  {| requests := S (requests w); polls := polls w; trace := trace w ++ [EvGet url] |}.

Definition count_poll (answer : bool) (w : world) : world :=
  {| requests := requests w; polls := S (polls w); trace := trace w ++ [EvPoll answer] |}.

(** A crawler: the configuration read by [__init__] and the two abstract
    methods; [parse] returns [None] when it raises. *)
Record BaseCrawler := {
  name : string;
  max_retries : nat;
  get_list_urls : list string;
  parse : string -> option (list Storage.BidInfo)
}.

Definition blocked_signs : list string :=
  ["访问频繁"; "请求过于频繁"; "验证码"; "captcha";
   "请稍后重试"; "访问被拒绝"; "Access Denied";
   "403 Forbidden"; "请求被禁止"; "IP被封"].

Section Environment.

Variable lower : string -> string.

(** The answer to the [n]-th request of the run, sent to [url]. *)
Variable http_get : nat -> string -> get_result.

(** [_is_blocked] *)
Definition _is_blocked (html : string) : bool :=
  let html_lower := lower html in
  existsb (fun sign => contains (lower sign) html_lower) blocked_signs.

(** One pass through the body of the retry loop, up to the handlers:
    the page text, or the exception that was raised. *)
Definition attempt_get (url : string) (w : world) : (string + exn) * world :=
  let w1 := count_request url w in
  match http_get (requests w) url with
  | Raised e => (inr e, w1)
  | Got r =>
      match raise_for_status r with
      | Some e => (inr e, w1)
      | None => (inl (text r), emit EvDelay w1)
      end
  end.

(** The handlers: [true] when the handler returns [None] at once. *)
Definition gives_up (e : exn) : bool :=
  match e with
  | HTTPError response => is_denied (error_status response)
  | _ => false
  end.

(** [for attempt in range(self.max_retries)], from the attempts still
    to run. *)
Fixpoint fetch_loop (c : BaseCrawler) (url : string) (todo : list nat) (w : world)
  : option string * world :=
  match todo with
  | [] => (None, w)
  | attempt :: rest =>
      match attempt_get url w with
      | (inl html, w1) => (Some html, w1)
      | (inr e, w1) =>
          if gives_up e then (None, w1)
          else
            let w2 := if Nat.ltb attempt (max_retries c - 1)
                      then emit (EvBackoff (2 ^ (attempt + 1))) w1
                      else w1 in
            fetch_loop c url rest w2
      end
  end.

(** [BaseCrawler.fetch] *)
Definition fetch (c : BaseCrawler) (url : string) (w : world) : option string * world :=
  fetch_loop c url (seq 0 (max_retries c)) w.

(** [if html:] *)
Definition html_truthy (html : option string) : bool :=
  match html with Some s => truthy s | None => false end.

(** [stop_event and stop_event.is_set()]: the event, when one is
    passed, answers the [n]-th poll of the run. *)
Definition check_stop (stop_event : option (nat -> bool)) (w : world) : bool * world :=
  match stop_event with
  | None => (false, w)
  | Some is_set => let b := is_set (polls w) in (b, count_poll b w)
  end.

(** The loop [for url in urls] of [crawl]. *)
Fixpoint crawl_loop (c : BaseCrawler) (stop_event : option (nat -> bool))
         (urls : list string) (all_bids : list Storage.BidInfo) (failed_count : nat)
         (w : world) : list Storage.BidInfo * nat * world :=
  match urls with
  | [] => (all_bids, failed_count, w)
  | url :: rest =>
      let '(stopped, w0) := check_stop stop_event w in
      if stopped then (all_bids, failed_count, w0)
      else
        let '(html, w1) := fetch c url w0 in
        match html with
        | Some page =>
            if truthy page then
              if _is_blocked page
              then crawl_loop c stop_event rest all_bids (S failed_count) w1
              else
                let w2 := emit (EvParse page) w1 in
                match parse c page with
                | Some bids => crawl_loop c stop_event rest (all_bids ++ bids) failed_count w2
                | None => crawl_loop c stop_event rest all_bids (S failed_count) w2
                end
            else crawl_loop c stop_event rest all_bids (S failed_count) w1
        | None => crawl_loop c stop_event rest all_bids (S failed_count) w1
        end
  end.

(** [BaseCrawler.crawl]: [None] when every url failed. *)
Definition crawl (c : BaseCrawler) (stop_event : option (nat -> bool)) (w : world)
  : option (list Storage.BidInfo) * world :=
  let urls := get_list_urls c in
  let '(all_bids, failed_count, w') := crawl_loop c stop_event urls [] 0 w in
  if Nat.eqb failed_count (List.length urls) && Nat.ltb 0 (List.length urls)
  then (None, w')
  else (Some all_bids, w').

(** How one url of a crawl went. *)
Inductive url_outcome :=
| NotAttempted
| NoHtml
| Blocked
| ParseRaised
| Parsed (bids : list Storage.BidInfo).

Definition url_failed (o : url_outcome) : bool :=
  match o with
  | NoHtml | Blocked | ParseRaised => true
  | NotAttempted | Parsed _ => false
  end.

Definition bids_of (o : url_outcome) : list Storage.BidInfo :=
  match o with Parsed bids => bids | _ => [] end.

(** The outcome of every url of a crawl, in order, observed alongside
    the loop of [crawl]. *)
Fixpoint outcomes (c : BaseCrawler) (stop_event : option (nat -> bool))
         (urls : list string) (w : world) : list url_outcome :=
  match urls with
  | [] => []
  | url :: rest =>
      let '(stopped, w0) := check_stop stop_event w in
      if stopped then map (fun _ => NotAttempted) urls
      else
        let '(html, w1) := fetch c url w0 in
        if html_truthy html then
          let page := match html with Some p => p | None => EmptyString end in
          if _is_blocked page then Blocked :: outcomes c stop_event rest w1
          else match parse c page with
               | Some bids => Parsed bids :: outcomes c stop_event rest (emit (EvParse page) w1)
               | None => ParseRaised :: outcomes c stop_event rest (emit (EvParse page) w1)
               end
        else NoHtml :: outcomes c stop_event rest w1
  end.

End Environment.

End Crawler.

(* ===================================================================== *)
(** ** src/gui.py: the notification fan-out of [_do_crawl]               *)
(* ===================================================================== *)

Module Notify.

Import PyStr.

(** The [email] entry of a contact, as the contact dialog builds it. *)
Record EmailConfig := {
  address : string;
  password : string
}.

(** A contact, as the contact dialog builds it ([_on_save]). *)
Record Contact := {
  name : string;
  enabled : bool;
  email : option EmailConfig;
  phone : string;
  wechat_token : string
}.

(** The switches and provider settings of the window that the fan-out
    reads. *)
Record Settings := {
  email_enabled : bool;
  sms_enabled : bool;
  wechat_enabled : bool;
  voice_enabled : bool;
  sms_access_key_id : string;
  voice_tts_code : string
}.

Inductive channel := Email | SMS | WeChat | Voice.

(** What a notifier does when asked to send: it returns a boolean or
    raises. *)
Inductive send_result :=
| Returned (success : bool)
| Raised (msg : string).

(** What the fan-out does, in order. *)
Inductive entry :=
| Attempt (contact : string) (ch : channel) (r : send_result)
| NoPassword (contact : string)
| Marked (urls : list string).

Section Environment.

(** The notifier behind the [n]-th entry of the log. *)
Variable transport : nat -> Contact -> channel -> list Storage.BidInfo -> send_result.
Variable settings : Settings.

Definition no_bids (bids : list Storage.BidInfo) : bool :=
  match bids with [] => true | _ => false end.

(** The [try] block of every helper: the send, and one log line
    whatever it did. *)
Definition try_send (c : Contact) (ch : channel) (bids : list Storage.BidInfo)
           (log : list entry) : list entry :=
  log ++ [Attempt (name c) ch (transport (List.length log) c ch bids)].

(** [_send_email_to_contact] *)
Definition _send_email_to_contact (c : Contact) (bids : list Storage.BidInfo)
           (log : list entry) : list entry :=
  match email c with
  | None => log
  | Some email_cfg =>
      if no_bids bids then log
      else if falsy (address email_cfg) then log
      else if falsy (password email_cfg) then log ++ [NoPassword (name c)]
      else try_send c Email bids log
  end.

(** [_send_sms_to_contact] *)
Definition _send_sms_to_contact (c : Contact) (bids : list Storage.BidInfo)
           (log : list entry) : list entry :=
  if falsy (phone c) || no_bids bids then log
  else try_send c SMS bids log.

(** [_send_wechat_to_contact] *)
Definition _send_wechat_to_contact (c : Contact) (bids : list Storage.BidInfo)
           (log : list entry) : list entry :=
  if falsy (wechat_token c) || no_bids bids then log
  else try_send c WeChat bids log.

(** [_send_voice_to_contact] *)
Definition _send_voice_to_contact (c : Contact) (bids : list Storage.BidInfo)
           (log : list entry) : list entry :=
  if falsy (phone c) || no_bids bids || falsy (voice_tts_code settings) then log
  else try_send c Voice bids log.

Definition is_some {A} (o : option A) : bool :=
  match o with Some _ => true | None => false end.

(** The body of [for contact in self.contacts]. *)
Definition notify_contact (bids : list Storage.BidInfo) (log : list entry) (c : Contact)
  : list entry :=
  if negb (enabled c) then log
  else
    let log1 := if email_enabled settings && is_some (email c)
                then _send_email_to_contact c bids log else log in
    let log2 := if sms_enabled settings && truthy (phone c)
                   && truthy (sms_access_key_id settings)
                then _send_sms_to_contact c bids log1 else log1 in
    let log3 := if wechat_enabled settings && truthy (wechat_token c)
                then _send_wechat_to_contact c bids log2 else log2 in
    if voice_enabled settings && truthy (phone c) && truthy (voice_tts_code settings)
    then _send_voice_to_contact c bids log3 else log3.

(** Lines 3306-3334 of [_do_crawl]: read the unnotified records, fan
    out, mark. *)
Definition dispatch (st : Storage.Store) (contacts : list Contact)
  : list entry * Storage.Store :=
  let unnotified_bids := Storage.get_unnotified st in
  if no_bids unnotified_bids then ([], st)
  else
    let urls := map Storage.url unnotified_bids in
    (fold_left (notify_contact unnotified_bids) contacts [] ++ [Marked urls],
     Storage.mark_notified st (Storage.UrlList urls)).

End Environment.

(** The rows a call [mark_notified(urls)] updates. *)
Definition marked_by (urls : list string) (r : Storage.Row) : bool :=
  existsb (fun u => Storage.has_uid (Hashlib.md5_hexdigest u) r) urls.

(** The (contact, channel) pairs a log shows as attempted. *)
Definition attempted (log : list entry) : list (string * channel) :=
  flat_map (fun e => match e with Attempt c ch _ => [(c, ch)] | _ => [] end) log.

(** The url lists passed to [mark_notified]. *)
Definition marks (log : list entry) : list (list string) :=
  flat_map (fun e => match e with Marked urls => [urls] | _ => [] end) log.

(** The channels a contact is eligible for, in the order of the fan-out. *)
Definition channels_of (settings : Settings) (c : Contact) : list channel :=
  if negb (enabled c) then []
  else
    (if email_enabled settings
        && match email c with
           | Some cfg => truthy (address cfg) && truthy (password cfg)
           | None => false
           end
     then [Email] else [])
    ++ (if sms_enabled settings && truthy (phone c) && truthy (sms_access_key_id settings)
        then [SMS] else [])
    ++ (if wechat_enabled settings && truthy (wechat_token c) then [WeChat] else [])
    ++ (if voice_enabled settings && truthy (phone c) && truthy (voice_tts_code settings)
        then [Voice] else []).

Definition planned (settings : Settings) (contacts : list Contact) : list (string * channel) :=
  flat_map (fun c => map (fun ch => (name c, ch)) (channels_of settings c)) contacts.

End Notify.

Module Fanout.

Import PyStr Notify.

(** What the fan-out does for a contact on one channel: it calls the
    notifier, or, for a mail address without authorisation code, it only
    logs that the code is missing. *)
Inductive step :=
| Call (ch : channel)
| MissingPassword.

(** The steps the fan-out takes for a contact, in order, when there is
    something to notify. *)
Definition steps_of (settings : Settings) (c : Contact) : list step :=
  if negb (enabled c) then []
  else
    (if email_enabled settings
     then match email c with
          | Some cfg =>
              if falsy (address cfg) then []
              else if falsy (password cfg) then [MissingPassword]
              else [Call Email]
          | None => []
          end
     else [])
    ++ (if sms_enabled settings && truthy (phone c) && truthy (sms_access_key_id settings)
        then [Call SMS] else [])
    ++ (if wechat_enabled settings && truthy (wechat_token c) then [Call WeChat] else [])
    ++ (if voice_enabled settings && truthy (phone c) && truthy (voice_tts_code settings)
        then [Call Voice] else []).

Definition schedule (settings : Settings) (contacts : list Contact)
  : list (Contact * step) :=
  flat_map (fun c => map (pair c) (steps_of settings c)) contacts.

Section Environment.

Variable transport : nat -> Contact -> channel -> list Storage.BidInfo -> send_result.

(** The log line of the step in position [i] of the log: a call is
    logged with whatever the notifier, handed the whole batch, returned
    or raised. *)
Definition line (bids : list Storage.BidInfo) (i : nat) (cs : Contact * step) : entry :=
  match snd cs with
  | Call ch => Attempt (name (fst cs)) ch (transport i (fst cs) ch bids)
  | MissingPassword => NoPassword (name (fst cs))
  end.

Fixpoint lines (bids : list Storage.BidInfo) (i : nat) (todo : list (Contact * step))
  : list entry :=
  match todo with
  | [] => []
  | cs :: rest => line bids i cs :: lines bids (S i) rest
  end.

End Environment.

End Fanout.

(* ===================================================================== *)
(** ** One monitoring round                                              *)
(* ===================================================================== *)

Module Round.

Import PyStr.

(** The state of a round: the crawl world, the store, and what the round
    did so far. *)
Record state := {
  net : Crawler.world;
  store : Storage.Store;
  new_count : nat;
  stored : list Storage.BidInfo;
  invoked : list string;
  exhausted : list string;
  progress : list (nat * nat * string)
}.

Definition begin (st : Storage.Store) (w : Crawler.world) : state :=
  {| net := w; store := st; new_count := 0; stored := []; invoked := [];
     exhausted := []; progress := [] |}.

Definition with_net (w : Crawler.world) (s : state) : state :=
  {| net := w; store := store s; new_count := new_count s; stored := stored s;
     invoked := invoked s; exhausted := exhausted s; progress := progress s |}.

(** How [_do_crawl] ends. *)
Inductive ending :=
| Cancelled
| StoppedNothingNew
| Dispatched (log : list Notify.entry).

Section Environment.

Variable lower : string -> string.
Variable http_get : nat -> string -> Crawler.get_result.

(** KeywordMatcher, then the optional RelevanceGuard. *)
Variable classify : Storage.BidInfo -> bool.

(** The database clock at the insertion that follows rowid [n]. *)
Variable db_clock : N -> N.

Variable transport :
  nat -> Notify.Contact -> Notify.channel -> list Storage.BidInfo -> Notify.send_result.
Variable settings : Notify.Settings.

(** Modelled from the spec: the body of [MonitorCore.run_once] for one
    record ([monitor_core.py] is not part of the sources).  A record is
    classified by KeywordMatcher, then optionally by RelevanceGuard
    ([classify] stands for both), and discarded if rejected; it is
    persisted with [notified = false] if new, and silently dropped if its
    unique id already exists. *)
Definition persist (s : state) (bid : Storage.BidInfo) : state :=
  if classify bid then
    let '(fresh, st') :=
      Storage.save (store s) (db_clock (Storage.last_rowid (store s))) bid false in
    if fresh
    then {| net := net s; store := st'; new_count := S (new_count s);
            stored := stored s ++ [bid]; invoked := invoked s;
            exhausted := exhausted s; progress := progress s |}
    else s
  else s.

(** Modelled from the spec: the body of [MonitorCore.run_once] for one
    adapter that is started ([monitor_core.py] is not part of the
    sources).  Invoke the adapter's fetch strategy, classify the results,
    persist them, and report [(current, total, siteName)] after the
    adapter; if all urls of the adapter fail, the adapter is marked
    failed.  Of the two fetch strategies only the plain one,
    [BaseCrawler.crawl], is modelled; the browser strategy is not. *)
Definition run_adapter (stop_event : option (nat -> bool)) (total current : nat)
           (a : Crawler.BaseCrawler) (s : state) : state :=
  let '(result, w1) := Crawler.crawl lower http_get a stop_event (net s) in
  let s1 := {| net := w1; store := store s; new_count := new_count s;
               stored := stored s; invoked := invoked s ++ [Crawler.name a];
               exhausted := exhausted s; progress := progress s |} in
  let s2 := match result with
            | None =>
                {| net := net s1; store := store s1; new_count := new_count s1;
                   stored := stored s1; invoked := invoked s1;
                   exhausted := exhausted s1 ++ [Crawler.name a];
                   progress := progress s1 |}
            | Some bids => fold_left persist bids s1
            end in
  {| net := net s2; store := store s2; new_count := new_count s2;
     stored := stored s2; invoked := invoked s2; exhausted := exhausted s2;
     progress := progress s2 ++ [(S current, total, Crawler.name a)] |}.

(** Modelled from the spec: the adapter loop of [MonitorCore.run_once]
    ([monitor_core.py] is not part of the sources).  For each adapter in
    order: check the stop signal; if set, abort the round without
    advancing further adapters and without discarding what is stored;
    otherwise crawl, classify, persist, and report progress.  An adapter
    all of whose urls fail is marked failed and the round continues. *)
Fixpoint run_loop (stop_event : option (nat -> bool)) (total current : nat)
         (adapters : list Crawler.BaseCrawler) (s : state) : state :=
  match adapters with
  | [] => s
  | a :: rest =>
      let '(stopped, w0) := Crawler.check_stop stop_event (net s) in
      if stopped then with_net w0 s
      else run_loop stop_event total (S current) rest
                    (run_adapter stop_event total current a (with_net w0 s))
  end.

(** Modelled from the spec: [MonitorCore.run_once]. *)
Definition run_once (stop_event : option (nat -> bool))
           (adapters : list Crawler.BaseCrawler)
           (st : Storage.Store) (w : Crawler.world) : state :=
  run_loop stop_event (List.length adapters) 0 adapters (begin st w).

(** [_do_crawl] of [gui.py], from the first look at the stop event to
    the marking of the notified records. *)
Definition _do_crawl (is_set : nat -> bool) (adapters : list Crawler.BaseCrawler)
           (contacts : list Notify.Contact)
           (st : Storage.Store) (w : Crawler.world) : ending * state :=
  let '(cancelled, w0) := Crawler.check_stop (Some is_set) w in
  if cancelled then (Cancelled, begin st w0)
  else
    let s := run_once (Some is_set) adapters st w0 in
    let '(was_stopped, w1) := Crawler.check_stop (Some is_set) (net s) in
    if was_stopped && Nat.eqb (new_count s) 0
    then (StoppedNothingNew, with_net w1 s)
    else
      let '(log, st') := Notify.dispatch transport settings (store s) contacts in
      (Dispatched log,
       {| net := w1; store := st'; new_count := new_count s; stored := stored s;
          invoked := invoked s; exhausted := exhausted s; progress := progress s |}).

End Environment.

Section Harvest.

Variable lower : string -> string.
Variable http_get : nat -> string -> Crawler.get_result.

(** What the crawls of [adapters] return, in order, when no stop event
    is passed and each adapter starts where the one before left the
    network: the records a round is handed to classify. *)
Fixpoint crawled (adapters : list Crawler.BaseCrawler) (w : Crawler.world)
  : list Storage.BidInfo :=
  match adapters with
  | [] => []
  | a :: rest =>
      let '(result, w1) := Crawler.crawl lower http_get a None w in
      match result with Some bids => bids | None => [] end ++ crawled rest w1
  end.

End Harvest.

(** The trace without the polls of the stop event. *)
Definition work (t : list Crawler.event) : list Crawler.event :=
  filter (fun e => match e with Crawler.EvPoll _ => false | _ => true end) t.

(** The polls of a trace, in order. *)
Definition answers (t : list Crawler.event) : list bool :=
  flat_map (fun e => match e with Crawler.EvPoll b => [b] | _ => [] end) t.

(** The stop event answers [False] to every poll before the [n]-th. *)
Definition quiet (is_set : nat -> bool) (n : nat) : Prop :=
  forall i, i < n -> is_set i = false.

(** Two worlds that differ only in the polls of the stop event. *)
Definition same_work (w1 w2 : Crawler.world) : Prop :=
  Crawler.requests w1 = Crawler.requests w2 /\ work (Crawler.trace w1) = work (Crawler.trace w2).

(** Two round states that differ only in the polls of the stop event. *)
Definition agree (s1 s2 : state) : Prop :=
  same_work (net s1) (net s2)
  /\ store s1 = store s2 /\ new_count s1 = new_count s2
  /\ stored s1 = stored s2 /\ invoked s1 = invoked s2
  /\ exhausted s1 = exhausted s2 /\ progress s1 = progress s2.

(** The store satisfies its constraints, every record stored in the
    round is in it and unnotified, and [new_count] counts them. *)
Definition kept (s : state) : Prop :=
  Storage.well_formed (store s)
  /\ Forall (fun b => In b (Storage.get_unnotified (store s))) (stored s)
  /\ new_count s = List.length (stored s).

End Round.

(* ===================================================================== *)
(** ** Python list slicing                                               *)
(* ===================================================================== *)

Module PyList.

(** The position a slice bound denotes in a list of [len] elements: a
    negative bound counts from the end, and every bound is clipped to
    the list. *)
Definition clamp (len : nat) (i : Z) : nat :=
  if (i <? 0)%Z then Z.to_nat (Z.max 0 (Z.of_nat len + i))
  else Nat.min (Z.to_nat i) len.

(** [l[i:]] *)
Definition slice_from {A} (l : list A) (i : Z) : list A :=
  skipn (clamp (List.length l) i) l.

(** [l[i:j]] *)
Definition slice {A} (l : list A) (i j : Z) : list A :=
  let a := clamp (List.length l) i in
  let b := clamp (List.length l) j in
  firstn (b - a) (skipn a l).

End PyList.

(* ===================================================================== *)
(** ** Storage: the rows one call of [mark_notified] updates             *)
(* ===================================================================== *)

Module Marking.

Import Storage.

(** The identifiers the UPDATE statements of one call are run with. *)
Definition uids_of (bids : bids_arg) : list string :=
  match bids with
  | OneBid bid => [unique_id bid]
  | BidList l => map unique_id l
  | UrlList l => map Hashlib.md5_hexdigest l
  end.

(** Whether one of the UPDATE statements reaches row [r]. *)
Definition reached (uids : list string) (r : Row) : bool :=
  existsb (fun uid => has_uid uid r) uids.

End Marking.

(* ===================================================================== *)
(** ** src/crawler/base.py: what [fetch] amounts to                      *)
(* ===================================================================== *)

Module MatchAnyLoop.

Import Matcher.

Section WithLower.

Variable lower : string -> string.
Variable m : KeywordMatcher.

(** One turn of the loop [for text in texts] of [match_any]. *)
Definition step (acc : list string * option string) (text : string)
  : list string * option string :=
  (fst acc ++ matched_keywords (match_ lower m text),
   if truthy_opt (excluded_by (match_ lower m text))
   then excluded_by (match_ lower m text) else snd acc).

(** [if result.excluded_by:] for the result of one text. *)
Definition excluded (text : string) : bool :=
  truthy_opt (excluded_by (match_ lower m text)).

End WithLower.

End MatchAnyLoop.

Module Fetching.

Import Crawler.

(** The page an answer serves: the text of a response whose status is
    not an error. *)
Definition served (r : get_result) : option string :=
  match r with
  | Got resp => if ok resp then Some (text resp) else None
  | Raised _ => None
  end.

(** The first of the answers [start], [start + 1], .. (at most [n] of
    them) that serves a page, with the number of answers before it. *)
Fixpoint first_served (http_get : nat -> string -> get_result) (url : string)
         (start n : nat) : option (nat * string) :=
  match n with
  | O => None
  | S n' =>
      match served (http_get start url) with
      | Some html => Some (O, html)
      | None =>
          match first_served http_get url (S start) n' with
          | Some (k, html) => Some (S k, html)
          | None => None
          end
      end
  end.

(** The seconds of backoff a trace holds (without the random jitter). *)
Definition backoff_total (t : list event) : nat :=
  list_sum (map (fun e => match e with EvBackoff s => s | _ => 0 end) t).

(** The requests a trace holds. *)
Definition gets (t : list event) : list string :=
  flat_map (fun e => match e with EvGet u => [u] | _ => [] end) t.

End Fetching.

(* ===================================================================== *)
(** ** src/main.py: [BidMonitor.run_once]                                *)
(* ===================================================================== *)

Module Main.

Import PyStr.

(** What a round leaves behind: the store, the crawl world, the records
    it collected as new, the crawlers whose turn ended in an exception,
    and the answer of the notifier when it was called. *)
Record round := {
  store : Storage.Store;
  net : Crawler.world;
  all_matched_bids : list Storage.BidInfo;
  failed : list string;
  sent : option bool
}.

Section Environment.

Variable lower : string -> string.
Variable http_get : nat -> string -> Crawler.get_result.

(** The database clock at the insertion that follows rowid [n]. *)
Variable db_clock : N -> N.

(** [EmailNotifier.send]: it catches every exception and answers with a
    boolean. *)
Variable send : list Storage.BidInfo -> bool.

Variable matcher : Matcher.KeywordMatcher.

(** The body of [for bid in bids]. *)
Definition consider (acc : Storage.Store * list Storage.BidInfo) (bid : Storage.BidInfo)
  : Storage.Store * list Storage.BidInfo :=
  let '(st, matched_bids) := acc in
  let match_result :=
    Matcher.match_any lower matcher [Storage.title bid; Storage.content bid] in
  if Matcher.matched match_result then
    if negb (Storage.exists_ st bid)
    then (snd (Storage.save st (db_clock (Storage.last_rowid st)) bid false),
          matched_bids ++ [bid])
    else acc
  else acc.

(** The body of [for crawler in self.crawlers]: a crawl that returns
    [None] makes the loop over its result raise, which the handler of the
    turn logs. *)
Definition crawler_turn (r : round) (c : Crawler.BaseCrawler) : round :=
  let '(bids, w) := Crawler.crawl lower http_get c None (net r) in
  match bids with
  | None =>
      {| store := store r; net := w; all_matched_bids := all_matched_bids r;
         failed := failed r ++ [Crawler.name c]; sent := sent r |}
  | Some l =>
      let '(st, matched_bids) := fold_left consider l (store r, all_matched_bids r) in
      {| store := st; net := w; all_matched_bids := matched_bids;
         failed := failed r; sent := sent r |}
  end.

(** The notification at the end of the round. *)
Definition notify (r : round) : round :=
  match all_matched_bids r with
  | [] => r
  | _ :: _ =>
      let success := send (all_matched_bids r) in
      {| store := if success
                  then fold_left (fun st bid => Storage.mark_notified st (Storage.OneBid bid))
                                 (all_matched_bids r) (store r)
                  else store r;
         net := net r; all_matched_bids := all_matched_bids r;
         failed := failed r; sent := Some success |}
  end.

(** [BidMonitor.run_once] *)
Definition run_once (crawlers : list Crawler.BaseCrawler)
           (st : Storage.Store) (w : Crawler.world) : round :=
  notify (fold_left crawler_turn crawlers
                    {| store := st; net := w; all_matched_bids := [];
                       failed := []; sent := None |}).

End Environment.

End Main.

(* ===================================================================== *)
(** ** server/app.py                                                     *)
(* ===================================================================== *)

Module Server.

Import PyStr.

(** *** [AppState.add_log] and [/api/logs] *)

(** [AppState.add_log]; [timestamp] is the clock reading, formatted. *)
Definition add_log (logs : list string) (timestamp message : string) : list string :=
  let log_entry := ("[" ++ timestamp ++ "] " ++ message)%string in
  let logs1 := logs ++ [log_entry] in
  if Nat.ltb 200 (List.length logs1) then PyList.slice_from logs1 (-200) else logs1.

(** [get_logs]: [app_state.logs[-limit:]] *)
Definition get_logs (logs : list string) (limit : Z) : list string :=
  PyList.slice_from logs (- limit).

(** *** [/api/results] *)

(** [all_bids.sort(key=lambda x: x.publish_date or "", reverse=True)]:
    the sort is stable, also in reverse. *)
Fixpoint insert_by_date (b : Storage.BidInfo) (sorted : list Storage.BidInfo)
  : list Storage.BidInfo :=
  match sorted with
  | [] => [b]
  | x :: rest =>
      if String.leb (Storage.publish_date x) (Storage.publish_date b)
      then b :: x :: rest
      else x :: insert_by_date b rest
  end.

Definition sort_by_publish_date (l : list Storage.BidInfo) : list Storage.BidInfo :=
  fold_right insert_by_date [] l.

(** One item of the answer. *)
Record item := {
  i_title : string;
  i_url : string;
  i_source : string;
  i_pub_date : option string
}.

Definition item_of (b : Storage.BidInfo) : item :=
  {| i_title := Storage.title b; i_url := Storage.url b; i_source := Storage.source b;
     i_pub_date := if falsy (Storage.publish_date b) then None
                   else Some (Storage.publish_date b) |}.

Record results := {
  total : nat;
  offset : Z;
  limit : Z;
  items : list item
}.

(** [get_results] *)
Definition get_results (st : Storage.Store) (limit offset : Z) : results :=
  let all_bids := sort_by_publish_date (Storage.get_all st) in
  {| total := List.length all_bids;
     offset := offset;
     limit := limit;
     items := map item_of (PyList.slice all_bids offset (offset + limit)) |}.

(** Newer publication date first. *)
Definition date_not_older (x y : Storage.BidInfo) : Prop :=
  String.leb (Storage.publish_date y) (Storage.publish_date x) = true.

(** *** [send_notifications] *)

(** A contact of the server configuration. *)
Record Contact := {
  name : option string;
  enabled : option bool;
  email : string;
  email_password : string;
  phone : string;
  wechat_token : string
}.

(** The switches and provider settings [send_notifications] reads. *)
Record Config := {
  email_enabled : bool;
  sms_enabled : bool;
  voice_enabled : bool;
  wechat_enabled : bool;
  sms_access_key_id : string;
  sms_template_code : string;
  voice_tts_code : string
}.

(** What a notifier is handed: records, or the count of the summary. *)
Inductive payload :=
| Records (bids : list Storage.BidInfo)
| Count (n : nat).

Inductive entry :=
| Attempt (contact : string) (ch : Notify.channel) (p : payload) (r : Notify.send_result).

Definition display_name (c : Contact) : string :=
  match name c with Some n => n | None => "未知" end.

Section Environment.

(** The notifier behind the [n]-th entry of the log. *)
Variable transport : nat -> Contact -> Notify.channel -> payload -> Notify.send_result.
Variable config : Config.

Definition try_send (c : Contact) (ch : Notify.channel) (p : payload) (log : list entry)
  : list entry :=
  log ++ [Attempt (display_name c) ch p (transport (List.length log) c ch p)].

(** The body of [for contact in contacts]. *)
Definition notify_contact (unnotified_bids : list Storage.BidInfo) (new_count : nat)
           (log : list entry) (c : Contact) : list entry :=
  if negb (match enabled c with Some b => b | None => true end) then log
  else
    let log1 := if email_enabled config && truthy (email c) && truthy (email_password c)
                then try_send c Notify.Email (Records (firstn 10 unnotified_bids)) log
                else log in
    let log2 := if sms_enabled config && truthy (phone c)
                   && (truthy (sms_access_key_id config) && truthy (sms_template_code config))
                then try_send c Notify.SMS (Count new_count) log1
                else log1 in
    let log3 := if voice_enabled config && truthy (phone c)
                   && truthy (voice_tts_code config)
                then try_send c Notify.Voice (Count new_count) log2
                else log2 in
    if wechat_enabled config && truthy (wechat_token c)
    then try_send c Notify.WeChat (Records (firstn 10 unnotified_bids)) log3
    else log3.

(** [send_notifications]: the store is read, never written. *)
Definition send_notifications (st : Storage.Store) (contacts : list Contact)
           (new_count : nat) : list entry :=
  fold_left (notify_contact (Storage.get_unnotified st) new_count) contacts [].

End Environment.

(** The records a log shows as handed to a notifier. *)
Definition batches (log : list entry) : list (list Storage.BidInfo) :=
  flat_map (fun e => match e with
                     | Attempt _ _ (Records l) _ => [l]
                     | Attempt _ _ (Count _) _ => []
                     end) log.

End Server.

(* ===================================================================== *)
(** ** src/notifier/voice.py and src/notifier/sms.py: the texts          *)
(* ===================================================================== *)

Module Texts.

Import PyStr.

(** [len(s)]: the number of code points. *)
Fixpoint len (s : string) : nat :=
  match s with
  | EmptyString => 0
  | String c rest => if is_continuation c then len rest else S (len rest)
  end.

(** The [source] parameter of [VoiceNotifier.call]:
    [source[:10] if source else "招标网站"]. *)
Definition tts_source (source : string) : string :=
  if truthy source then slice_to 10 source else "招标网站".

(** [sep.join(parts)] *)
Fixpoint join (sep : string) (parts : list string) : string :=
  match parts with
  | [] => EmptyString
  | [p] => p
  | p :: rest => (p ++ sep ++ join sep rest)%string
  end.

(** The source text [SMSNotifier.send] builds when no summary is given;
    [sources] is [list(set(..))], in the order the set yields. *)
Definition summary_source (sources : list string) : string :=
  let source_str := join "、" sources in
  if Nat.ltb 20 (len source_str) then (slice_to 18 source_str ++ "...")%string
  else source_str.

End Texts.

(* ===================================================================== *)
(** ** Sample data                                                       *)
(* ===================================================================== *)

Module Samples.

Import Storage.

Definition bid (t u : string) : BidInfo :=
  {| title := t; url := u; publish_date := "2025-01-01"; source := "demo";
     content := ""; purchaser := "" |}.

Definition tender_a : BidInfo := bid "Tender A" "https://example.com/a".
Definition tender_a' : BidInfo :=
  {| title := "Tender A (reposted)"; url := "https://example.com/a";
     publish_date := "2025-02-02"; source := "mirror";
     content := "other text"; purchaser := "someone" |}.
Definition tender_b : BidInfo := bid "Tender B" "https://example.com/b".

(** A store in which [tender_a] was saved at second 10. *)
Definition store_a : Store := run_ops [OpSave 10 tender_a false].

(** [tender_a] at second 10, then [tender_b] at second 20. *)
Definition store_ab : Store :=
  run_ops [OpSave 10 tender_a false; OpSave 20 tender_b false].

Definition tender_c : BidInfo := bid "Tender C" "https://example.com/c".

(** Five sites; every page is served and parses to one record. *)
Definition site (n : string) (urls : list string) (b : BidInfo) : Crawler.BaseCrawler :=
  {| Crawler.name := n; Crawler.max_retries := 3;
     Crawler.get_list_urls := urls;
     Crawler.parse := fun _ => Some [b] |}.

Definition site1 := site "site1" ["https://s1.example/p1"; "https://s1.example/p2"] tender_a.
Definition site2 := site "site2" ["https://s2.example/p1"] tender_b.
Definition site3 := site "site3" ["https://s3.example/p1"] tender_c.
Definition site4 := site "site4" ["https://s4.example/p1"] tender_c.
Definition site5 := site "site5" ["https://s5.example/p1"] tender_c.

Definition serve_all (n : nat) (u : string) : Crawler.get_result :=
  Crawler.Got {| Crawler.status_code := 200; Crawler.text := "<html>list</html>" |}.

(** The stop event is set after six polls: the first look, site1 and
    its two urls, site2 and its url. *)
Definition stop_after_six (i : nat) : bool := Nat.leb 6 i.

Definition accept_all (b : BidInfo) : bool := true.
Definition clock (n : N) : N := (100 + n)%N.

Definition alice : Notify.Contact :=
  {| Notify.name := "alice"; Notify.enabled := true;
     Notify.email := Some {| Notify.address := "alice@example.com";
                             Notify.password := "secret" |};
     Notify.phone := "13800000000"; Notify.wechat_token := "" |}.

Definition all_channels : Notify.Settings :=
  {| Notify.email_enabled := true; Notify.sms_enabled := true;
     Notify.wechat_enabled := true; Notify.voice_enabled := true;
     Notify.sms_access_key_id := "key"; Notify.voice_tts_code := "tts" |}.

(** The mail server refuses, the SMS gateway raises, the rest goes
    through. *)
Definition flaky (n : nat) (c : Notify.Contact) (ch : Notify.channel)
           (bids : list BidInfo) : Notify.send_result :=
  match ch with
  | Notify.Email => Notify.Returned false
  | Notify.SMS => Notify.Raised "gateway timeout"
  | _ => Notify.Returned true
  end.

End Samples.

(* ********************************************************************* *)
(** * Properties                                                         *)
(* ********************************************************************* *)

(* ===================================================================== *)
(** ** hashlib.md5: test vectors of RFC 1321                             *)
(* ===================================================================== *)

Example md5_empty :
  Hashlib.md5_hexdigest "" = "d41d8cd98f00b204e9800998ecf8427e".
Proof. vm_compute. reflexivity. Qed.

Example md5_abc :
  Hashlib.md5_hexdigest "abc" = "900150983cd24fb0d6963f7d28e17f72".
Proof. vm_compute. reflexivity. Qed.

Example md5_two_blocks :
  Hashlib.md5_hexdigest
    "aaaaaaaaaaaaaaaaaaaaaaaaaaaaaaaaaaaaaaaaaaaaaaaaaaaaaaaaaaaaaaaaaaaaaa"
  = "0f5c6c4e740bfcc08c3c26ccb2673d46".
Proof. vm_compute. reflexivity. Qed.

Example md5_sample_url :
  Storage.unique_id Samples.tender_a = "cd69b81ea00cc2798797293cbc92d643".
Proof. vm_compute. reflexivity. Qed.

(* ===================================================================== *)
(** ** Storage                                                           *)
(* ===================================================================== *)

Module StorageProps.

Import Storage.

Lemma exists_false_not_in st bid :
  exists_ st bid = false -> ~ In (unique_id bid) (map r_unique_id (rows st)).
Proof.
  unfold exists_. intros H Hin.
  apply in_map_iff in Hin. destruct Hin as [r [Hr Hin]].
  assert (existsb (has_uid (unique_id bid)) (rows st) = true) as E.
  { apply existsb_exists. exists r. split; [exact Hin|].
    unfold has_uid. rewrite Hr. apply String.eqb_refl. }
  congruence.
Qed.

Lemma exists_true_in st bid :
  exists_ st bid = true ->
  exists r, In r (rows st) /\ r_unique_id r = unique_id bid.
Proof.
  unfold exists_. intros H. apply existsb_exists in H.
  destruct H as [r [Hin Hr]]. exists r. split; [exact Hin|].
  unfold has_uid in Hr. now apply String.eqb_eq.
Qed.

Lemma same_url_same_uid r1 r2 : url r1 = url r2 -> unique_id r1 = unique_id r2.
Proof. unfold unique_id. now intros ->. Qed.

(** *** The UPDATE keeps every column but [notified] *)

Lemma update_keeps_uids uid st :
  map r_unique_id (rows (update_notified uid st)) = map r_unique_id (rows st).
Proof.
  unfold update_notified; simpl. rewrite map_map. apply map_ext.
  intros r. now destruct (has_uid uid r).
Qed.

Lemma update_keeps_ids uid st :
  map r_id (rows (update_notified uid st)) = map r_id (rows st).
Proof.
  unfold update_notified; simpl. rewrite map_map. apply map_ext.
  intros r. now destruct (has_uid uid r).
Qed.

Lemma Forall_map_rows (P : Row -> Prop) (f : Row -> Row) l :
  (forall r, P r -> P (f r)) -> Forall P l -> Forall P (map f l).
Proof.
  intros Hf H. induction H; simpl; constructor; auto.
Qed.

Lemma strongly_sorted_snoc (l : list N) (x : N) :
  StronglySorted N.lt l -> Forall (fun y => (y < x)%N) l ->
  StronglySorted N.lt (l ++ [x]).
Proof.
  induction 1 as [|a l Hs IH Ha]; intros Hall; simpl.
  - constructor; constructor.
  - inversion Hall; subst. constructor.
    + now apply IH.
    + apply Forall_app. split; [exact Ha|]. constructor; [assumption|constructor].
Qed.

(** *** Every operation keeps the table constraints *)

Lemma init_db_well_formed : well_formed init_db.
Proof. split; simpl; constructor. Qed.

Lemma update_well_formed uid st :
  well_formed st -> well_formed (update_notified uid st).
Proof.
  intros [H1 H2 H3 H4]. split.
  - now rewrite update_keeps_uids.
  - unfold update_notified; simpl. apply Forall_map_rows; [|exact H2].
    intros r Hr. now destruct (has_uid uid r).
  - now rewrite update_keeps_ids.
  - unfold update_notified; simpl. apply Forall_map_rows; [|exact H4].
    intros r Hr. now destruct (has_uid uid r).
Qed.

Lemma mark_well_formed st bids :
  well_formed st -> well_formed (mark_notified st bids).
Proof.
  destruct bids as [b|l|l]; simpl.
  - apply update_well_formed.
  - revert st. induction l as [|b l IH]; simpl; intros st H; [exact H|].
    apply IH. now apply update_well_formed.
  - revert st. induction l as [|u l IH]; simpl; intros st H; [exact H|].
    apply IH. now apply update_well_formed.
Qed.

Lemma save_well_formed st now bid n :
  well_formed st -> well_formed (snd (save st now bid n)).
Proof.
  intros [H1 H2 H3 H4]. unfold save.
  destruct (exists_ st bid) eqn:E; simpl; [now split|].
  split; simpl.
  - rewrite map_app. simpl. apply NoDup_app. repeat split.
    + exact H1.
    + constructor; [intros []|constructor].
    + intros a Ha [<-|[]]. now apply (exists_false_not_in st bid).
  - apply Forall_app. split; [exact H2|]. constructor; [reflexivity|constructor].
  - rewrite map_app. simpl. apply strongly_sorted_snoc; [exact H3|].
    apply Forall_map. eapply Forall_impl; [|exact H4]. simpl. intros r Hr. lia.
  - apply Forall_app. split.
    + eapply Forall_impl; [|exact H4]. simpl. intros r Hr. lia.
    + constructor; [simpl; lia|constructor].
Qed.

Lemma clear_well_formed st : well_formed (clear_all st).
Proof. split; simpl; constructor. Qed.

Lemma run_op_well_formed st o : well_formed st -> well_formed (run_op st o).
Proof.
  destruct o; simpl; intros H.
  - now apply save_well_formed.
  - now apply mark_well_formed.
  - apply clear_well_formed.
Qed.

Lemma fold_run_op_well_formed ops st :
  well_formed st -> well_formed (fold_left run_op ops st).
Proof.
  revert st. induction ops as [|o ops IH]; simpl; intros st H; [exact H|].
  apply IH. now apply run_op_well_formed.
Qed.

Lemma run_ops_well_formed ops : well_formed (run_ops ops).
Proof. apply fold_run_op_well_formed, init_db_well_formed. Qed.

(** *** Rows of one identifier *)

Lemma no_row_for l uid :
  ~ In uid (map r_unique_id l) -> filter (has_uid uid) l = [].
Proof.
  induction l as [|r l IH]; simpl; intros H; [reflexivity|].
  destruct (has_uid uid r) eqn:E.
  - exfalso. apply H. left. unfold has_uid in E. now apply String.eqb_eq.
  - apply IH. intros Hin. apply H. now right.
Qed.

Lemma one_row_for l uid :
  NoDup (map r_unique_id l) -> In uid (map r_unique_id l) ->
  List.length (filter (has_uid uid) l) = 1.
Proof.
  induction l as [|r l IH]; simpl; intros Hnd Hin; [contradiction|].
  inversion Hnd as [|x xs Hx Hnd']; subst.
  destruct (has_uid uid r) eqn:E.
  - unfold has_uid in E. apply String.eqb_eq in E. subst uid.
    simpl. now rewrite (no_row_for l _ Hx).
  - destruct Hin as [Heq|Hin].
    + unfold has_uid in E. rewrite Heq, String.eqb_refl in E. discriminate.
    + now apply IH.
Qed.

Lemma exists_in_iff st bid :
  exists_ st bid = true <-> In (unique_id bid) (map r_unique_id (rows st)).
Proof.
  split.
  - intros H. destruct (exists_true_in _ _ H) as [r [Hin Hr]].
    apply in_map_iff. now exists r.
  - intros H. destruct (exists_ st bid) eqn:E; [reflexivity|].
    now apply exists_false_not_in in E.
Qed.

(** Two saves of one url, on any store that satisfies the constraints. *)
Lemma save_twice_wf st now1 now2 r1 r2 n1 n2 :
  well_formed st -> url r1 = url r2 ->
  let st1 := snd (save st now1 r1 n1) in
  let st2 := snd (save st1 now2 r2 n2) in
  List.length (rows_for st2 (url r1)) = 1
  /\ fst (save st1 now2 r2 n2) = false
  /\ fst (save st now1 r1 n1) = negb (exists_ st r1)
  /\ st2 = st1.
Proof.
  intros Hwf Hurl st1 st2.
  assert (exists_ st1 r2 = true) as E2.
  { subst st1. unfold save. destruct (exists_ st r1) eqn:E1; simpl.
    - unfold exists_ in *. now rewrite <- (same_url_same_uid _ _ Hurl).
    - unfold exists_. simpl. rewrite existsb_app. simpl.
      unfold has_uid at 2. cbn [new_row r_unique_id].
      rewrite (same_url_same_uid _ _ Hurl), String.eqb_refl.
      now rewrite orb_true_r. }
  assert (st2 = st1) as Hst2.
  { subst st2. unfold save. now rewrite E2. }
  split; [|split; [|split]].
  - rewrite Hst2. unfold rows_for. apply one_row_for.
    + apply (wf_unique st1). subst st1. now apply save_well_formed.
    + rewrite Hurl. now apply (exists_in_iff st1 r2).
  - unfold save. now rewrite E2.
  - unfold save. now destruct (exists_ st r1).
  - exact Hst2.
Qed.

(** *** Reading back *)

Lemma insert_desc_perm r l : Permutation (r :: l) (insert_desc r l).
Proof.
  induction l as [|x l IH]; simpl; [reflexivity|].
  destruct (r_created_at x <=? r_created_at r)%N; [reflexivity|].
  rewrite perm_swap. now apply perm_skip.
Qed.

Lemma order_by_perm l : Permutation l (order_by_created_at_desc l).
Proof.
  induction l as [|r l IH]; simpl; [constructor|].
  rewrite <- insert_desc_perm. now apply perm_skip.
Qed.

Lemma insert_desc_sorted r l :
  StronglySorted newer_first l ->
  Forall (fun y => (r_id r < r_id y)%N) l ->
  StronglySorted newer_first (insert_desc r l).
Proof.
  induction 1 as [|x l Hs IH Hx]; intros Hid; simpl.
  - constructor; constructor.
  - inversion Hid as [|? ? Hrx Hrl]; subst.
    destruct (r_created_at x <=? r_created_at r)%N eqn:E.
    + apply N.leb_le in E. constructor; [now constructor|].
      constructor.
      * unfold newer_first. apply N.lt_eq_cases in E. destruct E as [E|E]; [now left|].
        right. now split.
      * rewrite Forall_forall in *. intros y Hy.
        specialize (Hx y Hy). specialize (Hrl y Hy).
        unfold newer_first in *. destruct Hx as [Hx|[Hx _]].
        -- left. lia.
        -- apply N.lt_eq_cases in E. destruct E as [E|E]; [left; lia|].
           right. split; [congruence|exact Hrl].
    + apply N.leb_gt in E. constructor; [now apply IH|].
      apply (Permutation_Forall (insert_desc_perm r l)).
      constructor; [|exact Hx]. now left.
Qed.

Lemma order_by_sorted l :
  StronglySorted N.lt (map r_id l) ->
  StronglySorted newer_first (order_by_created_at_desc l).
Proof.
  induction l as [|r l IH]; simpl; intros H; [constructor|].
  inversion H as [|? ? Hs Hr]; subst.
  apply insert_desc_sorted; [now apply IH|].
  apply (Permutation_Forall (order_by_perm l)).
  rewrite Forall_map in Hr. exact Hr.
Qed.

Lemma filter_sorted_by_rowid (f : Row -> bool) l :
  StronglySorted N.lt (map r_id l) ->
  StronglySorted older_rowid_first (filter f l).
Proof.
  induction l as [|r l IH]; simpl; intros H; [constructor|].
  inversion H as [|? ? Hs Hr]; subst.
  destruct (f r); [|now apply IH].
  constructor; [now apply IH|].
  rewrite Forall_map in Hr. rewrite Forall_forall in *.
  intros y Hy. apply filter_In in Hy. now apply Hr.
Qed.

(** *** The three shapes of [mark_notified] *)

Lemma mark_shapes_agree st r :
  mark_notified st (UrlList [url r]) = mark_notified st (BidList [r])
  /\ mark_notified st (BidList [r]) = mark_notified st (OneBid r).
Proof. split; reflexivity. Qed.

End StorageProps.

(** C1, as amended.  For records [r1], [r2] with the same url and every
    store reached from the empty one, [save r1] then [save r2] leave
    exactly one row for that url, the second call returns [False] and
    changes nothing, and the first call returns [True] exactly when no row
    for the url was stored before, as on a new database. *)
Theorem save_same_url_twice (ops : list Storage.op) (now1 now2 : N)
        (r1 r2 : Storage.BidInfo) :
  Storage.url r1 = Storage.url r2 ->
  let st := Storage.run_ops ops in
  let st1 := snd (Storage.save st now1 r1 false) in
  let st2 := snd (Storage.save st1 now2 r2 false) in
  List.length (Storage.rows_for st2 (Storage.url r1)) = 1
  /\ fst (Storage.save st1 now2 r2 false) = false
  /\ st2 = st1
  /\ (fst (Storage.save st now1 r1 false) = true
      <-> Storage.rows_for st (Storage.url r1) = [])
  /\ (ops = [] -> fst (Storage.save st now1 r1 false) = true).
Proof.
  intros Hurl st st1 st2.
  destruct (StorageProps.save_twice_wf st now1 now2 r1 r2 false false
              (StorageProps.run_ops_well_formed ops) Hurl) as [H1 [H2 [H3 H4]]].
  fold st1 in H1, H2, H4. fold st2 in H1, H4.
  split; [exact H1|]. split; [exact H2|]. split; [exact H4|]. split.
  - rewrite H3. unfold Storage.rows_for. fold (Storage.unique_id r1). split.
    + intros E. apply negb_true_iff in E.
      now apply StorageProps.no_row_for, StorageProps.exists_false_not_in.
    + intros E. apply negb_true_iff.
      destruct (Storage.exists_ st r1) eqn:Ex; [|reflexivity].
      apply StorageProps.exists_in_iff in Ex.
      pose proof (StorageProps.one_row_for (Storage.rows st) _
                    (Storage.wf_unique st (StorageProps.run_ops_well_formed ops)) Ex) as Hl.
      rewrite E in Hl. discriminate.
  - intros ->. reflexivity.
Qed.

Lemma save_same_url_twice_witness :
  let st := Storage.run_ops [] in
  let st1 := snd (Storage.save st 10 Samples.tender_a false) in
  let st2 := snd (Storage.save st1 20 Samples.tender_a' false) in
  List.length (Storage.rows_for st2 (Storage.url Samples.tender_a)) = 1
  /\ fst (Storage.save st1 20 Samples.tender_a' false) = false
  /\ st2 = st1
  /\ (fst (Storage.save st 10 Samples.tender_a false) = true
      <-> Storage.rows_for st (Storage.url Samples.tender_a) = [])
  /\ (@nil Storage.op = [] -> fst (Storage.save st 10 Samples.tender_a false) = true).
Proof.
  apply (save_same_url_twice [] 10 20 Samples.tender_a Samples.tender_a').
  reflexivity.
Defined.

(** C1, as stated, fails on a store that already holds the url: the first
    of the two calls returns [False]. *)
Lemma first_save_of_a_stored_url :
  Storage.url Samples.tender_a' = Storage.url Samples.tender_a
  /\ fst (Storage.save Samples.store_a 20 Samples.tender_a' false) = false
  /\ fst (Storage.save Samples.store_a 20 Samples.tender_a' false) <> true.
Proof. vm_compute. repeat split. discriminate. Qed.

(** What the two read paths return on every store reached from the
    empty one: [get_all] returns all rows by decreasing [created_at]
    (rows of one clock reading in insertion order), and [get_unnotified],
    whose SELECT has no ORDER BY, returns the rows with [notified = 0] in
    insertion order, oldest first. *)
Theorem read_paths_order (ops : list Storage.op) :
  let st := Storage.run_ops ops in
  (exists l,
      Storage.get_all st = map Storage.bid_of_row l
      /\ Permutation (Storage.rows st) l
      /\ StronglySorted Storage.newer_first l)
  /\ (exists l,
         Storage.get_unnotified st = map Storage.bid_of_row l
         /\ (forall r, In r l <-> In r (Storage.rows st) /\ Storage.r_notified r = 0%Z)
         /\ StronglySorted Storage.older_rowid_first l).
Proof.
  intros st. pose proof (StorageProps.run_ops_well_formed ops) as Hwf. fold st in Hwf.
  split.
  - exists (Storage.order_by_created_at_desc (Storage.rows st)).
    split; [reflexivity|]. split.
    + apply StorageProps.order_by_perm.
    + apply StorageProps.order_by_sorted, (Storage.wf_rowid st Hwf).
  - exists (filter Storage.unnotified (Storage.rows st)).
    split; [reflexivity|]. split.
    + intros r. rewrite filter_In. unfold Storage.unnotified.
      now rewrite Z.eqb_eq.
    + apply StorageProps.filter_sorted_by_rowid, (Storage.wf_rowid st Hwf).
Qed.

(** C9.  [get_unnotified] does not order by insertion recency: of two
    unnotified records saved ten seconds apart, [tender_a] first, it
    returns the older one in front, while its sibling [get_all], which
    orders by [created_at DESC], returns the newer one in front. *)
Lemma unnotified_is_oldest_first :
  Storage.get_unnotified Samples.store_ab = [Samples.tender_a; Samples.tender_b]
  /\ Storage.get_all Samples.store_ab = [Samples.tender_b; Samples.tender_a]
  /\ map Storage.r_url (Storage.rows Samples.store_ab)
     = [Storage.url Samples.tender_a; Storage.url Samples.tender_b].
Proof. vm_compute. repeat split. Qed.

(** C10.  On every store, [mark_notified] called with [[r.url]], with
    [[r]] or with [r] gives the same table.  In it the rows whose
    [unique_id] is the MD5 of [r.url] have [notified = 1] and every other
    column as before (id, unique_id, title, url, publish_date, source,
    content, purchaser, created_at); all other rows are unchanged, no row
    is added or removed, and the row counter is as before.  On a store
    reached from the empty one there is exactly one such row when [r.url]
    was saved, and none otherwise. *)
Theorem mark_notified_shapes_agree (r : Storage.BidInfo) :
  (forall st,
      Storage.mark_notified st (Storage.UrlList [Storage.url r])
      = Storage.mark_notified st (Storage.BidList [r])
      /\ Storage.mark_notified st (Storage.BidList [r])
         = Storage.mark_notified st (Storage.OneBid r)
      /\ Storage.last_rowid (Storage.mark_notified st (Storage.OneBid r))
         = Storage.last_rowid st
      /\ Forall2
           (fun old new =>
              if String.eqb (Storage.r_unique_id old)
                            (Hashlib.md5_hexdigest (Storage.url r))
              then Storage.r_notified new = 1%Z
                   /\ Storage.r_id new = Storage.r_id old
                   /\ Storage.r_unique_id new = Storage.r_unique_id old
                   /\ Storage.r_title new = Storage.r_title old
                   /\ Storage.r_url new = Storage.r_url old
                   /\ Storage.r_publish_date new = Storage.r_publish_date old
                   /\ Storage.r_source new = Storage.r_source old
                   /\ Storage.r_content new = Storage.r_content old
                   /\ Storage.r_purchaser new = Storage.r_purchaser old
                   /\ Storage.r_created_at new = Storage.r_created_at old
              else new = old)
           (Storage.rows st)
           (Storage.rows (Storage.mark_notified st (Storage.OneBid r)))
      /\ Storage.get_unnotified (Storage.mark_notified st (Storage.UrlList [Storage.url r]))
         = map Storage.bid_of_row
               (filter (fun old =>
                          Storage.unnotified old
                          && negb (String.eqb (Storage.r_unique_id old)
                                              (Hashlib.md5_hexdigest (Storage.url r))))
                       (Storage.rows st)))
  /\ (forall ops,
         let st := Storage.run_ops ops in
         List.length (Storage.rows_for st (Storage.url r))
         = if Storage.exists_ st r then 1 else 0).
Proof.
  split.
  - intros st. split; [reflexivity|]. split; [reflexivity|]. split; [reflexivity|].
    cbn [Storage.mark_notified Storage.update_notified Storage.rows fold_left].
    fold (Storage.unique_id r). split.
    + induction (Storage.rows st) as [|x l IH]; cbn [map]; constructor; [|exact IH].
      unfold Storage.has_uid.
      destruct (String.eqb (Storage.r_unique_id x) (Storage.unique_id r));
        [|reflexivity].
      cbn [Storage.set_notified Storage.r_notified Storage.r_id Storage.r_unique_id
             Storage.r_title Storage.r_url Storage.r_publish_date Storage.r_source
             Storage.r_content Storage.r_purchaser Storage.r_created_at].
      repeat split.
    + unfold Storage.get_unnotified.
      cbn [Storage.mark_notified fold_left Storage.update_notified Storage.rows].
      fold (Storage.unique_id r). unfold Storage.has_uid, Storage.unnotified.
      induction (Storage.rows st) as [|x l IH]; cbn [map filter]; [reflexivity|].
      destruct (String.eqb (Storage.r_unique_id x) (Storage.unique_id r)); cbn [negb].
      * cbn [Storage.set_notified Storage.r_notified Z.eqb]. rewrite andb_false_r.
        exact IH.
      * rewrite andb_true_r. destruct (Storage.r_notified x =? 0)%Z; cbn [map];
          [now rewrite IH|exact IH].
  - intros ops st.
    pose proof (StorageProps.run_ops_well_formed ops) as Hwf. fold st in Hwf.
    destruct (Storage.exists_ st r) eqn:E.
    + apply StorageProps.one_row_for; [apply (Storage.wf_unique st Hwf)|].
      now apply (StorageProps.exists_in_iff st r).
    + unfold Storage.rows_for. fold (Storage.unique_id r).
      now rewrite (StorageProps.no_row_for _ _ (StorageProps.exists_false_not_in _ _ E)).
Qed.

(* ===================================================================== *)
(** ** Matcher                                                           *)
(* ===================================================================== *)

Module MatcherProps.

Import PyStr Matcher.

Lemma prefix_spec kw text :
  String.prefix kw text = true <-> exists post, text = (kw ++ post)%string.
Proof.
  revert text. induction kw as [|c kw IH]; intros text.
  - split; [intros _; now exists text|]. intros _. now destruct text.
  - destruct text as [|d text]; simpl.
    + split; [discriminate|intros [post H]; discriminate].
    + destruct (ascii_dec c d) as [->|Hne].
      * rewrite IH. split; intros [post H]; exists post.
        -- now rewrite H.
        -- now inversion H.
      * split; [discriminate|]. intros [post H]. congruence.
Qed.

(** [contains] is the substring relation. *)
Lemma contains_spec kw text :
  contains kw text = true
  <-> exists pre post, text = (pre ++ kw ++ post)%string.
Proof.
  induction text as [|d text IH].
  - cbn [contains]. destruct (String.prefix kw "") eqn:E.
    + split; [intros _|reflexivity].
      apply prefix_spec in E. destruct E as [post E]. now exists "", post.
    + split; [discriminate|]. intros [pre [post H]].
      destruct pre; [|discriminate]. simpl in H.
      assert (String.prefix kw "" = true) by (apply prefix_spec; now exists post).
      congruence.
  - cbn [contains]. destruct (String.prefix kw (String d text)) eqn:E.
    + split; [intros _|reflexivity].
      apply prefix_spec in E. destruct E as [post E]. now exists "", post.
    + rewrite IH. split.
      * intros [pre [post H]]. exists (String d pre), post. simpl. now rewrite H.
      * intros [pre [post H]]. destruct pre as [|c pre].
        -- simpl in H.
           assert (String.prefix kw (String d text) = true)
             by (apply prefix_spec; now exists post).
           congruence.
        -- inversion H. now exists pre, post.
Qed.

Lemma mem_spec x l : mem x l = true <-> In x l.
Proof.
  unfold mem. rewrite existsb_exists. split.
  - intros [y [Hin E]]. apply String.eqb_eq in E. now subst.
  - intros H. exists x. split; [exact H|apply String.eqb_refl].
Qed.

Lemma add_must_hits_spec text must acc x :
  In x (add_must_hits text must acc)
  <-> In x acc \/ (In x must /\ contains x text = true).
Proof.
  unfold add_must_hits. revert acc.
  induction must as [|kw must IH]; intros acc; simpl.
  - tauto.
  - rewrite IH. destruct (contains kw text) eqn:E; simpl.
    + destruct (mem kw acc) eqn:M; simpl.
      * apply mem_spec in M. split; [tauto|].
        intros [H|[[->|H] Hc]]; [tauto|tauto|tauto].
      * rewrite in_app_iff. simpl. split.
        -- intros [[H|[<-|[]]]|H]; tauto.
        -- intros [H|[[->|H] Hc]]; tauto.
    + split; [tauto|]. intros [H|[[->|H] Hc]]; [tauto|congruence|tauto].
Qed.

Lemma add_must_hits_incl text must acc :
  incl acc (add_must_hits text must acc).
Proof. intros x H. apply add_must_hits_spec. now left. Qed.

Section WithLower.

Variable lower : string -> string.

(** The result of [match] once the guards are passed. *)
Lemma match_unfold m text :
  falsy text = false ->
  find (fun kw => contains kw (lower text)) (exclude_keywords m) = None ->
  (must_contain_keywords m = []
   \/ existsb (fun kw => contains kw (lower text)) (must_contain_keywords m) = true) ->
  match_ lower m text =
  let kws := add_must_hits (lower text) (must_contain_keywords m)
               (filter (fun kw => contains kw (lower text)) (include_keywords m)) in
  {| matched := Nat.ltb 0 (List.length kws);
     matched_keywords := kws; excluded_by := None |}.
Proof.
  intros Ht Hex Hmust. unfold match_. rewrite Ht, Hex.
  destruct Hmust as [-> | ->]; [reflexivity|].
  now rewrite andb_false_r.
Qed.

(** What the code reports as matched keywords is the union of the
    include hits and the must-contain hits. *)
Lemma matched_keywords_union m text kw :
  falsy text = false ->
  find (fun kw => contains kw (lower text)) (exclude_keywords m) = None ->
  (must_contain_keywords m = []
   \/ existsb (fun kw => contains kw (lower text)) (must_contain_keywords m) = true) ->
  In kw (matched_keywords (match_ lower m text))
  <-> (In kw (include_keywords m) \/ In kw (must_contain_keywords m))
      /\ contains kw (lower text) = true.
Proof.
  intros Ht Hex Hmust. rewrite (match_unfold m text Ht Hex Hmust). simpl.
  rewrite add_must_hits_spec, filter_In. tauto.
Qed.

(** What the code computes as [matched]: a hit in either list. *)
Lemma matched_iff_any_hit m text :
  falsy text = false ->
  find (fun kw => contains kw (lower text)) (exclude_keywords m) = None ->
  (must_contain_keywords m = []
   \/ existsb (fun kw => contains kw (lower text)) (must_contain_keywords m) = true) ->
  matched (match_ lower m text) = true
  <-> exists kw, (In kw (include_keywords m) \/ In kw (must_contain_keywords m))
                 /\ contains kw (lower text) = true.
Proof.
  intros Ht Hex Hmust.
  pose proof (fun kw => matched_keywords_union m text kw Ht Hex Hmust) as U.
  rewrite (match_unfold m text Ht Hex Hmust) in *. cbn [matched matched_keywords] in *.
  set (kws := add_must_hits _ _ _) in *. split.
  - intros H. destruct kws as [|kw kws]; [discriminate|].
    exists kw. apply U. now left.
  - intros [kw H]. apply U in H. destruct kws; [contradiction|reflexivity].
Qed.

Lemma find_first {A} (f : A -> bool) l x :
  In x l -> f x = true -> exists y, find f l = Some y /\ In y l /\ f y = true.
Proof.
  induction l as [|a l IH]; simpl; intros Hin Hf; [contradiction|].
  destruct (f a) eqn:E.
  - exists a. auto.
  - destruct Hin as [->|Hin]; [congruence|].
    destruct (IH Hin Hf) as [y [H1 [H2 H3]]]. exists y. auto.
Qed.

End WithLower.

End MatcherProps.

(** C2, as amended.  For every non-empty text [t] in which some exclude
    keyword occurs, ignoring case, [match] returns [matched = False], no
    matched keywords, and [excluded_by] set to the first exclude keyword,
    lower-cased, that occurs in [t], whatever the include and must-contain
    lists hold. *)
Theorem excluded_text_is_never_matched
        (lower : string -> string)
        (include_kw exclude_kw : list string) (must_contain_kw : option (list string))
        (t kw : string) :
  t <> EmptyString ->
  In kw exclude_kw ->
  PyStr.contains (lower kw) (lower t) = true ->
  let r := Matcher.match_ lower
             (Matcher.init lower include_kw (Some exclude_kw) must_contain_kw) t in
  Matcher.matched r = false
  /\ Matcher.matched_keywords r = []
  /\ exists kw1,
      Matcher.excluded_by r = Some (lower kw1)
      /\ In kw1 exclude_kw
      /\ PyStr.contains (lower kw1) (lower t) = true
      /\ find (fun k => PyStr.contains k (lower t)) (map lower exclude_kw)
         = Some (lower kw1).
Proof.
  intros Ht Hin Hc r. subst r. unfold Matcher.match_.
  destruct t as [|c t]; [contradiction|]. cbn [PyStr.falsy].
  cbn [Matcher.init Matcher.exclude_keywords].
  destruct (MatcherProps.find_first
              (fun k => PyStr.contains k (lower (String c t)))
              (map lower exclude_kw) (lower kw))
    as [y [Hf [Hy Hcy]]]; [now apply in_map|exact Hc|].
  rewrite Hf. cbn [Matcher.matched Matcher.matched_keywords Matcher.excluded_by].
  split; [reflexivity|]. split; [reflexivity|].
  apply in_map_iff in Hy. destruct Hy as [kw1 [<- Hin1]].
  exists kw1. auto.
Qed.

Lemma excluded_text_is_never_matched_witness :
  let r := Matcher.match_ PyStr.lower_ascii
             (Matcher.init PyStr.lower_ascii ["solar"; "drone"] (Some ["Survey"])
                           (Some ["drone"]))
             "Solar survey drone project" in
  Matcher.matched r = false
  /\ Matcher.matched_keywords r = []
  /\ exists kw1,
      Matcher.excluded_by r = Some (PyStr.lower_ascii kw1)
      /\ In kw1 ["Survey"]
      /\ PyStr.contains (PyStr.lower_ascii kw1)
                        (PyStr.lower_ascii "Solar survey drone project") = true
      /\ find (fun k => PyStr.contains k (PyStr.lower_ascii "Solar survey drone project"))
              (map PyStr.lower_ascii ["Survey"])
         = Some (PyStr.lower_ascii kw1).
Proof.
  apply (excluded_text_is_never_matched PyStr.lower_ascii ["solar"; "drone"] ["Survey"]
           (Some ["drone"]) "Solar survey drone project" "Survey").
  - discriminate.
  - left; reflexivity.
  - reflexivity.
Defined.

(** C2, as stated, fails on the empty text: the empty exclude keyword is
    a substring of it, yet [excluded_by] stays unset. *)
Lemma empty_text_is_not_excluded :
  In EmptyString [EmptyString]
  /\ PyStr.contains (PyStr.lower_ascii "") (PyStr.lower_ascii "") = true
  /\ Matcher.excluded_by
       (Matcher.match_ PyStr.lower_ascii
          (Matcher.init PyStr.lower_ascii ["solar"] (Some [EmptyString]) None) "")
     = None.
Proof. vm_compute. repeat split. now left. Qed.

(** C3: the code at the failing input.  With include keyword "solar" and
    must-contain keyword "drone", a text that passes the must-contain gate
    and holds no include keyword is reported as matched. *)
Theorem must_hit_alone_is_matched :
  let m := Matcher.init PyStr.lower_ascii ["solar"] None (Some ["drone"]) in
  let t := "Drone procurement" in
  let r := Matcher.match_ PyStr.lower_ascii m t in
  existsb (fun kw => PyStr.contains kw (PyStr.lower_ascii t))
          (Matcher.include_keywords m) = false
  /\ Matcher.matched r = true
  /\ Matcher.matched_keywords r = ["drone"]
  /\ Matcher.excluded_by r = None.
Proof. vm_compute. repeat split. Qed.

(* ===================================================================== *)
(** ** Guard                                                             *)
(* ===================================================================== *)

Module GuardProps.

Import PyStr Guard.

Section Environment.

Variable post : nat -> post_result.
Variable interpret : string -> interpretation.
Variable requests_installed : bool.

Lemma on_exception_returns msg : returns (on_exception false msg).
Proof. unfold on_exception. now eexists _, _. Qed.

(** One response, or one exception that is not retried, ends the call
    with a verdict. *)
Lemma final_step_returns attempt rest :
  transient (post attempt) = false ->
  returns (retry_loop post interpret false (attempt :: rest)).
Proof.
  intros H. cbn [retry_loop]. destruct (post attempt) as [m|m|m|code text];
    try discriminate.
  - apply on_exception_returns.
  - destruct (negb (Nat.eqb code 200)); [apply on_exception_returns|].
    destruct (interpret text); [now eexists _, _|apply on_exception_returns].
Qed.

(** A transient failure before the last attempt moves to the next one. *)
Lemma transient_step attempt rest :
  transient (post attempt) = true -> attempt < max_retries - 1 ->
  retry_loop post interpret false (attempt :: rest)
  = retry_loop post interpret false rest.
Proof.
  intros H Hlt. cbn [retry_loop]. apply Nat.ltb_lt in Hlt.
  destruct (post attempt); try discriminate;
    unfold on_transient; now rewrite Hlt.
Qed.

(** A transient failure at the last attempt fails open. *)
Lemma transient_last attempt rest :
  transient (post attempt) = true -> max_retries - 1 <= attempt ->
  retry_loop post interpret false (attempt :: rest)
  = Return true "AI网络异常（已重试3次）".
Proof.
  intros H Hge. cbn [retry_loop]. apply Nat.ltb_ge in Hge.
  destruct (post attempt); try discriminate;
    unfold on_transient; now rewrite Hge.
Qed.

Lemma retry_loop_returns :
  returns (retry_loop post interpret false (seq 0 max_retries)).
Proof.
  change (seq 0 max_retries) with [0; 1; 2].
  destruct (transient (post 0)) eqn:E0; [|now apply final_step_returns].
  rewrite transient_step; [|exact E0|unfold max_retries; lia].
  destruct (transient (post 1)) eqn:E1; [|now apply final_step_returns].
  rewrite transient_step; [|exact E1|unfold max_retries; lia].
  destruct (transient (post 2)) eqn:E2; [|now apply final_step_returns].
  rewrite (transient_last 2 [] E2); [|unfold max_retries; lia]. now eexists _, _.
Qed.

Lemma all_transient_fails_open :
  (forall attempt, attempt < max_retries -> transient (post attempt) = true) ->
  retry_loop post interpret false (seq 0 max_retries)
  = Return true "AI网络异常（已重试3次）"
  /\ posts_made post (seq 0 max_retries) = max_retries.
Proof.
  intros H. change (seq 0 max_retries) with [0; 1; 2].
  assert (transient (post 0) = true) as E0 by (apply H; unfold max_retries; lia).
  assert (transient (post 1) = true) as E1 by (apply H; unfold max_retries; lia).
  assert (transient (post 2) = true) as E2 by (apply H; unfold max_retries; lia).
  split.
  - rewrite transient_step; [|exact E0|unfold max_retries; lia].
    rewrite transient_step; [|exact E1|unfold max_retries; lia].
    apply (transient_last 2 [] E2). unfold max_retries; lia.
  - cbn [posts_made].
    destruct (post 0); try discriminate; destruct (post 1); try discriminate;
      destruct (post 2); try discriminate; reflexivity.
Qed.

End Environment.

End GuardProps.

(** C5.  With [raise_on_error = False], [check_relevance] always returns
    a pair and never raises; a disabled guard and a guard without key
    return [(True, reason)]; and when all three attempts end in a
    connection error or a timeout it returns [(True, reason)] after three
    posts, with the retry count in the reason. *)
Theorem check_relevance_fails_open
        (post : nat -> Guard.post_result)
        (interpret : string -> Guard.interpretation)
        (requests_installed : bool)
        (g : Guard.AIGuard) (title content : string) :
  let result := Guard.check_relevance post interpret requests_installed g title content false in
  (exists is_relevant reason, result = Guard.Return is_relevant reason)
  /\ (Guard.enabled g = false -> result = Guard.Return true "AI未启用")
  /\ (Guard.enabled g = true -> Guard.api_key g = EmptyString ->
      result = Guard.Return true "AI未配置Key")
  /\ (Guard.enabled g = true -> Guard.api_key g <> EmptyString ->
      requests_installed = true ->
      (forall attempt, attempt < Guard.max_retries ->
                       Guard.transient (post attempt) = true) ->
      exists reason,
        result = Guard.Return true reason
        /\ PyStr.contains (PyStr.str_of_nat Guard.max_retries) reason = true
        /\ Guard.posts_made post (seq 0 Guard.max_retries) = Guard.max_retries).
Proof.
  intros result. subst result. unfold Guard.check_relevance.
  split; [|split; [|split]].
  - destruct (Guard.enabled g); cbn [negb]; [|now eexists _, _].
    destruct (PyStr.falsy (Guard.api_key g)); [now eexists _, _|].
    destruct requests_installed; cbn [negb]; [|now eexists _, _].
    apply GuardProps.retry_loop_returns.
  - now intros ->.
  - now intros -> ->.
  - intros -> Hkey -> Hall. cbn [negb].
    destruct (Guard.api_key g) as [|c k]; [contradiction|]. cbn [PyStr.falsy].
    destruct (GuardProps.all_transient_fails_open post interpret Hall) as [H1 H2].
    exists "AI网络异常（已重试3次）". split; [exact H1|]. split; [|exact H2].
    vm_compute. reflexivity.
Qed.

Lemma check_relevance_fails_open_witness :
  let post := fun attempt : nat =>
                match attempt with
                | 1 => Guard.ConnectionError "connection reset"
                | _ => Guard.Timeout "read timed out"
                end in
  let g := {| Guard.enabled := true; Guard.api_key := "sk-test";
              Guard.base_url := "https://api.deepseek.com/chat/completions";
              Guard.model := "deepseek-chat"; Guard.custom_prompt := "" |} in
  exists reason,
    Guard.check_relevance post (fun _ => Guard.Fails "unused") true g "title" "content" false
    = Guard.Return true reason
    /\ PyStr.contains (PyStr.str_of_nat Guard.max_retries) reason = true
    /\ Guard.posts_made post (seq 0 Guard.max_retries) = Guard.max_retries.
Proof.
  intros post g.
  apply (check_relevance_fails_open post (fun _ => Guard.Fails "unused") true g
           "title" "content").
  - reflexivity.
  - discriminate.
  - reflexivity.
  - intros [|[|[|n]]] H; reflexivity.
Defined.

(* ===================================================================== *)
(** ** Crawler                                                           *)
(* ===================================================================== *)

Module CrawlerProps.

Import PyStr Crawler.

(** The exception [raise_for_status] raises carries a falsy response, so
    the handler reads its status as ['N/A'] and never gives up. *)
Lemma status_error_is_retried r e :
  raise_for_status r = Some e -> gives_up e = false.
Proof.
  unfold raise_for_status. destruct (ok r) eqn:E; [discriminate|].
  intros H. injection H as <-. cbn [gives_up error_status]. now rewrite E.
Qed.

Lemma count_filter_le {A} (f : A -> bool) l :
  List.length (filter f l) <= List.length l.
Proof.
  induction l as [|x l IH]; simpl; [lia|]. destruct (f x); simpl; lia.
Qed.

Lemma count_filter_all {A} (f : A -> bool) l :
  Nat.eqb (List.length (filter f l)) (List.length l) = forallb f l.
Proof.
  induction l as [|x l IH]; simpl; [reflexivity|].
  destruct (f x); simpl; [exact IH|].
  apply Nat.eqb_neq. pose proof (count_filter_le f l). lia.
Qed.

Section Environment.

Variable lower : string -> string.
Variable http_get : nat -> string -> get_result.

(** Only a response with a status below 400 yields a page. *)
Lemma attempt_get_page url w html w' :
  attempt_get http_get url w = (inl html, w') ->
  exists r, http_get (requests w) url = Got r /\ ok r = true /\ text r = html.
Proof.
  unfold attempt_get, raise_for_status.
  destruct (http_get (requests w) url) as [r|e]; [|discriminate].
  destruct (ok r) eqn:E; [|discriminate].
  intros H. injection H as <- _. now exists r.
Qed.

(** Every outcome of [fetch] other than a served page is [None]. *)
Lemma fetch_loop_page c url todo w html w' :
  fetch_loop http_get c url todo w = (Some html, w') ->
  exists n r, http_get n url = Got r /\ ok r = true /\ text r = html.
Proof.
  revert w. induction todo as [|attempt rest IH]; intros w; cbn [fetch_loop].
  - discriminate.
  - destruct (attempt_get http_get url w) as [[page|e] w1] eqn:E.
    + intros H. injection H as <- _.
      destruct (attempt_get_page _ _ _ _ E) as [r Hr]. now exists (requests w), r.
    + destruct (gives_up e); [discriminate|]. apply IH.
Qed.

(** [fetch] never polls the stop event. *)
Lemma fetch_loop_polls c url todo w :
  polls (snd (fetch_loop http_get c url todo w)) = polls w.
Proof.
  revert w. induction todo as [|attempt rest IH]; intros w; cbn [fetch_loop].
  - reflexivity.
  - unfold attempt_get.
    destruct (http_get (requests w) url) as [r|e].
    + destruct (raise_for_status r) as [e|]; [|reflexivity].
      destruct (gives_up e); [reflexivity|]. rewrite IH.
      now destruct (Nat.ltb attempt (max_retries c - 1)).
    + destruct (gives_up e); [reflexivity|]. rewrite IH.
      now destruct (Nat.ltb attempt (max_retries c - 1)).
Qed.

(** The loop of [crawl], in terms of the outcome of each url. *)
Lemma crawl_loop_outcomes c stop_event urls all_bids failed_count w :
  let os := outcomes lower http_get c stop_event urls w in
  List.length os = List.length urls
  /\ fst (fst (crawl_loop lower http_get c stop_event urls all_bids failed_count w))
     = all_bids ++ flat_map bids_of os
  /\ snd (fst (crawl_loop lower http_get c stop_event urls all_bids failed_count w))
     = failed_count + List.length (filter url_failed os).
Proof.
  revert all_bids failed_count w.
  induction urls as [|url rest IH]; intros all_bids failed_count w.
  - cbn. rewrite app_nil_r. repeat split. lia.
  - cbn [outcomes crawl_loop].
    destruct (check_stop stop_event w) as [stopped w0].
    destruct stopped.
    + cbn [fst snd]. rewrite length_map. split; [reflexivity|].
      assert (forall l : list string,
                 flat_map bids_of (map (fun _ => NotAttempted) l) = []
                 /\ filter url_failed (map (fun _ => NotAttempted) l) = []) as Hn.
      { induction l; simpl; [now split|]. destruct IHl. now split. }
      destruct (Hn (url :: rest)) as [-> ->]. rewrite app_nil_r. simpl. split; [reflexivity|lia].
    + destruct (fetch http_get c url w0) as [html w1].
      destruct html as [page|]; cbn [html_truthy].
      * destruct (truthy page).
        -- destruct (_is_blocked lower page).
           ++ destruct (IH all_bids (S failed_count) w1) as [H1 [H2 H3]].
              cbn [List.length flat_map bids_of filter url_failed app].
              rewrite H1, H2, H3. repeat split. simpl. lia.
           ++ destruct (parse c page) as [bids|].
              ** destruct (IH (all_bids ++ bids) failed_count (emit (EvParse page) w1))
                   as [H1 [H2 H3]].
                 cbn [List.length flat_map bids_of filter url_failed].
                 rewrite H1, H2, H3. rewrite <- app_assoc. repeat split.
              ** destruct (IH all_bids (S failed_count) (emit (EvParse page) w1))
                   as [H1 [H2 H3]].
                 cbn [List.length flat_map bids_of filter url_failed app].
                 rewrite H1, H2, H3. repeat split. simpl. lia.
        -- destruct (IH all_bids (S failed_count) w1) as [H1 [H2 H3]].
           cbn [List.length flat_map bids_of filter url_failed app].
           rewrite H1, H2, H3. repeat split. simpl. lia.
      * destruct (IH all_bids (S failed_count) w1) as [H1 [H2 H3]].
        cbn [List.length flat_map bids_of filter url_failed app].
        rewrite H1, H2, H3. repeat split. simpl. lia.
Qed.

End Environment.

End CrawlerProps.

(** C8.  [crawl] returns [None] exactly when the url list is not empty
    and every url failed (no page, a blocked page, or a parse error);
    otherwise it returns the records of the pages that parsed, in order. *)
Theorem crawl_none_iff_all_failed
        (lower : string -> string) (http_get : nat -> string -> Crawler.get_result)
        (c : Crawler.BaseCrawler) (stop_event : option (nat -> bool))
        (w : Crawler.world) :
  let urls := Crawler.get_list_urls c in
  let os := Crawler.outcomes lower http_get c stop_event urls w in
  let result := fst (Crawler.crawl lower http_get c stop_event w) in
  List.length os = List.length urls
  /\ result = (if forallb Crawler.url_failed os && negb (Nat.eqb (List.length urls) 0)
               then None
               else Some (flat_map Crawler.bids_of os))
  /\ (urls <> [] -> (result = None <-> forallb Crawler.url_failed os = true)).
Proof.
  intros urls os result.
  destruct (CrawlerProps.crawl_loop_outcomes lower http_get c stop_event urls [] 0 w)
    as [H1 [H2 H3]]. fold os in H1, H2, H3.
  assert (result = (if forallb Crawler.url_failed os && negb (Nat.eqb (List.length urls) 0)
                    then None else Some (flat_map Crawler.bids_of os))) as Hres.
  { subst result. unfold Crawler.crawl. fold urls.
    destruct (Crawler.crawl_loop lower http_get c stop_event urls [] 0 w)
      as [[all_bids failed_count] w'].
    cbn [fst snd] in H2, H3. subst all_bids failed_count. cbn [app Nat.add].
    rewrite <- H1, CrawlerProps.count_filter_all.
    replace (Nat.ltb 0 (List.length os)) with (negb (Nat.eqb (List.length os) 0))
      by (destruct os; reflexivity).
    now destruct (forallb Crawler.url_failed os && negb (Nat.eqb (List.length os) 0)). }
  split; [exact H1|]. split; [exact Hres|].
  intros Hne. rewrite Hres.
  destruct urls as [|u us]; [contradiction|]. cbn [List.length Nat.eqb negb].
  rewrite andb_true_r. destruct (forallb Crawler.url_failed os).
  - tauto.
  - split; discriminate.
Qed.

Lemma crawl_none_iff_all_failed_witness :
  let c := {| Crawler.name := "demo"; Crawler.max_retries := 3;
              Crawler.get_list_urls := ["https://example.com/1"; "https://example.com/2"];
              Crawler.parse := fun _ => Some [Samples.tender_a] |} in
  let http_get := fun (n : nat) (url : string) =>
                    if String.eqb url "https://example.com/1"
                    then Crawler.Raised Crawler.Timeout
                    else Crawler.Got {| Crawler.status_code := 200;
                                        Crawler.text := "<html>list</html>" |} in
  let os := Crawler.outcomes PyStr.lower_ascii http_get c None
                             (Crawler.get_list_urls c) Crawler.start in
  fst (Crawler.crawl PyStr.lower_ascii http_get c None Crawler.start) = None
  <-> forallb Crawler.url_failed os = true.
Proof.
  intros c http_get.
  apply (crawl_none_iff_all_failed PyStr.lower_ascii http_get c None Crawler.start).
  discriminate.
Defined.

(** C7: the code at the failing input.  With [max_retries = 3], a 401
    answer to the first request is followed by a backoff and a second
    request, whose page is returned; a server that answers 403 every time
    is asked three times. *)
Theorem denied_response_is_retried :
  let c := {| Crawler.name := "demo"; Crawler.max_retries := 3;
              Crawler.get_list_urls := ["https://example.com/list"];
              Crawler.parse := fun _ => Some [] |} in
  let once_401 := fun (n : nat) (_ : string) =>
                    match n with
                    | 0 => Crawler.Got {| Crawler.status_code := 401;
                                          Crawler.text := "Unauthorized" |}
                    | _ => Crawler.Got {| Crawler.status_code := 200;
                                          Crawler.text := "<html>list</html>" |}
                    end in
  let always_403 := fun (_ : nat) (_ : string) =>
                      Crawler.Got {| Crawler.status_code := 403;
                                     Crawler.text := "Forbidden" |} in
  Crawler.fetch once_401 c "https://example.com/list" Crawler.start
  = (Some "<html>list</html>",
     {| Crawler.requests := 2; Crawler.polls := 0;
        Crawler.trace := [Crawler.EvGet "https://example.com/list";
                          Crawler.EvBackoff 2;
                          Crawler.EvGet "https://example.com/list";
                          Crawler.EvDelay] |})
  /\ Crawler.fetch always_403 c "https://example.com/list" Crawler.start
     = (None,
        {| Crawler.requests := 3; Crawler.polls := 0;
           Crawler.trace := [Crawler.EvGet "https://example.com/list";
                             Crawler.EvBackoff 2;
                             Crawler.EvGet "https://example.com/list";
                             Crawler.EvBackoff 4;
                             Crawler.EvGet "https://example.com/list"] |}).
Proof. vm_compute. split; reflexivity. Qed.

(* ===================================================================== *)
(** ** Notify                                                            *)
(* ===================================================================== *)

Module NotifyProps.

Import PyStr Storage Notify.

Lemma attempted_app l1 l2 : attempted (l1 ++ l2) = attempted l1 ++ attempted l2.
Proof. apply flat_map_app. Qed.

Lemma marks_app l1 l2 : marks (l1 ++ l2) = marks l1 ++ marks l2.
Proof. apply flat_map_app. Qed.

Section Environment.

Variable transport : nat -> Contact -> channel -> list BidInfo -> send_result.
Variable settings : Settings.

(** One contact: the attempts made are the eligible channels, whatever
    the notifiers did. *)
Lemma notify_contact_attempts bids log c :
  bids <> [] ->
  attempted (notify_contact transport settings bids log c)
  = attempted log ++ map (fun ch => (name c, ch)) (channels_of settings c)
  /\ marks (notify_contact transport settings bids log c) = marks log.
Proof.
  intros Hb. destruct bids as [|b bids]; [contradiction|].
  unfold notify_contact, channels_of,
    _send_email_to_contact, _send_sms_to_contact,
    _send_wechat_to_contact, _send_voice_to_contact, try_send, truthy.
  cbn [no_bids orb].
  destruct (enabled c); cbn [negb]; [|now rewrite app_nil_r].
  destruct (email_enabled settings), (email c) as [cfg|]; cbn [andb is_some];
    try destruct (falsy (address cfg)), (falsy (password cfg));
    destruct (sms_enabled settings), (falsy (phone c)),
             (falsy (sms_access_key_id settings)),
             (wechat_enabled settings), (falsy (wechat_token c)),
             (voice_enabled settings), (falsy (voice_tts_code settings));
    cbn [negb andb orb app map];
    repeat rewrite attempted_app; repeat rewrite marks_app;
    cbn [attempted marks flat_map app];
    repeat rewrite app_nil_r; repeat rewrite <- app_assoc;
    split; reflexivity.
Qed.

Lemma fanout_attempts bids contacts log :
  bids <> [] ->
  attempted (fold_left (notify_contact transport settings bids) contacts log)
  = attempted log ++ planned settings contacts
  /\ marks (fold_left (notify_contact transport settings bids) contacts log)
     = marks log.
Proof.
  intros Hb. revert log.
  induction contacts as [|c contacts IH]; intros log; cbn [fold_left planned flat_map].
  - now rewrite app_nil_r.
  - destruct (IH (notify_contact transport settings bids log c)) as [H1 H2].
    destruct (notify_contact_attempts bids log c Hb) as [H3 H4].
    rewrite H1, H2, H3, H4. fold (planned settings contacts).
    now rewrite app_assoc.
Qed.

(** One contact: the log grows by the line of each of its steps, a
    call being logged with the answer of its notifier. *)
Lemma lines_app bids i l1 l2 :
  Fanout.lines transport bids i (l1 ++ l2)
  = Fanout.lines transport bids i l1
    ++ Fanout.lines transport bids (i + List.length l1) l2.
Proof.
  revert i. induction l1 as [|x l1 IH]; intros i; cbn [app Fanout.lines List.length].
  - now rewrite Nat.add_0_r.
  - rewrite IH. now rewrite Nat.add_succ_r.
Qed.

Lemma lines_length bids i l :
  List.length (Fanout.lines transport bids i l) = List.length l.
Proof.
  revert i. induction l as [|x l IH]; intros i; cbn [Fanout.lines List.length];
    [reflexivity|now rewrite IH].
Qed.

Lemma notify_contact_log bids log c :
  bids <> [] ->
  notify_contact transport settings bids log c
  = log ++ Fanout.lines transport bids (List.length log)
                        (map (pair c) (Fanout.steps_of settings c)).
Proof.
  intros Hb. destruct bids as [|b bids]; [contradiction|].
  unfold notify_contact, Fanout.steps_of,
    _send_email_to_contact, _send_sms_to_contact,
    _send_wechat_to_contact, _send_voice_to_contact, try_send, truthy.
  cbn [no_bids orb].
  destruct (enabled c); cbn [negb]; [|now rewrite app_nil_r].
  destruct (email_enabled settings), (email c) as [cfg|]; cbn [andb is_some];
    try destruct (falsy (address cfg)), (falsy (password cfg));
    destruct (sms_enabled settings), (falsy (phone c)),
             (falsy (sms_access_key_id settings)),
             (wechat_enabled settings), (falsy (wechat_token c)),
             (voice_enabled settings), (falsy (voice_tts_code settings));
    cbn [negb andb orb app map Fanout.lines Fanout.line fst snd];
    repeat rewrite length_app; cbn [List.length];
    repeat rewrite Nat.add_1_r;
    repeat rewrite app_nil_r; repeat rewrite <- app_assoc;
    reflexivity.
Qed.

Lemma fanout_log bids contacts log :
  bids <> [] ->
  fold_left (notify_contact transport settings bids) contacts log
  = log ++ Fanout.lines transport bids (List.length log)
                        (Fanout.schedule settings contacts).
Proof.
  intros Hb. revert log.
  induction contacts as [|c contacts IH]; intros log;
    cbn [fold_left Fanout.schedule flat_map Fanout.lines].
  - now rewrite app_nil_r.
  - rewrite IH, (notify_contact_log bids log c Hb).
    fold (Fanout.schedule settings contacts).
    rewrite lines_app, length_app, lines_length, !length_map, <- app_assoc.
    reflexivity.
Qed.

End Environment.

(** *** Marking a list of urls *)

Lemma set_notified_uid r : r_unique_id (set_notified r) = r_unique_id r.
Proof. reflexivity. Qed.

Lemma mark_urls_rows urls st :
  rows (mark_notified st (UrlList urls))
  = map (fun r => if marked_by urls r then set_notified r else r) (rows st)
  /\ last_rowid (mark_notified st (UrlList urls)) = last_rowid st.
Proof.
  cbn [mark_notified]. revert st.
  induction urls as [|u urls IH]; intros st; cbn [fold_left].
  - split; [|reflexivity]. rewrite <- (map_id (rows st)) at 1. now apply map_ext.
  - destruct (IH (update_notified (Hashlib.md5_hexdigest u) st)) as [H1 H2].
    rewrite H1, H2. split; [|reflexivity].
    cbn [update_notified rows]. rewrite map_map. apply map_ext. intros r.
    unfold marked_by. cbn [existsb].
    destruct (has_uid (Hashlib.md5_hexdigest u) r) eqn:E.
    + cbn [orb]. unfold has_uid in *. rewrite set_notified_uid.
      destruct (existsb _ urls); reflexivity.
    + reflexivity.
Qed.

Lemma marked_by_own_url urls r :
  r_unique_id r = Hashlib.md5_hexdigest (r_url r) -> In (r_url r) urls ->
  marked_by urls r = true.
Proof.
  intros Hu Hin. unfold marked_by. apply existsb_exists.
  exists (r_url r). split; [exact Hin|]. unfold has_uid. rewrite Hu. apply String.eqb_refl.
Qed.

Lemma unnotified_urls st :
  map url (get_unnotified st)
  = map r_url (filter (fun r => (r_notified r =? 0)%Z) (rows st)).
Proof. unfold get_unnotified. rewrite map_map. reflexivity. Qed.

(** After the marking, nothing is left to notify. *)
Lemma nothing_left st :
  well_formed st ->
  get_unnotified (mark_notified st (UrlList (map url (get_unnotified st)))) = [].
Proof.
  intros Hwf. unfold get_unnotified at 1.
  destruct (mark_urls_rows (map url (get_unnotified st)) st) as [-> _].
  rewrite unnotified_urls.
  pose proof (wf_uid st Hwf) as Hu.
  set (urls := map r_url (filter _ (rows st))).
  assert (forall r, In r (rows st) -> r_notified r = 0%Z -> In (r_url r) urls) as Hin.
  { intros r Hr Hn. apply in_map, filter_In. split; [exact Hr|]. now rewrite Hn. }
  clearbody urls. revert Hu Hin.
  induction (rows st) as [|r l IH]; intros Hu Hin; cbn [map filter]; [reflexivity|].
  inversion Hu as [|? ? Hr Hl]; subst.
  assert (map bid_of_row
            (filter (fun r0 => (r_notified r0 =? 0)%Z)
               (map (fun r0 => if marked_by urls r0 then set_notified r0 else r0) l)) = [])
    as Hrest.
  { apply IH; [exact Hl|]. intros r0 H0. apply Hin. now right. }
  destruct (Z.eq_dec (r_notified r) 0) as [Hz|Hz].
  - rewrite (marked_by_own_url urls r Hr (Hin r (or_introl eq_refl) Hz)).
    cbn [set_notified r_notified Z.eqb]. exact Hrest.
  - destruct (marked_by urls r).
    + cbn [set_notified r_notified Z.eqb]. exact Hrest.
    + apply Z.eqb_neq in Hz. rewrite Hz. exact Hrest.
Qed.

(** The marking changes no column but [notified]. *)
Lemma marking_keeps_records urls st :
  map bid_of_row (rows (mark_notified st (UrlList urls))) = map bid_of_row (rows st).
Proof.
  destruct (mark_urls_rows urls st) as [-> _]. rewrite map_map. apply map_ext.
  intros r. now destruct (marked_by urls r).
Qed.

Lemma NoDup_map_filter {A B} (f : A -> B) (p : A -> bool) l :
  NoDup (map f l) -> NoDup (map f (filter p l)).
Proof.
  induction l as [|x l IH]; cbn [map filter]; intros H; [constructor|].
  inversion H as [|? ? Hx Hl]; subst. destruct (p x); [|now apply IH].
  cbn [map]. constructor; [|now apply IH].
  intros Hin. apply Hx. apply in_map_iff in Hin. destruct Hin as [y [Hy Hin]].
  apply filter_In in Hin. rewrite <- Hy. apply in_map, Hin.
Qed.

Lemma urls_distinct st : well_formed st -> NoDup (map r_url (rows st)).
Proof.
  intros [Hnd Hu _ _]. induction (rows st) as [|r l IH]; cbn [map]; [constructor|].
  inversion Hnd as [|? ? Hx Hl]; subst. inversion Hu as [|? ? Hr Hul]; subst.
  constructor; [|now apply IH].
  intros Hin. apply Hx. apply in_map_iff in Hin. destruct Hin as [y [Hy Hin]].
  apply in_map_iff. exists y. split; [|exact Hin].
  rewrite Forall_forall in Hul. rewrite (Hul y Hin), Hr. now rewrite Hy.
Qed.

(** The fan-out on a store that satisfies the table constraints. *)
Lemma dispatch_well_formed transport settings st contacts :
  well_formed st ->
  let batch := get_unnotified st in
  let log := fst (dispatch transport settings st contacts) in
  let st' := snd (dispatch transport settings st contacts) in
  attempted log = (if no_bids batch then [] else planned settings contacts)
  /\ marks log = (if no_bids batch then [] else [map url batch])
  /\ NoDup (map url batch)
  /\ get_unnotified st' = []
  /\ map bid_of_row (rows st') = map bid_of_row (rows st)
  /\ well_formed st'.
Proof.
  intros Hwf batch log st'.
  assert (NoDup (map url batch)) as Hnd.
  { subst batch. rewrite unnotified_urls.
    apply NoDup_map_filter, urls_distinct, Hwf. }
  subst log st'. unfold dispatch. fold batch.
  assert (batch = get_unnotified st) as Eb by reflexivity.
  clearbody batch. destruct batch as [|b rest]; cbn [no_bids fst snd].
  - repeat split; try exact Hnd; try (now symmetry); apply Hwf.
  - rewrite attempted_app, marks_app.
    destruct (fanout_attempts transport settings (b :: rest) contacts [])
      as [H1 H2]; [discriminate|].
    rewrite H1, H2. cbn [attempted marks flat_map app].
    rewrite app_nil_r. split; [reflexivity|]. split; [reflexivity|].
    split; [exact Hnd|]. rewrite Eb. split; [|split].
    + now apply nothing_left.
    + apply marking_keeps_records.
    + now apply StorageProps.mark_well_formed.
Qed.

End NotifyProps.

(** C4.  On every store reached from the empty one, for every list of
    contacts and whatever each notifier does (return [True], return
    [False] or raise), the fan-out takes every step of every enabled
    contact, in order: each notifier is called with the whole batch of
    unnotified records and the log records its answer, a failure or an
    exception as well as a success, before the next step is taken.  So
    the attempted (contact, channel) pairs are exactly the eligible ones.
    The fan-out then calls [mark_notified] once, with the url of every
    dispatched record exactly once, after which no record is left
    unnotified and no other column has changed.  With nothing to notify
    it does nothing. *)
Theorem fanout_isolates_failures
        (transport : nat -> Notify.Contact -> Notify.channel ->
                     list Storage.BidInfo -> Notify.send_result)
        (settings : Notify.Settings) (ops : list Storage.op)
        (contacts : list Notify.Contact) :
  let st := Storage.run_ops ops in
  let batch := Storage.get_unnotified st in
  let log := fst (Notify.dispatch transport settings st contacts) in
  let st' := snd (Notify.dispatch transport settings st contacts) in
  log = (if Notify.no_bids batch then []
         else Fanout.lines transport batch 0 (Fanout.schedule settings contacts)
              ++ [Notify.Marked (map Storage.url batch)])
  /\ Notify.attempted log
     = (if Notify.no_bids batch then [] else Notify.planned settings contacts)
  /\ Notify.marks log
     = (if Notify.no_bids batch then [] else [map Storage.url batch])
  /\ NoDup (map Storage.url batch)
  /\ Storage.get_unnotified st' = []
  /\ map Storage.bid_of_row (Storage.rows st') = map Storage.bid_of_row (Storage.rows st).
Proof.
  intros st batch log st'.
  destruct (NotifyProps.dispatch_well_formed transport settings st contacts
              (StorageProps.run_ops_well_formed ops)) as [H1 [H2 [H3 [H4 [H5 _]]]]].
  split; [|repeat split; assumption].
  subst log. unfold Notify.dispatch. fold batch.
  destruct batch as [|b rest] eqn:Eb; [reflexivity|].
  cbn [Notify.no_bids fst].
  rewrite (NotifyProps.fanout_log transport settings (b :: rest) contacts []);
    [reflexivity|discriminate].
Qed.

(** One channel that returns [False], one that raises and one that
    succeeds: the three outcomes are all in the log, and the two records
    are marked. *)
Example fanout_reports_every_outcome :
  Notify.dispatch Samples.flaky Samples.all_channels Samples.store_ab [Samples.alice]
  = ([Notify.Attempt "alice" Notify.Email (Notify.Returned false);
      Notify.Attempt "alice" Notify.SMS (Notify.Raised "gateway timeout");
      Notify.Attempt "alice" Notify.Voice (Notify.Returned true);
      Notify.Marked ["https://example.com/a"; "https://example.com/b"]],
     Storage.mark_notified Samples.store_ab
       (Storage.UrlList ["https://example.com/a"; "https://example.com/b"]))
  /\ Storage.get_unnotified
       (snd (Notify.dispatch Samples.flaky Samples.all_channels Samples.store_ab
               [Samples.alice])) = [].
Proof. vm_compute. split; reflexivity. Qed.

(* ===================================================================== *)
(** ** Round                                                             *)
(* ===================================================================== *)

Module RoundProps.

Import PyStr Crawler Round.

Ltac solve_agree :=
  unfold agree, same_work in *;
  cbn [net store new_count stored invoked exhausted progress with_net] in *;
  intuition congruence.

Lemma work_app t1 t2 : work (t1 ++ t2) = work t1 ++ work t2.
Proof. apply filter_app. Qed.

Lemma same_work_refl w : same_work w w.
Proof. now split. Qed.

Lemma same_work_emit e w1 w2 :
  same_work w1 w2 -> same_work (emit e w1) (emit e w2).
Proof.
  intros [H1 H2]. split; cbn [emit requests trace]; [exact H1|].
  now rewrite !work_app, H2.
Qed.

Lemma same_work_request url w1 w2 :
  same_work w1 w2 -> same_work (count_request url w1) (count_request url w2).
Proof.
  intros [H1 H2]. split; cbn [count_request requests trace]; [now rewrite H1|].
  now rewrite !work_app, H2.
Qed.

Lemma same_work_poll b w1 w2 :
  same_work w1 w2 -> same_work (count_poll b w1) w2.
Proof.
  intros [H1 H2]. split; cbn [count_poll requests trace]; [exact H1|].
  rewrite work_app, H2. cbn. apply app_nil_r.
Qed.

Section Environment.

Variable lower : string -> string.
Variable http_get : nat -> string -> get_result.
Variable classify : Storage.BidInfo -> bool.
Variable db_clock : N -> N.

Lemma attempt_get_same_work url w1 w2 :
  same_work w1 w2 ->
  fst (attempt_get http_get url w1) = fst (attempt_get http_get url w2)
  /\ same_work (snd (attempt_get http_get url w1)) (snd (attempt_get http_get url w2))
  /\ polls (snd (attempt_get http_get url w1)) = polls w1.
Proof.
  intros H. unfold attempt_get. destruct H as [Hr Ht]. rewrite Hr.
  assert (same_work w1 w2) as H by now split.
  destruct (http_get (requests w2) url) as [r|e]; cbn [fst snd].
  - destruct (raise_for_status r); cbn [fst snd].
    + split; [reflexivity|]. split; [|reflexivity]. now apply same_work_request.
    + split; [reflexivity|]. split; [|reflexivity].
      now apply same_work_emit, same_work_request.
  - split; [reflexivity|]. split; [|reflexivity]. now apply same_work_request.
Qed.

Lemma fetch_loop_same_work c url todo w1 w2 :
  same_work w1 w2 ->
  fst (fetch_loop http_get c url todo w1) = fst (fetch_loop http_get c url todo w2)
  /\ same_work (snd (fetch_loop http_get c url todo w1))
               (snd (fetch_loop http_get c url todo w2)).
Proof.
  revert w1 w2. induction todo as [|attempt rest IH]; intros w1 w2 H;
    cbn [fetch_loop].
  - now split.
  - destruct (attempt_get_same_work url w1 w2 H) as [H1 [H2 _]].
    destruct (attempt_get http_get url w1) as [r1 v1].
    destruct (attempt_get http_get url w2) as [r2 v2].
    cbn [fst snd] in H1, H2. subst r2.
    destruct r1 as [html|e]; [now split|].
    destruct (gives_up e); [now split|].
    apply IH. destruct (Nat.ltb attempt (max_retries c - 1)); [|exact H2].
    now apply same_work_emit.
Qed.

Lemma crawl_loop_polls_mono c stop_event urls all_bids failed_count w :
  polls w <= polls (snd (crawl_loop lower http_get c stop_event urls
                                    all_bids failed_count w)).
Proof.
  revert all_bids failed_count w.
  induction urls as [|url rest IH]; intros all_bids failed_count w;
    cbn [crawl_loop]; [cbn; lia|].
  assert (polls w <= polls (snd (check_stop stop_event w))) as H0.
  { destruct stop_event; cbn; lia. }
  destruct (check_stop stop_event w) as [stopped w0]. cbn [snd] in H0.
  destruct stopped; [cbn; lia|].
  pose proof (CrawlerProps.fetch_loop_polls http_get c url
                (seq 0 (max_retries c)) w0) as Hf.
  unfold fetch. destruct (fetch_loop http_get c url (seq 0 (max_retries c)) w0)
    as [html w1]. cbn [snd] in Hf.
  destruct html as [page|].
  - destruct (truthy page).
    + destruct (_is_blocked lower page).
      * etransitivity; [|apply IH]. lia.
      * destruct (parse c page); (etransitivity; [|apply IH]); cbn; lia.
    + etransitivity; [|apply IH]. lia.
  - etransitivity; [|apply IH]. lia.
Qed.

(** A crawl during which the stop event stays unset is the crawl
    without a stop event. *)
Lemma crawl_loop_quiet c is_set urls all_bids failed_count w1 w2 :
  quiet is_set (polls (snd (crawl_loop lower http_get c (Some is_set) urls
                                       all_bids failed_count w1))) ->
  same_work w1 w2 ->
  fst (crawl_loop lower http_get c (Some is_set) urls all_bids failed_count w1)
  = fst (crawl_loop lower http_get c None urls all_bids failed_count w2)
  /\ same_work
       (snd (crawl_loop lower http_get c (Some is_set) urls all_bids failed_count w1))
       (snd (crawl_loop lower http_get c None urls all_bids failed_count w2)).
Proof.
  revert all_bids failed_count w1 w2.
  induction urls as [|url rest IH]; intros all_bids failed_count w1 w2 Hq Hw;
    [now split|].
  pose proof (crawl_loop_polls_mono c (Some is_set) rest) as Hmono.
  cbn [crawl_loop check_stop] in *.
  destruct (is_set (polls w1)) eqn:E.
  - exfalso. cbn in Hq. specialize (Hq (polls w1)). rewrite E in Hq.
    assert (true = false) by (apply Hq; lia). discriminate.
  - pose proof (CrawlerProps.fetch_loop_polls http_get c url
                  (seq 0 (max_retries c)) (count_poll false w1)) as Hf.
    destruct (fetch_loop_same_work c url (seq 0 (max_retries c))
                (count_poll false w1) w2 (same_work_poll false _ _ Hw))
      as [H1 H2].
    unfold fetch in *.
    destruct (fetch_loop http_get c url (seq 0 (max_retries c)) (count_poll false w1))
      as [html v1].
    destruct (fetch_loop http_get c url (seq 0 (max_retries c)) w2) as [html2 v2].
    cbn [fst snd] in H1, H2, Hf. subst html2.
    destruct html as [page|].
    + destruct (truthy page).
      * destruct (_is_blocked lower page).
        -- now apply IH.
        -- destruct (parse c page); apply IH; try exact Hq;
             now apply same_work_emit.
      * now apply IH.
    + now apply IH.
Qed.

Lemma crawl_polls_mono c stop_event w :
  polls w <= polls (snd (crawl lower http_get c stop_event w)).
Proof.
  unfold crawl.
  pose proof (crawl_loop_polls_mono c stop_event (get_list_urls c) [] 0 w) as H.
  destruct (crawl_loop lower http_get c stop_event (get_list_urls c) [] 0 w)
    as [[ab fc] w']. cbn [snd] in H.
  now destruct (Nat.eqb fc (List.length (get_list_urls c))
                && Nat.ltb 0 (List.length (get_list_urls c))).
Qed.

Lemma crawl_quiet c is_set w1 w2 :
  quiet is_set (polls (snd (crawl lower http_get c (Some is_set) w1))) ->
  same_work w1 w2 ->
  fst (crawl lower http_get c (Some is_set) w1) = fst (crawl lower http_get c None w2)
  /\ same_work (snd (crawl lower http_get c (Some is_set) w1))
               (snd (crawl lower http_get c None w2)).
Proof.
  unfold crawl. intros Hq Hw.
  pose proof (crawl_loop_quiet c is_set (get_list_urls c) [] 0 w1 w2) as H.
  destruct (crawl_loop lower http_get c (Some is_set) (get_list_urls c) [] 0 w1)
    as [[ab1 fc1] v1].
  destruct (crawl_loop lower http_get c None (get_list_urls c) [] 0 w2)
    as [[ab2 fc2] v2].
  cbn [fst snd] in H.
  assert (quiet is_set (polls v1)) as Hq1.
  { now destruct (Nat.eqb fc1 (List.length (get_list_urls c))
                  && Nat.ltb 0 (List.length (get_list_urls c))). }
  destruct (H Hq1 Hw) as [H1 H2]. injection H1 as -> ->.
  now destruct (Nat.eqb fc2 (List.length (get_list_urls c))
                && Nat.ltb 0 (List.length (get_list_urls c))).
Qed.

(** *** The adapter loop *)

Lemma persist_net s bid : net (persist classify db_clock s bid) = net s.
Proof.
  unfold persist. destruct (classify bid); [|reflexivity].
  destruct (Storage.save _ _ _ _) as [fresh st']. now destruct fresh.
Qed.

Lemma fold_persist_net bids s : net (fold_left (persist classify db_clock) bids s) = net s.
Proof.
  revert s. induction bids as [|b bids IH]; intros s; cbn [fold_left]; [reflexivity|].
  now rewrite IH, persist_net.
Qed.

Lemma persist_agree s1 s2 bid :
  agree s1 s2 -> agree (persist classify db_clock s1 bid) (persist classify db_clock s2 bid).
Proof.
  intros Ha. unfold persist.
  destruct (classify bid); [|exact Ha].
  replace (store s2) with (store s1) by solve_agree.
  destruct (Storage.save _ _ _ _) as [fresh st'].
  destruct fresh; solve_agree.
Qed.

Lemma fold_persist_agree bids s1 s2 :
  agree s1 s2 ->
  agree (fold_left (persist classify db_clock) bids s1)
        (fold_left (persist classify db_clock) bids s2).
Proof.
  revert s1 s2. induction bids as [|b bids IH]; intros s1 s2 H; cbn [fold_left];
    [exact H|]. now apply IH, persist_agree.
Qed.

Lemma run_adapter_net stop_event total current a s :
  net (run_adapter lower http_get classify db_clock stop_event total current a s)
  = snd (crawl lower http_get a stop_event (net s)).
Proof.
  unfold run_adapter. destruct (crawl lower http_get a stop_event (net s)) as [res w1].
  cbn [net snd]. destruct res; cbn [net]; [|reflexivity]. now rewrite fold_persist_net.
Qed.

Lemma run_adapter_quiet is_set total current a s1 s2 :
  quiet is_set
        (polls (net (run_adapter lower http_get classify db_clock
                                 (Some is_set) total current a s1))) ->
  agree s1 s2 ->
  agree (run_adapter lower http_get classify db_clock (Some is_set) total current a s1)
        (run_adapter lower http_get classify db_clock None total current a s2).
Proof.
  intros Hq Ha. rewrite run_adapter_net in Hq.
  assert (same_work (net s1) (net s2)) as Hn by solve_agree.
  destruct (crawl_quiet a is_set (net s1) (net s2) Hq Hn) as [H1 H2].
  unfold run_adapter.
  destruct (crawl lower http_get a (Some is_set) (net s1)) as [res1 v1].
  destruct (crawl lower http_get a None (net s2)) as [res2 v2].
  cbn [fst snd] in H1, H2. subst res2.
  destruct res1 as [bids|].
  -         assert (agree
              (fold_left (persist classify db_clock) bids
                 {| net := v1; store := store s1; new_count := new_count s1;
                    stored := stored s1; invoked := invoked s1 ++ [name a];
                    exhausted := exhausted s1; progress := progress s1 |})
              (fold_left (persist classify db_clock) bids
                 {| net := v2; store := store s2; new_count := new_count s2;
                    stored := stored s2; invoked := invoked s2 ++ [name a];
                    exhausted := exhausted s2; progress := progress s2 |})) as Hf.
    { apply fold_persist_agree. solve_agree. }
    solve_agree.
  - solve_agree.
Qed.

Lemma run_loop_polls_mono stop_event total current adapters s :
  polls (net s)
  <= polls (net (run_loop lower http_get classify db_clock stop_event
                          total current adapters s)).
Proof.
  revert current s. induction adapters as [|a rest IH]; intros current s;
    cbn [run_loop]; [lia|].
  assert (polls (net s) <= polls (snd (check_stop stop_event (net s)))) as H0.
  { destruct stop_event; cbn; lia. }
  destruct (check_stop stop_event (net s)) as [stopped w0]. cbn [snd] in H0.
  destruct stopped; [cbn; lia|].
  etransitivity; [|apply IH]. rewrite run_adapter_net. cbn [with_net net].
  etransitivity; [exact H0|apply crawl_polls_mono].
Qed.

(** A round during which the stop event stays unset is the round
    without a stop event. *)
Lemma run_loop_quiet is_set total current adapters s1 s2 :
  quiet is_set
        (polls (net (run_loop lower http_get classify db_clock (Some is_set)
                              total current adapters s1))) ->
  agree s1 s2 ->
  agree (run_loop lower http_get classify db_clock (Some is_set)
                  total current adapters s1)
        (run_loop lower http_get classify db_clock None total current adapters s2).
Proof.
  revert current s1 s2.
  induction adapters as [|a rest IH]; intros current s1 s2 Hq Ha; [exact Ha|].
  pose proof (run_loop_polls_mono (Some is_set) total (S current) rest) as Hmono.
  cbn [run_loop check_stop] in *.
  destruct (is_set (polls (net s1))) eqn:E.
  - exfalso. cbn in Hq. specialize (Hq (polls (net s1))). rewrite E in Hq.
    assert (true = false) by (apply Hq; lia). discriminate.
  - apply IH; [exact Hq|]. apply run_adapter_quiet.
    + intros i Hi. apply Hq. eapply Nat.lt_le_trans; [exact Hi|apply Hmono].
    + assert (same_work (count_poll false (net s1)) (net s2)) as Hn
        by (apply same_work_poll; solve_agree).
      clear Hq Hmono IH. solve_agree.
Qed.

(** While the stop event stays unset the loop runs through a prefix of
    the adapters and goes on with the rest. *)
Lemma run_loop_app_quiet is_set total current pre post s :
  quiet is_set
        (polls (net (run_loop lower http_get classify db_clock (Some is_set)
                              total current pre s))) ->
  run_loop lower http_get classify db_clock (Some is_set) total current (pre ++ post) s
  = run_loop lower http_get classify db_clock (Some is_set)
             total (current + List.length pre) post
             (run_loop lower http_get classify db_clock (Some is_set)
                       total current pre s).
Proof.
  revert current s. induction pre as [|a rest IH]; intros current s Hq.
  - cbn [app List.length run_loop]. now rewrite Nat.add_0_r.
  - pose proof (run_loop_polls_mono (Some is_set) total (S current) rest) as Hmono.
    cbn [app run_loop check_stop List.length] in *.
    destruct (is_set (polls (net s))) eqn:E.
    + exfalso. cbn in Hq. specialize (Hq (polls (net s))). rewrite E in Hq.
      assert (true = false) by (apply Hq; lia). discriminate.
    + rewrite IH; [|exact Hq]. now rewrite Nat.add_succ_r.
Qed.

(** Without a stop event every adapter is invoked, and polled never. *)
Lemma run_loop_free_invoked total current adapters s :
  invoked (run_loop lower http_get classify db_clock None total current adapters s)
  = invoked s ++ map name adapters.
Proof.
  revert current s. induction adapters as [|a rest IH]; intros current s;
    cbn [run_loop check_stop map].
  - now rewrite app_nil_r.
  - rewrite IH. unfold run_adapter.
    destruct (crawl lower http_get a None (net (with_net (net s) s))) as [res w1].
    cbn [invoked]. destruct res as [bids|]; cbn [invoked with_net].
    + assert (forall l x, invoked (fold_left (persist classify db_clock) l x) = invoked x)
        as Hinv.
      { induction l as [|b l IHl]; intros x; cbn [fold_left]; [reflexivity|].
        rewrite IHl. unfold persist. destruct (classify b); [|reflexivity].
        destruct (Storage.save _ _ _ _) as [fresh st']. now destruct fresh. }
      rewrite Hinv. cbn [invoked]. now rewrite <- app_assoc.
    + now rewrite <- app_assoc.
Qed.

(** *** Where the stop event is polled *)

(** While the stop event stays unset, a crawl polls it once per url. *)
Lemma crawl_loop_quiet_polls c is_set urls all_bids failed_count w :
  quiet is_set (polls (snd (crawl_loop lower http_get c (Some is_set) urls
                                       all_bids failed_count w))) ->
  polls (snd (crawl_loop lower http_get c (Some is_set) urls all_bids failed_count w))
  = polls w + List.length urls.
Proof.
  revert all_bids failed_count w.
  induction urls as [|url rest IH]; intros all_bids failed_count w Hq;
    [cbn; lia|].
  pose proof (crawl_loop_polls_mono c (Some is_set) rest) as Hmono.
  cbn [crawl_loop check_stop List.length] in *.
  destruct (is_set (polls w)) eqn:E.
  - exfalso. cbn in Hq. specialize (Hq (polls w)). rewrite E in Hq.
    assert (true = false) by (apply Hq; lia). discriminate.
  - pose proof (CrawlerProps.fetch_loop_polls http_get c url
                  (seq 0 (max_retries c)) (count_poll false w)) as Hf.
    unfold fetch in *.
    destruct (fetch_loop http_get c url (seq 0 (max_retries c)) (count_poll false w))
      as [html v1]. cbn [snd] in Hf. cbn [count_poll polls] in Hf.
    destruct html as [page|].
    + destruct (truthy page).
      * destruct (_is_blocked lower page).
        -- rewrite IH; [lia|exact Hq].
        -- destruct (parse c page); (rewrite IH; [cbn [emit polls]; lia|exact Hq]).
      * rewrite IH; [lia|exact Hq].
    + rewrite IH; [lia|exact Hq].
Qed.

Lemma crawl_quiet_polls c is_set w :
  quiet is_set (polls (snd (crawl lower http_get c (Some is_set) w))) ->
  polls (snd (crawl lower http_get c (Some is_set) w))
  = polls w + List.length (get_list_urls c).
Proof.
  unfold crawl.
  pose proof (crawl_loop_quiet_polls c is_set (get_list_urls c) [] 0 w) as H.
  destruct (crawl_loop lower http_get c (Some is_set) (get_list_urls c) [] 0 w)
    as [[ab fc] w']. cbn [snd] in H.
  now destruct (Nat.eqb fc (List.length (get_list_urls c))
                && Nat.ltb 0 (List.length (get_list_urls c))).
Qed.

(** While the stop event stays unset, a round polls it once per
    adapter and once per url. *)
Lemma run_loop_quiet_polls is_set total current adapters s :
  quiet is_set
        (polls (net (run_loop lower http_get classify db_clock (Some is_set)
                              total current adapters s))) ->
  polls (net (run_loop lower http_get classify db_clock (Some is_set)
                       total current adapters s))
  = polls (net s) + List.length adapters
    + List.length (flat_map get_list_urls adapters).
Proof.
  revert current s. induction adapters as [|a rest IH]; intros current s Hq;
    [cbn; lia|].
  pose proof (run_loop_polls_mono (Some is_set) total (S current) rest) as Hmono.
  cbn [run_loop check_stop List.length flat_map] in *.
  destruct (is_set (polls (net s))) eqn:E.
  - exfalso. cbn in Hq. specialize (Hq (polls (net s))). rewrite E in Hq.
    assert (true = false) by (apply Hq; lia). discriminate.
  - rewrite IH; [|exact Hq]. rewrite run_adapter_net. cbn [with_net net].
    rewrite crawl_quiet_polls.
    + cbn [count_poll polls]. rewrite length_app. lia.
    + intros i Hi. apply Hq. eapply Nat.lt_le_trans; [exact Hi|].
      etransitivity; [|apply Hmono]. rewrite run_adapter_net. cbn [with_net net]. lia.
Qed.

(** *** What a round keeps *)

Lemma bid_of_new_row st now bid n :
  Storage.bid_of_row (Storage.new_row st now bid n) = bid.
Proof. now destruct bid. Qed.

Lemma save_fresh_unnotified st now bid :
  Storage.exists_ st bid = false ->
  Storage.get_unnotified (snd (Storage.save st now bid false))
  = Storage.get_unnotified st ++ [bid].
Proof.
  intros E. unfold Storage.save. rewrite E. cbn [snd].
  unfold Storage.get_unnotified. cbn [Storage.rows].
  rewrite filter_app, map_app. cbn [filter Storage.new_row Storage.r_notified Z.eqb map].
  now rewrite bid_of_new_row.
Qed.

Lemma persist_kept s bid : kept s -> kept (persist classify db_clock s bid).
Proof.
  intros [Hwf [Hst Hc]]. unfold persist. destruct (classify bid); [|now split].
  pose proof (StorageProps.save_well_formed (store s)
                (db_clock (Storage.last_rowid (store s))) bid false Hwf) as Hwf'.
  pose proof (save_fresh_unnotified (store s)
                (db_clock (Storage.last_rowid (store s))) bid) as Hun.
  unfold Storage.save in *. destruct (Storage.exists_ (store s) bid); [now split|].
  cbn [snd] in *. unfold kept. cbn [store stored new_count].
  split; [exact Hwf'|]. rewrite (Hun eq_refl). split.
  - apply Forall_app. split.
    + eapply Forall_impl; [|exact Hst]. intros b Hb. apply in_or_app. now left.
    + constructor; [|constructor]. apply in_or_app. right. now left.
  - rewrite length_app. cbn. lia.
Qed.

Lemma fold_persist_kept bids s :
  kept s -> kept (fold_left (persist classify db_clock) bids s).
Proof.
  revert s. induction bids as [|b bids IH]; intros s H; cbn [fold_left]; [exact H|].
  now apply IH, persist_kept.
Qed.

Lemma run_adapter_kept stop_event total current a s :
  kept s ->
  kept (run_adapter lower http_get classify db_clock stop_event total current a s).
Proof.
  intros H. unfold run_adapter.
  destruct (crawl lower http_get a stop_event (net s)) as [res w1].
  destruct res as [bids|].
  - assert (kept (fold_left (persist classify db_clock) bids
                    {| net := w1; store := store s; new_count := new_count s;
                       stored := stored s; invoked := invoked s ++ [name a];
                       exhausted := exhausted s; progress := progress s |})) as Hk.
    { apply fold_persist_kept. exact H. }
    exact Hk.
  - exact H.
Qed.

Lemma run_loop_kept stop_event total current adapters s :
  kept s ->
  kept (run_loop lower http_get classify db_clock stop_event total current adapters s).
Proof.
  revert current s. induction adapters as [|a rest IH]; intros current s H;
    cbn [run_loop]; [exact H|].
  destruct (check_stop stop_event (net s)) as [stopped w0].
  destruct stopped; [exact H|]. apply IH, run_adapter_kept. exact H.
Qed.

(** *** What a round stores, from what its crawls return *)

(** [persist] reads and writes the store, the list of stored records
    and the count, nothing else. *)
Lemma persist_core s s' bid :
  store s = store s' -> stored s = stored s' -> new_count s = new_count s' ->
  store (persist classify db_clock s bid) = store (persist classify db_clock s' bid)
  /\ stored (persist classify db_clock s bid) = stored (persist classify db_clock s' bid)
  /\ new_count (persist classify db_clock s bid)
     = new_count (persist classify db_clock s' bid).
Proof.
  intros H1 H2 H3. unfold persist. rewrite <- H1.
  destruct (classify bid); [|now repeat split].
  destruct (Storage.save (store s) (db_clock (Storage.last_rowid (store s))) bid false)
    as [fresh st'].
  destruct fresh; cbn [store stored new_count]; rewrite ?H2, ?H3; now repeat split.
Qed.

Lemma fold_persist_core bids s s' :
  store s = store s' -> stored s = stored s' -> new_count s = new_count s' ->
  store (fold_left (persist classify db_clock) bids s)
  = store (fold_left (persist classify db_clock) bids s')
  /\ stored (fold_left (persist classify db_clock) bids s)
     = stored (fold_left (persist classify db_clock) bids s')
  /\ new_count (fold_left (persist classify db_clock) bids s)
     = new_count (fold_left (persist classify db_clock) bids s').
Proof.
  revert s s'. induction bids as [|b bids IH]; intros s s' H1 H2 H3; cbn [fold_left];
    [now repeat split|].
  destruct (persist_core s s' b H1 H2 H3) as [G1 [G2 G3]]. now apply IH.
Qed.

(** An adapter run without stop event stores what [persist] makes of
    the records its crawl returns. *)
Lemma run_adapter_core total current a s :
  store (run_adapter lower http_get classify db_clock None total current a s)
  = store (fold_left (persist classify db_clock)
             (match fst (crawl lower http_get a None (net s)) with
              | Some l => l
              | None => []
              end) s)
  /\ stored (run_adapter lower http_get classify db_clock None total current a s)
     = stored (fold_left (persist classify db_clock)
                 (match fst (crawl lower http_get a None (net s)) with
                  | Some l => l
                  | None => []
                  end) s)
  /\ new_count (run_adapter lower http_get classify db_clock None total current a s)
     = new_count (fold_left (persist classify db_clock)
                    (match fst (crawl lower http_get a None (net s)) with
                     | Some l => l
                     | None => []
                     end) s).
Proof.
  unfold run_adapter.
  destruct (crawl lower http_get a None (net s)) as [[l|] w1]; cbn [fst].
  - cbn [store stored new_count]. now apply fold_persist_core.
  - cbn [store stored new_count fold_left]. now repeat split.
Qed.

Lemma run_loop_free_core total current adapters s :
  store (run_loop lower http_get classify db_clock None total current adapters s)
  = store (fold_left (persist classify db_clock)
             (crawled lower http_get adapters (net s)) s)
  /\ stored (run_loop lower http_get classify db_clock None total current adapters s)
     = stored (fold_left (persist classify db_clock)
                 (crawled lower http_get adapters (net s)) s)
  /\ new_count (run_loop lower http_get classify db_clock None total current adapters s)
     = new_count (fold_left (persist classify db_clock)
                    (crawled lower http_get adapters (net s)) s).
Proof.
  revert current s. induction adapters as [|a rest IH]; intros current s;
    cbn [run_loop crawled check_stop]; [now repeat split|].
  assert (with_net (net s) s = s) as -> by now destruct s.
  destruct (IH (S current)
              (run_adapter lower http_get classify db_clock None total current a s))
    as [I1 [I2 I3]].
  rewrite I1, I2, I3, run_adapter_net.
  destruct (run_adapter_core total current a s) as [A1 [A2 A3]].
  destruct (crawl lower http_get a None (net s)) as [result w1].
  cbn [fst snd] in *. rewrite fold_left_app. now apply fold_persist_core.
Qed.

(** The rows [persist] appends for a list of records: one for every
    accepted record whose unique id is not stored yet, and afterwards
    every accepted record is stored. *)
Lemma fold_persist_rows bids s :
  exists news,
    Storage.rows (store (fold_left (persist classify db_clock) bids s))
    = Storage.rows (store s) ++ news
    /\ stored (fold_left (persist classify db_clock) bids s)
       = stored s ++ map Storage.bid_of_row news
    /\ Forall (fun row =>
                 Storage.r_unique_id row = Storage.unique_id (Storage.bid_of_row row)
                 /\ Storage.exists_ (store s) (Storage.bid_of_row row) = false
                 /\ In (Storage.bid_of_row row) (filter classify bids)) news
    /\ NoDup (map Storage.r_unique_id news)
    /\ Forall (fun b => Storage.exists_
                          (store (fold_left (persist classify db_clock) bids s)) b = true)
              (filter classify bids).
Proof.
  revert s. induction bids as [|b bids IH]; intros s; cbn [fold_left filter].
  { exists []. rewrite !app_nil_r. repeat split; constructor. }
  destruct (IH (persist classify db_clock s b)) as [news [H1 [H2 [H3 [H4 H5]]]]].
  set (final := fold_left (persist classify db_clock) bids
                          (persist classify db_clock s b)) in *.
  unfold persist in H1, H2, H3. unfold Storage.save in H1, H2, H3.
  destruct (classify b) eqn:Ec.
  2:{ exists news. split; [exact H1|]. split; [exact H2|]. split; [|split; assumption].
      exact H3. }
  destruct (Storage.exists_ (store s) b) eqn:Ex.
  - (* already stored *)
    exists news. split; [exact H1|]. split; [exact H2|]. split; [|split; [exact H4|]].
    + revert H3. apply Forall_impl. intros row [G1 [G2 G3]].
      split; [exact G1|]. split; [exact G2|now right].
    + constructor; [|exact H5].
      unfold Storage.exists_. rewrite H1, existsb_app. unfold Storage.exists_ in Ex.
      now rewrite Ex.
  - (* a new row *)
    cbn [store stored Storage.rows] in H1, H2, H3.
    set (nr := Storage.new_row (store s) (db_clock (Storage.last_rowid (store s)))
                               b false) in *.
    assert (Forall (fun row => Storage.has_uid (Storage.r_unique_id row) nr = false
                               /\ Storage.exists_ (store s) (Storage.bid_of_row row)
                                  = false) news) as Hsep.
    { revert H3. apply Forall_impl. intros row [G1 [G2 _]].
      unfold Storage.exists_ in G2. cbn [Storage.rows] in G2.
      rewrite existsb_app in G2. apply orb_false_iff in G2. destruct G2 as [G2 G3].
      cbn [existsb] in G3. rewrite orb_false_r in G3. rewrite G1. now split. }
    exists (nr :: news).
    split; [rewrite H1, <- app_assoc; reflexivity|].
    split; [rewrite H2, <- app_assoc; cbn [map app]; subst nr;
            now rewrite bid_of_new_row|].
    split; [|split].
    + constructor.
      * subst nr. rewrite bid_of_new_row. cbn [Storage.new_row Storage.r_unique_id].
        repeat split; [exact Ex|now left].
      * rewrite Forall_forall in H3, Hsep. apply Forall_forall. intros row Hin.
        destruct (H3 row Hin) as [G1 [_ G3]]. destruct (Hsep row Hin) as [_ G2].
        split; [exact G1|]. split; [exact G2|now right].
    + cbn [map]. constructor; [|exact H4]. intros Hin.
      apply in_map_iff in Hin. destruct Hin as [row [Hrow Hin]].
      rewrite Forall_forall in Hsep. destruct (Hsep row Hin) as [G _].
      unfold Storage.has_uid in G. rewrite Hrow, String.eqb_refl in G. discriminate.
    + constructor; [|exact H5].
      unfold Storage.exists_. rewrite H1, !existsb_app. cbn [existsb].
      unfold Storage.has_uid at 2. subst nr. cbn [Storage.new_row Storage.r_unique_id].
      rewrite String.eqb_refl. now rewrite orb_true_r.
Qed.

(** A round without stop event over [pre], seen from a store [st2] that
    holds the same records under the same unique ids as the store the
    round leaves: every accepted record of the crawls is stored; the
    records counted as new are accepted records of the crawls that were
    not stored before, one per unique id; and the store holds the old
    records followed by the new ones. *)
Lemma harvest_kept total pre st w0 st2 :
  (forall b, Storage.exists_ st2 b
             = Storage.exists_
                 (store (run_loop lower http_get classify db_clock None total 0 pre
                                  (begin st w0))) b) ->
  map Storage.bid_of_row (Storage.rows st2)
  = map Storage.bid_of_row
        (Storage.rows (store (run_loop lower http_get classify db_clock None total 0 pre
                                       (begin st w0)))) ->
  Forall (fun b => Storage.exists_ st2 b = true)
         (filter classify (crawled lower http_get pre w0))
  /\ Forall (fun b => In b (filter classify (crawled lower http_get pre w0))
                      /\ Storage.exists_ st b = false)
            (stored (run_loop lower http_get classify db_clock None total 0 pre
                              (begin st w0)))
  /\ Forall (fun b => Storage.exists_ st b = true
                      \/ In (Storage.unique_id b)
                            (map Storage.unique_id
                                 (stored (run_loop lower http_get classify db_clock None
                                                   total 0 pre (begin st w0)))))
            (filter classify (crawled lower http_get pre w0))
  /\ NoDup (map Storage.unique_id
                (stored (run_loop lower http_get classify db_clock None total 0 pre
                                  (begin st w0))))
  /\ map Storage.bid_of_row (Storage.rows st2)
     = map Storage.bid_of_row (Storage.rows st)
       ++ stored (run_loop lower http_get classify db_clock None total 0 pre
                           (begin st w0)).
Proof.
  intros Hu Hb.
  destruct (run_loop_free_core total 0 pre (begin st w0)) as [C1 [C2 _]].
  cbn [begin net] in C1, C2.
  destruct (fold_persist_rows (crawled lower http_get pre w0) (begin st w0))
    as [news [H1 [H2 [H3 [H4 H5]]]]].
  cbn [begin store stored app] in H1, H2, H3.
  set (s_free := run_loop lower http_get classify db_clock None total 0 pre
                          (begin st w0)) in *.
  rewrite <- C1 in H1, H5. rewrite <- C2 in H2.
  assert (map Storage.unique_id (stored s_free) = map Storage.r_unique_id news) as Hids.
  { rewrite H2, map_map. apply map_ext_in. intros row Hin.
    rewrite Forall_forall in H3. now destruct (H3 row Hin) as [-> _]. }
  split; [|split; [|split; [|split]]].
  - revert H5. apply Forall_impl. intros b Hx. now rewrite Hu.
  - rewrite H2. apply Forall_map. revert H3. apply Forall_impl.
    intros row [_ [G2 G3]]. now split.
  - revert H5. apply Forall_impl. intros b Hx.
    unfold Storage.exists_ in Hx. rewrite H1, existsb_app in Hx.
    apply orb_true_iff in Hx. destruct Hx as [Hx|Hx]; [now left|right].
    apply existsb_exists in Hx. destruct Hx as [row [Hin Hrow]].
    rewrite Hids. apply in_map_iff. exists row. split; [|exact Hin].
    unfold Storage.has_uid in Hrow. now apply String.eqb_eq in Hrow.
  - now rewrite Hids.
  - now rewrite Hb, H1, map_app, H2.
Qed.

End Environment.

(** The fan-out changes no unique id: what [exists] answers is as
    before. *)
Lemma dispatch_keeps_exists transport settings st contacts b :
  Storage.exists_ (snd (Notify.dispatch transport settings st contacts)) b
  = Storage.exists_ st b.
Proof.
  unfold Notify.dispatch.
  destruct (Notify.no_bids (Storage.get_unnotified st)); [reflexivity|].
  cbn [snd]. unfold Storage.exists_.
  destruct (NotifyProps.mark_urls_rows
              (map Storage.url (Storage.get_unnotified st)) st) as [-> _].
  induction (Storage.rows st) as [|r l IH]; cbn [map existsb]; [reflexivity|].
  rewrite IH. f_equal.
  now destruct (Notify.marked_by _ r).
Qed.

End RoundProps.

(** C6.  Let the stop event answer [False] to every poll up to the end of
    adapter k-1 and [True] to the poll in front of adapter k.  Then
    [_do_crawl] processes adapters 1 to k-1 fully: every record their
    crawls return and the classifier accepts is in the store when the
    round ends; the records counted as new are exactly accepted records
    of these crawls that were not stored before, one per unique id; the
    store holds the records it held before, followed by the new ones.
    Adapters 1 to k-1 run as in a round without stop event (same
    requests, same parses, same stored records), none of the adapters k
    to n is invoked, and the new records, when there is one, are all
    dispatched and marked notified.  The event is polled once at the
    start, once in front of each adapter, once per url of a processed
    adapter and once after the loop; [fetch] never polls it. *)
Theorem stop_before_adapter
        (lower : string -> string)
        (http_get : nat -> string -> Crawler.get_result)
        (classify : Storage.BidInfo -> bool) (db_clock : N -> N)
        (transport : nat -> Notify.Contact -> Notify.channel ->
                     list Storage.BidInfo -> Notify.send_result)
        (settings : Notify.Settings)
        (is_set : nat -> bool)
        (pre post : list Crawler.BaseCrawler)
        (contacts : list Notify.Contact)
        (ops : list Storage.op) (w : Crawler.world) :
  let st := Storage.run_ops ops in
  let total := List.length (pre ++ post) in
  let w0 := Crawler.count_poll false w in
  let s_pre := Round.run_loop lower http_get classify db_clock (Some is_set)
                              total 0 pre (Round.begin st w0) in
  let s_free := Round.run_loop lower http_get classify db_clock None
                               total 0 pre (Round.begin st w0) in
  let result := Round._do_crawl lower http_get classify db_clock transport settings
                                is_set (pre ++ post) contacts st w in
  let s := snd result in
  let batch := Storage.get_unnotified (Round.store s_pre) in
  let accepted := filter classify (Round.crawled lower http_get pre w0) in
  post <> [] ->
  Round.quiet is_set (Crawler.polls (Round.net s_pre)) ->
  is_set (Crawler.polls (Round.net s_pre)) = true ->
  Forall (fun b => Storage.exists_ (Round.store s) b = true) accepted
  /\ Forall (fun b => In b accepted /\ Storage.exists_ st b = false) (Round.stored s)
  /\ Forall (fun b => Storage.exists_ st b = true
                      \/ In (Storage.unique_id b)
                            (map Storage.unique_id (Round.stored s))) accepted
  /\ NoDup (map Storage.unique_id (Round.stored s))
  /\ map Storage.bid_of_row (Storage.rows (Round.store s))
     = map Storage.bid_of_row (Storage.rows st) ++ Round.stored s
  /\ Round.agree s_pre s_free
  /\ Round.invoked s = map Crawler.name pre
  /\ Crawler.requests (Round.net s) = Crawler.requests (Round.net s_free)
  /\ Round.work (Crawler.trace (Round.net s)) = Round.work (Crawler.trace (Round.net s_free))
  /\ Round.stored s = Round.stored s_free
  /\ Round.new_count s = List.length (Round.stored s)
  /\ Forall (fun b => In b (map Storage.bid_of_row (Storage.rows (Round.store s))))
            (Round.stored s)
  /\ (if Nat.eqb (Round.new_count s) 0
      then Round.stored s = []
      else fst result
           = Round.Dispatched (fst (Notify.dispatch transport settings
                                                    (Round.store s_pre) contacts))
           /\ Notify.marks (fst (Notify.dispatch transport settings
                                                 (Round.store s_pre) contacts))
              = [map Storage.url batch]
           /\ Forall (fun b => In b batch) (Round.stored s)
           /\ Storage.get_unnotified (Round.store s) = [])
  /\ Crawler.polls (Round.net s)
     = Crawler.polls w + 3 + List.length pre
       + List.length (flat_map Crawler.get_list_urls pre)
  /\ (forall c url todo v,
         Crawler.polls (snd (Crawler.fetch_loop http_get c url todo v)) = Crawler.polls v).
Proof.
  intros st total w0 s_pre s_free result s batch accepted Hpost Hq Hset.
  pose proof (StorageProps.run_ops_well_formed ops) as Hwf. fold st in Hwf.
  (* the round up to adapter k *)
  assert (Round.agree s_pre s_free) as Hagree.
  { apply RoundProps.run_loop_quiet; [exact Hq|].
    unfold Round.agree, Round.same_work. now repeat split. }
  assert (Round.kept s_pre) as Hkept.
  { apply RoundProps.run_loop_kept. unfold Round.kept, Round.begin.
    cbn [Round.store Round.stored Round.new_count]. split; [exact Hwf|]. split; constructor. }
  assert (Round.invoked s_free = map Crawler.name pre) as Hinv.
  { subst s_free. now rewrite RoundProps.run_loop_free_invoked. }
  assert (Crawler.polls (Round.net s_pre)
          = S (Crawler.polls w) + List.length pre
            + List.length (flat_map Crawler.get_list_urls pre)) as Hpolls.
  { subst s_pre. now rewrite RoundProps.run_loop_quiet_polls. }
  (* the first look at the stop event *)
  assert (is_set (Crawler.polls w) = false) as H0 by (apply Hq; lia).
  (* the loop stops in front of adapter k *)
  assert (Round.run_once lower http_get classify db_clock (Some is_set) (pre ++ post) st w0
          = Round.with_net (Crawler.count_poll true (Round.net s_pre)) s_pre) as Hrun.
  { unfold Round.run_once. fold total.
    rewrite RoundProps.run_loop_app_quiet; [|exact Hq]. fold s_pre.
    destruct post as [|a rest]; [contradiction|].
    cbn [Round.run_loop Crawler.check_stop]. now rewrite Hset. }
  (* the rest of [_do_crawl] *)
  destruct Hkept as [Hwf_pre [Hstored Hcount]].
  destruct (NotifyProps.dispatch_well_formed transport settings (Round.store s_pre)
              contacts Hwf_pre) as [_ [Hmarks [_ [Hnone [Hrows _]]]]].
  fold batch in Hmarks.
  assert (Forall (fun b => In b (map Storage.bid_of_row (Storage.rows (Round.store s_pre))))
                 (Round.stored s_pre)) as Hin_rows.
  { eapply Forall_impl; [|exact Hstored]. intros b Hb.
    unfold Storage.get_unnotified in Hb. apply in_map_iff in Hb.
    destruct Hb as [r [Hr Hb]]. apply filter_In in Hb. apply in_map_iff. exists r. tauto. }
  (* what the adapters before the stop left in the store *)
  assert (Round.stored s = Round.stored s_free
          /\ (forall b0, Storage.exists_ (Round.store s) b0
                         = Storage.exists_ (Round.store s_free) b0)
          /\ map Storage.bid_of_row (Storage.rows (Round.store s))
             = map Storage.bid_of_row (Storage.rows (Round.store s_free))) as Hfinal.
  { destruct Hagree as [_ [Hs [_ [Hd _]]]]. rewrite <- Hs, <- Hd.
    subst s result. unfold Round._do_crawl.
    cbn [Crawler.check_stop]. rewrite H0. fold w0. rewrite Hrun.
    cbn [Round.with_net Round.net Round.new_count Round.store Round.stored].
    destruct (is_set (Crawler.polls (Crawler.count_poll true (Round.net s_pre)))
              && Nat.eqb (Round.new_count s_pre) 0).
    - cbn [snd Round.with_net Round.store Round.stored]. now repeat split.
    - pose proof (RoundProps.dispatch_keeps_exists transport settings
                    (Round.store s_pre) contacts) as Hk.
      destruct (Notify.dispatch transport settings (Round.store s_pre) contacts)
        as [log st']. cbn [snd fst Round.store Round.stored] in *.
      split; [reflexivity|]. split; [exact Hk|exact Hrows]. }
  destruct Hfinal as [Hf1 [Hf2 Hf3]].
  destruct (RoundProps.harvest_kept lower http_get classify db_clock total pre st w0
              (Round.store s) Hf2 Hf3) as [B1 [B2 [B3 [B4 B5]]]].
  fold s_free in B2, B3, B4, B5. rewrite <- Hf1 in B2, B3, B4, B5.
  split; [exact B1|]. split; [exact B2|]. split; [exact B3|]. split; [exact B4|].
  split; [exact B5|].
  clear Hf1 Hf2 Hf3 B1 B2 B3 B4 B5 accepted.
  subst result s. unfold Round._do_crawl.
  cbn [Crawler.check_stop]. rewrite H0. fold w0. rewrite Hrun.
  cbn [Round.with_net Round.net Round.new_count Round.store Round.stored Round.invoked
         Round.exhausted Round.progress Crawler.count_poll Crawler.polls].
  set (b := is_set (S (Crawler.polls (Round.net s_pre)))).
  destruct Hagree as [[Hreq Hwork] [Hs [Hc [Hd [Hi [He Hp]]]]]].
  assert (Round.agree s_pre s_free) as Hagree by (unfold Round.agree, Round.same_work; tauto).
  destruct (Nat.eqb (Round.new_count s_pre) 0) eqn:En.
  - (* nothing new *)
    apply Nat.eqb_eq in En.
    assert (Round.stored s_pre = []) as Hnil.
    { rewrite Hcount in En. now destruct (Round.stored s_pre). }
    destruct b; cbn [andb].
    + cbn [snd fst Round.with_net Round.net Round.invoked Round.stored Round.new_count
             Round.store Crawler.requests Crawler.trace Crawler.polls Crawler.count_poll].
      rewrite En, Hnil. cbn [Nat.eqb List.length].
      rewrite !RoundProps.work_app. cbn [Round.work filter]. rewrite !app_nil_r.
      repeat split; try assumption; try congruence; try constructor.
      * rewrite Hpolls. lia.
      * intros c url todo v. apply CrawlerProps.fetch_loop_polls.
    + destruct (Notify.dispatch transport settings (Round.store s_pre) contacts)
        as [log st'].
      cbn [snd fst Round.with_net Round.net Round.invoked Round.stored Round.new_count
             Round.store Crawler.requests Crawler.trace Crawler.polls Crawler.count_poll].
      rewrite En, Hnil. cbn [Nat.eqb List.length].
      rewrite !RoundProps.work_app. cbn [Round.work filter]. rewrite !app_nil_r.
      repeat split; try assumption; try congruence; try constructor.
      * rewrite Hpolls. lia.
      * intros c url todo v. apply CrawlerProps.fetch_loop_polls.
  - (* something new: dispatched even though the round was stopped *)
    rewrite andb_false_r.
    destruct (Notify.dispatch transport settings (Round.store s_pre) contacts)
      as [log st'] eqn:Ed.
    cbn [fst snd] in Hmarks, Hnone, Hrows.
    cbn [snd fst Round.with_net Round.net Round.invoked Round.stored Round.new_count
           Round.store Crawler.requests Crawler.trace Crawler.polls Crawler.count_poll].
    rewrite En.
    rewrite !RoundProps.work_app. cbn [Round.work filter]. rewrite !app_nil_r.
    assert (Notify.no_bids batch = false) as Hnb.
    { unfold batch.
      destruct (Storage.get_unnotified (Round.store s_pre)) as [|x xs] eqn:Ex;
        [|reflexivity].
      apply Nat.eqb_neq in En. rewrite Hcount in En.
      destruct (Round.stored s_pre) as [|y ys]; [contradiction|].
      inversion Hstored as [|? ? Hy _]; subst. destruct Hy. }
    rewrite Hnb in Hmarks.
    split; [exact Hagree|]. split; [congruence|]. split; [exact Hreq|].
    split; [exact Hwork|]. split; [exact Hd|]. split; [exact Hcount|].
    split; [now rewrite Hrows|].
    split; [repeat split; assumption|].
    split; [rewrite Hpolls; lia|].
    intros c url todo v. apply CrawlerProps.fetch_loop_polls.
Qed.


Lemma stop_before_adapter_witness :
  let pre := [Samples.site1; Samples.site2] in
  let post := [Samples.site3; Samples.site4; Samples.site5] in
  let s_pre := Round.run_loop PyStr.lower_ascii Samples.serve_all Samples.accept_all
                              Samples.clock (Some Samples.stop_after_six)
                              (List.length (pre ++ post)) 0 pre
                              (Round.begin (Storage.run_ops [])
                                           (Crawler.count_poll false Crawler.start)) in
  let result := Round._do_crawl PyStr.lower_ascii Samples.serve_all Samples.accept_all
                                Samples.clock Samples.flaky Samples.all_channels
                                Samples.stop_after_six (pre ++ post) [Samples.alice]
                                (Storage.run_ops []) Crawler.start in
  (post <> []
   /\ Round.quiet Samples.stop_after_six (Crawler.polls (Round.net s_pre))
   /\ Samples.stop_after_six (Crawler.polls (Round.net s_pre)) = true)
  /\ Forall (fun b => Storage.exists_ (Round.store (snd result)) b = true)
            (filter Samples.accept_all
                    (Round.crawled PyStr.lower_ascii Samples.serve_all pre
                                   (Crawler.count_poll false Crawler.start)))
  /\ Round.invoked (snd result) = map Crawler.name pre
  /\ Round.new_count (snd result) = List.length (Round.stored (snd result)).
Proof.
  intros pre post s_pre result.
  assert (Crawler.polls (Round.net s_pre) = 6) as Hp by (vm_compute; reflexivity).
  assert (post <> []) as H1 by discriminate.
  assert (Round.quiet Samples.stop_after_six (Crawler.polls (Round.net s_pre))) as H2.
  { rewrite Hp. intros i Hi. unfold Samples.stop_after_six. apply Nat.leb_gt. exact Hi. }
  assert (Samples.stop_after_six (Crawler.polls (Round.net s_pre)) = true) as H3.
  { rewrite Hp. reflexivity. }
  split; [repeat split; assumption|].
  pose proof (stop_before_adapter
                PyStr.lower_ascii Samples.serve_all Samples.accept_all Samples.clock
                Samples.flaky Samples.all_channels Samples.stop_after_six pre post
                [Samples.alice] [] Crawler.start H1 H2 H3) as T.
  destruct T as [Hkept [_ [_ [_ [_ [_ [Hinv [_ [_ [_ [Hcount _]]]]]]]]]]].
  split; [exact Hkept|]. split; [exact Hinv|exact Hcount].
Defined.

(* ===================================================================== *)
(** ** The examples of the specification, run on the model               *)
(* ===================================================================== *)

(** Include "光伏" and "无人机", exclude "测绘", must contain "无人机". *)
Example policy_matches_drone_inspection :
  let m := Matcher.init PyStr.lower_ascii ["光伏"; "无人机"] (Some ["测绘"])
                        (Some ["无人机"]) in
  Matcher.matched (Matcher.match_ PyStr.lower_ascii m "某光伏电站无人机巡检采购") = true
  /\ Matcher.match_ PyStr.lower_ascii m "光伏测绘无人机项目"
     = {| Matcher.matched := false; Matcher.matched_keywords := [];
          Matcher.excluded_by := Some "测绘" |}
  /\ Matcher.matched (Matcher.match_ PyStr.lower_ascii m "某光伏电站巡检采购") = false.
Proof. vm_compute. repeat split. Qed.

(** Five sites, the stop event set in front of the third: two sites are
    crawled, their two new records are stored, dispatched to the one
    contact over her three channels, and marked. *)
Example round_stopped_before_third_site :
  let result := Round._do_crawl PyStr.lower_ascii Samples.serve_all Samples.accept_all
                  Samples.clock Samples.flaky Samples.all_channels
                  Samples.stop_after_six
                  [Samples.site1; Samples.site2; Samples.site3; Samples.site4; Samples.site5]
                  [Samples.alice] (Storage.run_ops []) Crawler.start in
  fst result
  = Round.Dispatched
      [Notify.Attempt "alice" Notify.Email (Notify.Returned false);
       Notify.Attempt "alice" Notify.SMS (Notify.Raised "gateway timeout");
       Notify.Attempt "alice" Notify.Voice (Notify.Returned true);
       Notify.Marked ["https://example.com/a"; "https://example.com/b"]]
  /\ Round.invoked (snd result) = ["site1"; "site2"]
  /\ Round.new_count (snd result) = 2
  /\ Round.progress (snd result) = [(1, 5, "site1"); (2, 5, "site2")]
  /\ Crawler.requests (Round.net (snd result)) = 3
  /\ map Storage.r_notified (Storage.rows (Round.store (snd result))) = [1%Z; 1%Z].
Proof. vm_compute. repeat split. Qed.

(* ********************************************************************* *)
(** * Further properties of the code                                     *)
(* ********************************************************************* *)

(* ===================================================================== *)
(** ** Storage: saving, marking and reading back                         *)
(* ===================================================================== *)

Module MarkingProps.

Import Storage Marking.

Lemma fold_update_rows uids st :
  rows (fold_left (fun s uid => update_notified uid s) uids st)
  = map (fun r => if reached uids r then set_notified r else r) (rows st)
  /\ last_rowid (fold_left (fun s uid => update_notified uid s) uids st) = last_rowid st.
Proof.
  revert st. induction uids as [|u uids IH]; intros st; cbn [fold_left].
  - split; [|reflexivity]. rewrite <- (map_id (rows st)) at 1. now apply map_ext.
  - destruct (IH (update_notified u st)) as [H1 H2]. rewrite H1, H2.
    split; [|reflexivity].
    cbn [update_notified rows]. rewrite map_map. apply map_ext. intros r.
    unfold reached. cbn [existsb]. destruct (has_uid u r) eqn:E; cbn [orb].
    + unfold has_uid in *. cbn [set_notified r_unique_id].
      now destruct (existsb _ uids).
    + reflexivity.
Qed.

Lemma fold_left_map_uid {A} (f : A -> string) (l : list A) st :
  fold_left (fun s x => update_notified (f x) s) l st
  = fold_left (fun s uid => update_notified uid s) (map f l) st.
Proof.
  revert st. induction l as [|x l IH]; intros st; cbn [map fold_left]; [reflexivity|].
  apply IH.
Qed.

(** Every shape of the argument updates the rows its identifiers reach. *)
Lemma mark_as_fold st bids :
  mark_notified st bids = fold_left (fun s uid => update_notified uid s) (uids_of bids) st.
Proof.
  destruct bids as [b|l|l]; cbn [mark_notified uids_of fold_left].
  - reflexivity.
  - apply (fold_left_map_uid unique_id).
  - apply (fold_left_map_uid Hashlib.md5_hexdigest).
Qed.

Lemma mark_rows st bids :
  rows (mark_notified st bids)
  = map (fun r => if reached (uids_of bids) r then set_notified r else r) (rows st)
  /\ last_rowid (mark_notified st bids) = last_rowid st.
Proof. rewrite mark_as_fold. apply fold_update_rows. Qed.

Lemma store_eq (s1 s2 : Store) :
  rows s1 = rows s2 -> last_rowid s1 = last_rowid s2 -> s1 = s2.
Proof. destruct s1, s2; cbn. now intros -> ->. Qed.

Lemma reached_set_notified uids r : reached uids (set_notified r) = reached uids r.
Proof. reflexivity. Qed.

Lemma reached_same_elements l1 l2 r :
  (forall u, In u l1 <-> In u l2) -> reached l1 r = reached l2 r.
Proof.
  intros H. unfold reached.
  destruct (existsb (fun uid => has_uid uid r) l1) eqn:E1;
    destruct (existsb (fun uid => has_uid uid r) l2) eqn:E2; try reflexivity.
  - apply existsb_exists in E1. destruct E1 as [u [Hin Hu]].
    assert (existsb (fun uid => has_uid uid r) l2 = true) as E
      by (apply existsb_exists; exists u; split; [now apply H|exact Hu]).
    congruence.
  - apply existsb_exists in E2. destruct E2 as [u [Hin Hu]].
    assert (existsb (fun uid => has_uid uid r) l1 = true) as E
      by (apply existsb_exists; exists u; split; [now apply H|exact Hu]).
    congruence.
Qed.

(** The sort of [get_all] does not look at [notified]. *)
Lemma insert_desc_map (f : Row -> Row) r l :
  (forall x, r_created_at (f x) = r_created_at x) ->
  insert_desc (f r) (map f l) = map f (insert_desc r l).
Proof.
  intros Hf. induction l as [|x l IH]; cbn [map insert_desc]; [reflexivity|].
  rewrite !Hf. destruct (r_created_at x <=? r_created_at r)%N; cbn [map]; [reflexivity|].
  now rewrite IH.
Qed.

Lemma order_by_map (f : Row -> Row) l :
  (forall x, r_created_at (f x) = r_created_at x) ->
  order_by_created_at_desc (map f l) = map f (order_by_created_at_desc l).
Proof.
  intros Hf. unfold order_by_created_at_desc.
  induction l as [|x l IH]; cbn [map fold_right]; [reflexivity|].
  rewrite IH. now apply insert_desc_map.
Qed.

End MarkingProps.

(** X1.  After [save(bid)], [exists(bid)] is true; [save] returns True
    exactly when the record was not stored, and then the table has one
    row more, behind all earlier rows; every other lookup answers as
    before. *)
Theorem save_then_exists (st : Storage.Store) (now : N) (bid : Storage.BidInfo)
        (notified : bool) :
  let r := Storage.save st now bid notified in
  Storage.exists_ (snd r) bid = true
  /\ fst r = negb (Storage.exists_ st bid)
  /\ Storage.count_all (snd r) = Storage.count_all st + (if fst r then 1 else 0)
  /\ firstn (Storage.count_all st) (Storage.rows (snd r)) = Storage.rows st
  /\ forall other,
      Storage.exists_ (snd r) other
      = Storage.exists_ st other
        || (fst r && String.eqb (Storage.unique_id bid) (Storage.unique_id other)).
Proof.
  intros r. subst r. unfold Storage.save, Storage.count_all.
  destruct (Storage.exists_ st bid) eqn:E; cbn [fst snd negb andb].
  - split; [exact E|]. split; [reflexivity|]. split; [lia|].
    split; [apply firstn_all|]. intros other. now rewrite orb_false_r.
  - cbn [Storage.rows].
    assert (forall other,
               Storage.exists_
                 {| Storage.rows := Storage.rows st
                                    ++ [Storage.new_row st now bid notified];
                    Storage.last_rowid := (Storage.last_rowid st + 1)%N |} other
               = Storage.exists_ st other
                 || String.eqb (Storage.unique_id bid) (Storage.unique_id other)) as H.
    { intros other. unfold Storage.exists_. cbn [Storage.rows].
      rewrite existsb_app. cbn [existsb]. unfold Storage.has_uid at 2.
      cbn [Storage.new_row Storage.r_unique_id]. now rewrite orb_false_r. }
    split; [rewrite H, String.eqb_refl; apply orb_true_r|].
    split; [reflexivity|]. split; [rewrite length_app; cbn; lia|].
    split; [|exact H].
    rewrite firstn_app, firstn_all, Nat.sub_diag. cbn. apply app_nil_r.
Qed.

(** X2.  A record [save] accepts is read back with all six fields:
    [get_all] holds it, in addition to what it held, and
    [get_unnotified] holds it at the end unless it was saved as notified.
    A record [save] refuses leaves the store as it was. *)
Theorem saved_record_is_read_back (st : Storage.Store) (now : N)
        (bid : Storage.BidInfo) (notified : bool) :
  let r := Storage.save st now bid notified in
  if fst r
  then In bid (Storage.get_all (snd r))
       /\ Permutation (bid :: Storage.get_all st) (Storage.get_all (snd r))
       /\ Storage.get_unnotified (snd r)
          = Storage.get_unnotified st ++ (if notified then [] else [bid])
  else snd r = st.
Proof.
  intros r. subst r. unfold Storage.save.
  destruct (Storage.exists_ st bid); cbn [fst snd]; [reflexivity|].
  assert (Permutation (bid :: Storage.get_all st)
            (Storage.get_all
               {| Storage.rows := Storage.rows st ++ [Storage.new_row st now bid notified];
                  Storage.last_rowid := (Storage.last_rowid st + 1)%N |})) as Hp.
  { unfold Storage.get_all. cbn [Storage.rows].
    rewrite <- (StorageProps.order_by_perm (Storage.rows st ++ _)).
    rewrite <- (StorageProps.order_by_perm (Storage.rows st)).
    rewrite map_app. cbn [map]. rewrite RoundProps.bid_of_new_row.
    apply Permutation_cons_append. }
  split; [|split; [exact Hp|]].
  - apply (Permutation_in _ Hp). now left.
  - unfold Storage.get_unnotified. cbn [Storage.rows].
    rewrite filter_app, map_app. f_equal.
    cbn [filter Storage.new_row Storage.r_notified].
    destruct notified; cbn [Z.eqb map]; [reflexivity|].
    now rewrite RoundProps.bid_of_new_row.
Qed.

(** X3.  [mark_notified] is idempotent and touches nothing but the flag:
    calling it twice with the same argument is calling it once, [get_all]
    and [count_all] answer as before, and [get_unnotified] loses exactly
    the rows the identifiers of the argument reach. *)
Theorem mark_notified_is_idempotent (st : Storage.Store) (bids : Storage.bids_arg) :
  Storage.mark_notified (Storage.mark_notified st bids) bids
  = Storage.mark_notified st bids
  /\ Storage.get_all (Storage.mark_notified st bids) = Storage.get_all st
  /\ Storage.count_all (Storage.mark_notified st bids) = Storage.count_all st
  /\ Storage.get_unnotified (Storage.mark_notified st bids)
     = map Storage.bid_of_row
           (filter (fun r => Storage.unnotified r
                             && negb (Marking.reached (Marking.uids_of bids) r))
                   (Storage.rows st)).
Proof.
  destruct (MarkingProps.mark_rows st bids) as [Hr Hl].
  destruct (MarkingProps.mark_rows (Storage.mark_notified st bids) bids) as [Hr2 Hl2].
  set (f := fun r => if Marking.reached (Marking.uids_of bids) r
                     then Storage.set_notified r else r) in *.
  assert (forall x, Storage.bid_of_row (f x) = Storage.bid_of_row x) as Hb
    by (intros x; unfold f; now destruct (Marking.reached _ x)).
  split; [|split; [|split]].
  - apply MarkingProps.store_eq; [|congruence].
    rewrite Hr2, Hr, map_map. apply map_ext. intros r. unfold f.
    destruct (Marking.reached (Marking.uids_of bids) r) eqn:E.
    + now rewrite MarkingProps.reached_set_notified, E.
    + now rewrite E.
  - unfold Storage.get_all. rewrite Hr, MarkingProps.order_by_map.
    + rewrite map_map. now apply map_ext.
    + intros x. unfold f. now destruct (Marking.reached _ x).
  - unfold Storage.count_all. now rewrite Hr, length_map.
  - unfold Storage.get_unnotified. rewrite Hr. clear Hr Hr2 Hl Hl2. unfold f.
    induction (Storage.rows st) as [|r l IH]; cbn [map filter]; [reflexivity|].
    unfold Storage.unnotified at 1.
    destruct (Marking.reached (Marking.uids_of bids) r); cbn [negb].
    + cbn [Storage.set_notified Storage.r_notified Z.eqb]. rewrite andb_false_r. exact IH.
    + rewrite andb_true_r. destruct (Storage.r_notified r =? 0)%Z; cbn [map]; [|exact IH].
      now rewrite IH.
Qed.

(** X4.  Only the set of identifiers counts for [mark_notified]: two
    arguments of whatever shape (one record, a list of records, a list
    of urls) whose identifiers are the same, in any order and with any
    repetition, give the same table. *)
Theorem mark_notified_depends_on_the_identifiers
        (st : Storage.Store) (bids1 bids2 : Storage.bids_arg) :
  (forall uid, In uid (Marking.uids_of bids1) <-> In uid (Marking.uids_of bids2)) ->
  Storage.mark_notified st bids1 = Storage.mark_notified st bids2.
Proof.
  intros H.
  destruct (MarkingProps.mark_rows st bids1) as [Hr1 Hl1].
  destruct (MarkingProps.mark_rows st bids2) as [Hr2 Hl2].
  apply MarkingProps.store_eq; [|congruence].
  rewrite Hr1, Hr2. apply map_ext. intros r.
  now rewrite (MarkingProps.reached_same_elements _ _ r H).
Qed.

Lemma mark_notified_depends_on_the_identifiers_witness :
  Storage.mark_notified Samples.store_ab
    (Storage.BidList [Samples.tender_a; Samples.tender_b; Samples.tender_a'])
  = Storage.mark_notified Samples.store_ab
      (Storage.UrlList [Storage.url Samples.tender_b; Storage.url Samples.tender_a]).
Proof.
  apply (mark_notified_depends_on_the_identifiers Samples.store_ab
           (Storage.BidList [Samples.tender_a; Samples.tender_b; Samples.tender_a'])
           (Storage.UrlList [Storage.url Samples.tender_b; Storage.url Samples.tender_a])).
  intros uid. cbn [Marking.uids_of map].
  change (Storage.unique_id Samples.tender_a)
    with (Hashlib.md5_hexdigest (Storage.url Samples.tender_a)).
  change (Storage.unique_id Samples.tender_a')
    with (Hashlib.md5_hexdigest (Storage.url Samples.tender_a)).
  change (Storage.unique_id Samples.tender_b)
    with (Hashlib.md5_hexdigest (Storage.url Samples.tender_b)).
  cbn [In]. tauto.
Defined.

(* ===================================================================== *)
(** ** Matcher: what a result can look like                              *)
(* ===================================================================== *)

Module MatchAnyProps.

Import PyStr Matcher MatchAnyLoop.

Lemma find_none_forallb {A} (f : A -> bool) l :
  find f l = None -> forallb (fun x => negb (f x)) l = true.
Proof.
  induction l as [|x l IH]; cbn [find forallb]; [reflexivity|].
  destruct (f x); [discriminate|]. intros H. now rewrite IH.
Qed.

Lemma dedup_in x l : In x (dedup l) <-> In x l.
Proof.
  induction l as [|y l IH]; cbn [dedup]; [tauto|].
  destruct (mem y l) eqn:E.
  - rewrite IH. cbn [In]. split; [tauto|]. intros [<-|H]; [|exact H].
    now apply MatcherProps.mem_spec.
  - cbn [In]. now rewrite IH.
Qed.

Lemma dedup_nodup l : NoDup (dedup l).
Proof.
  induction l as [|y l IH]; cbn [dedup]; [constructor|].
  destruct (mem y l) eqn:E; [exact IH|].
  constructor; [|exact IH]. rewrite dedup_in. intros H.
  apply MatcherProps.mem_spec in H. congruence.
Qed.

Lemma matched_iff_keywords (lower : string -> string) (m : KeywordMatcher) (t : string) :
  matched (match_ lower m t) = true <-> matched_keywords (match_ lower m t) <> [].
Proof.
  unfold match_.
  destruct (falsy t); [cbn; split; [discriminate | intros H; now elim H]|].
  destruct (find _ _); [cbn; split; [discriminate | intros H; now elim H]|].
  destruct (negb _ && negb _); [cbn; split; [discriminate | intros H; now elim H]|].
  cbn [matched matched_keywords].
  destruct (add_must_hits _ _ _); cbn; split; try discriminate; try reflexivity.
  intros H; now elim H.
Qed.

Section WithLower.

Variable lower : string -> string.
Variable m : KeywordMatcher.

Lemma match_any_unfold texts :
  match_any lower m texts
  = (if truthy_opt (snd (fold_left (step lower m) texts ([], None)))
     then {| matched := false; matched_keywords := [];
             excluded_by := snd (fold_left (step lower m) texts ([], None)) |}
     else {| matched := Nat.ltb 0 (List.length (dedup (fst (fold_left (step lower m) texts ([], None)))));
             matched_keywords := dedup (fst (fold_left (step lower m) texts ([], None)));
             excluded_by := None |}).
Proof.
  unfold match_any. change (fun (acc : list string * option string) (text : string) => (fst acc ++ matched_keywords (match_ lower m text), if truthy_opt (excluded_by (match_ lower m text)) then excluded_by (match_ lower m text) else snd acc)) with (step lower m).
  now destruct (fold_left (step lower m) texts ([], None)) as [all_kw excl].
Qed.

Lemma fold_step_keywords texts acc :
  fst (fold_left (step lower m) texts acc)
  = fst acc ++ flat_map (fun t => matched_keywords (match_ lower m t)) texts.
Proof.
  revert acc. induction texts as [|t texts IH]; intros acc; cbn [fold_left flat_map].
  - now rewrite app_nil_r.
  - rewrite IH. cbn [step fst]. now rewrite app_assoc.
Qed.

(** The exclusion the loop ends with is the one of the last excluded
    text. *)
Lemma fold_step_excluded texts :
  (forallb (fun t => negb (excluded lower m t)) texts = true
   /\ snd (fold_left (step lower m) texts ([], None)) = None)
  \/ (exists pre t post,
         texts = pre ++ t :: post
         /\ excluded lower m t = true
         /\ forallb (fun u => negb (excluded lower m u)) post = true
         /\ snd (fold_left (step lower m) texts ([], None)) = excluded_by (match_ lower m t)).
Proof.
  induction texts as [|t texts IH] using rev_ind.
  - left. now split.
  - rewrite fold_left_app. cbn [fold_left]. cbn [step snd].
    fold (excluded lower m t). destruct (excluded lower m t) eqn:E.
    + right. exists texts, t, []. now repeat split.
    + destruct IH as [[H1 H2]|[pre [u [post [H1 [H2 [H3 H4]]]]]]].
      * left. split; [|exact H2]. rewrite forallb_app, H1. cbn. now rewrite E.
      * right. exists pre, u, (post ++ [t]). split; [|split; [|split]].
        -- rewrite H1, <- app_assoc. reflexivity.
        -- exact H2.
        -- rewrite forallb_app, H3. cbn. now rewrite E.
        -- exact H4.
Qed.

End WithLower.

End MatchAnyProps.

(** X5.  Whatever the text, the result of [match] is consistent:
    [matched] is true exactly when keywords are reported; a result with
    [excluded_by] set is not matched, reports nothing, and names an
    exclude keyword that occurs in the text; every reported keyword is an
    include or must-contain keyword that occurs in the text; and a
    matched text is not empty and holds no exclude keyword. *)
Theorem match_result_is_consistent
        (lower : string -> string) (m : Matcher.KeywordMatcher) (t : string) :
  let r := Matcher.match_ lower m t in
  (Matcher.matched r = true <-> Matcher.matched_keywords r <> [])
  /\ match Matcher.excluded_by r with
     | Some kw => Matcher.matched r = false /\ Matcher.matched_keywords r = []
                  /\ In kw (Matcher.exclude_keywords m)
                  /\ PyStr.contains kw (lower t) = true
     | None => True
     end
  /\ Forall (fun kw => (In kw (Matcher.include_keywords m)
                        \/ In kw (Matcher.must_contain_keywords m))
                       /\ PyStr.contains kw (lower t) = true)
            (Matcher.matched_keywords r)
  /\ (if Matcher.matched r
      then PyStr.falsy t = false
           /\ forallb (fun kw => negb (PyStr.contains kw (lower t)))
                      (Matcher.exclude_keywords m) = true
      else True).
Proof.
  intros r. split; [apply MatchAnyProps.matched_iff_keywords|].
  subst r. unfold Matcher.match_.
  destruct (PyStr.falsy t) eqn:Ht.
  { cbn. split; [exact I|]. split; [constructor|exact I]. }
  destruct (find (fun kw => PyStr.contains kw (lower t)) (Matcher.exclude_keywords m))
    as [kw|] eqn:Hf.
  { apply find_some in Hf. destruct Hf as [Hin Hkw]. cbn.
    split; [now repeat split|]. split; [constructor|exact I]. }
  destruct (negb (Nat.eqb (List.length (Matcher.must_contain_keywords m)) 0)
            && negb (existsb (fun kw => PyStr.contains kw (lower t))
                             (Matcher.must_contain_keywords m))).
  { cbn. split; [exact I|]. split; [constructor|exact I]. }
  cbn [Matcher.matched Matcher.matched_keywords Matcher.excluded_by].
  set (kws := Matcher.add_must_hits _ _ _).
  assert (Forall (fun kw => (In kw (Matcher.include_keywords m)
                             \/ In kw (Matcher.must_contain_keywords m))
                            /\ PyStr.contains kw (lower t) = true) kws) as Hall.
  { apply Forall_forall. intros kw Hin. subst kws.
    apply MatcherProps.add_must_hits_spec in Hin. rewrite filter_In in Hin. tauto. }
  split; [exact I|]. split; [exact Hall|].
  destruct kws; cbn; [exact I|]. split; [reflexivity|].
  now apply MatchAnyProps.find_none_forallb.
Qed.

(** X6.  The must-contain gate: with a non-empty must-contain list none
    of whose keywords occurs in the text, [match] reports no match and no
    keyword, whatever the include list holds. *)
Theorem must_contain_gate
        (lower : string -> string)
        (include_kw : list string) (exclude_kw : option (list string))
        (must_contain_kw : list string) (t : string) :
  must_contain_kw <> [] ->
  (forall kw, In kw must_contain_kw -> PyStr.contains (lower kw) (lower t) = false) ->
  let r := Matcher.match_ lower
             (Matcher.init lower include_kw exclude_kw (Some must_contain_kw)) t in
  Matcher.matched r = false /\ Matcher.matched_keywords r = [].
Proof.
  intros Hne Hnone r. subst r. unfold Matcher.match_.
  destruct (PyStr.falsy t); [now split|].
  destruct (find _ _); [now split|].
  cbn [Matcher.init Matcher.must_contain_keywords].
  assert (existsb (fun kw => PyStr.contains kw (lower t)) (map lower must_contain_kw)
          = false) as E.
  { destruct (existsb _ _) eqn:E; [|reflexivity].
    apply existsb_exists in E. destruct E as [k [Hin Hk]].
    apply in_map_iff in Hin. destruct Hin as [kw [<- Hin]].
    rewrite (Hnone kw Hin) in Hk. discriminate. }
  rewrite E, length_map. destruct must_contain_kw; [contradiction|]. now split.
Qed.

Lemma must_contain_gate_witness :
  let r := Matcher.match_ PyStr.lower_ascii
             (Matcher.init PyStr.lower_ascii ["光伏"] None (Some ["无人机"]))
             "某光伏电站巡检采购" in
  Matcher.matched r = false /\ Matcher.matched_keywords r = [].
Proof.
  apply (must_contain_gate PyStr.lower_ascii ["光伏"] None ["无人机"] "某光伏电站巡检采购").
  - discriminate.
  - intros kw [<-|[]]. vm_compute. reflexivity.
Defined.

(** X7.  In [match_any], an exclusion in any one text rejects the whole
    record: the result is not matched and reports no keyword, and its
    [excluded_by] is the one of the last excluded text. *)
Theorem match_any_exclusion_wins
        (lower : string -> string) (m : Matcher.KeywordMatcher)
        (texts : list string) (t : string) :
  In t texts ->
  Matcher.truthy_opt (Matcher.excluded_by (Matcher.match_ lower m t)) = true ->
  let r := Matcher.match_any lower m texts in
  Matcher.matched r = false
  /\ Matcher.matched_keywords r = []
  /\ exists pre u post,
      texts = pre ++ u :: post
      /\ Matcher.excluded_by r = Matcher.excluded_by (Matcher.match_ lower m u)
      /\ Matcher.truthy_opt (Matcher.excluded_by r) = true
      /\ Forall (fun v => Matcher.truthy_opt
                            (Matcher.excluded_by (Matcher.match_ lower m v)) = false) post.
Proof.
  intros Hin Ht r. subst r. rewrite MatchAnyProps.match_any_unfold.
  destruct (MatchAnyProps.fold_step_excluded lower m texts)
    as [[H1 _]|[pre [u [post [H1 [H2 [H3 H4]]]]]]].
  - exfalso. rewrite forallb_forall in H1. specialize (H1 t Hin).
    unfold MatchAnyLoop.excluded in H1. rewrite Ht in H1. discriminate.
  - rewrite H4. unfold MatchAnyLoop.excluded in H2. rewrite H2.
    cbn [Matcher.matched Matcher.matched_keywords Matcher.excluded_by].
    split; [reflexivity|]. split; [reflexivity|].
    exists pre, u, post. repeat split; try assumption.
    apply Forall_forall. intros v Hv. rewrite forallb_forall in H3.
    specialize (H3 v Hv). unfold MatchAnyLoop.excluded in H3.
    now apply negb_true_iff in H3.
Qed.

Lemma match_any_exclusion_wins_witness :
  let m := Matcher.init PyStr.lower_ascii ["solar"; "drone"] (Some ["survey"; "toy"]) None in
  let r := Matcher.match_any PyStr.lower_ascii m
             ["Solar drone inspection"; "aerial survey included"; "toy drone"] in
  Matcher.matched r = false
  /\ Matcher.matched_keywords r = []
  /\ exists pre u post,
      ["Solar drone inspection"; "aerial survey included"; "toy drone"] = pre ++ u :: post
      /\ Matcher.excluded_by r
         = Matcher.excluded_by (Matcher.match_ PyStr.lower_ascii m u)
      /\ Matcher.truthy_opt (Matcher.excluded_by r) = true
      /\ Forall (fun v => Matcher.truthy_opt
                            (Matcher.excluded_by (Matcher.match_ PyStr.lower_ascii m v))
                          = false) post.
Proof.
  intros m.
  apply (match_any_exclusion_wins PyStr.lower_ascii m
           ["Solar drone inspection"; "aerial survey included"; "toy drone"]
           "aerial survey included").
  - right. left. reflexivity.
  - reflexivity.
Defined.

(** X8.  When no text is excluded, [match_any] is matched exactly when
    one of the texts is, and it reports, without repetition, the keywords
    reported for the single texts. *)
Theorem match_any_unions_hits
        (lower : string -> string) (m : Matcher.KeywordMatcher) (texts : list string) :
  Forall (fun t => Matcher.truthy_opt
                     (Matcher.excluded_by (Matcher.match_ lower m t)) = false) texts ->
  let r := Matcher.match_any lower m texts in
  (Matcher.matched r = true
   <-> exists t, In t texts /\ Matcher.matched (Matcher.match_ lower m t) = true)
  /\ (forall kw, In kw (Matcher.matched_keywords r)
                 <-> exists t, In t texts
                               /\ In kw (Matcher.matched_keywords (Matcher.match_ lower m t)))
  /\ NoDup (Matcher.matched_keywords r)
  /\ Matcher.excluded_by r = None.
Proof.
  intros Hall r. subst r. rewrite MatchAnyProps.match_any_unfold.
  destruct (MatchAnyProps.fold_step_excluded lower m texts)
    as [[_ H2]|[pre [u [post [H1 [H2 _]]]]]].
  2:{ exfalso. rewrite Forall_forall in Hall.
      assert (In u texts) as Hu by (rewrite H1; apply in_or_app; right; now left).
      specialize (Hall u Hu). unfold MatchAnyLoop.excluded in H2. congruence. }
  rewrite H2. cbn [Matcher.truthy_opt Matcher.matched Matcher.matched_keywords
                     Matcher.excluded_by].
  rewrite MatchAnyProps.fold_step_keywords. cbn [fst app].
  set (all := flat_map _ texts).
  assert (forall kw, In kw (Matcher.dedup all)
                     <-> exists t, In t texts
                                   /\ In kw (Matcher.matched_keywords
                                               (Matcher.match_ lower m t))) as Hkw.
  { intros kw. rewrite MatchAnyProps.dedup_in. subst all. apply in_flat_map. }
  split; [|split; [exact Hkw|split; [apply MatchAnyProps.dedup_nodup|reflexivity]]].
  split.
  - intros H. destruct (Matcher.dedup all) as [|kw l] eqn:E; [discriminate|].
    destruct (proj1 (Hkw kw) (or_introl eq_refl)) as [t [Ht Hk]].
    exists t. split; [exact Ht|].
    apply MatchAnyProps.matched_iff_keywords. intros Hnil.
    rewrite Hnil in Hk. contradiction.
  - intros [t [Ht Hm]].
    destruct (Matcher.matched_keywords (Matcher.match_ lower m t)) as [|kw l] eqn:E.
    + exfalso. apply MatchAnyProps.matched_iff_keywords in Hm. now apply Hm.
    + assert (In kw (Matcher.dedup all)) as Hin.
      { apply Hkw. exists t. split; [exact Ht|]. rewrite E. now left. }
      now destruct (Matcher.dedup all).
Qed.

Lemma match_any_unions_hits_witness :
  let m := Matcher.init PyStr.lower_ascii ["solar"; "drone"] (Some ["toy"]) None in
  let texts := ["Solar drone inspection"; "Drone survey"; ""] in
  let r := Matcher.match_any PyStr.lower_ascii m texts in
  (Matcher.matched r = true
   <-> exists t, In t texts
                 /\ Matcher.matched (Matcher.match_ PyStr.lower_ascii m t) = true)
  /\ (forall kw, In kw (Matcher.matched_keywords r)
                 <-> exists t, In t texts
                               /\ In kw (Matcher.matched_keywords
                                           (Matcher.match_ PyStr.lower_ascii m t)))
  /\ NoDup (Matcher.matched_keywords r)
  /\ Matcher.excluded_by r = None.
Proof.
  intros m texts.
  apply (match_any_unions_hits PyStr.lower_ascii m texts).
  repeat constructor.
Defined.

(* ===================================================================== *)
(** ** AI guard: which answer decides                                    *)
(* ===================================================================== *)

Module RetryProps.

Import PyStr Guard.

Section Environment.

Variable post : nat -> post_result.
Variable interpret : string -> interpretation.

(** Transient failures before the last attempt are skipped. *)
Lemma retry_loop_prefix raise_on_error pre rest :
  (forall i, In i pre -> transient (post i) = true /\ i < max_retries - 1) ->
  retry_loop post interpret raise_on_error (pre ++ rest)
  = retry_loop post interpret raise_on_error rest
  /\ posts_made post (pre ++ rest) = List.length pre + posts_made post rest.
Proof.
  induction pre as [|a pre IH]; intros H; [now split|].
  destruct (H a (or_introl eq_refl)) as [Ht Hlt].
  destruct IH as [IH1 IH2]; [intros i Hi; apply H; now right|].
  apply Nat.ltb_lt in Hlt.
  cbn [app retry_loop posts_made List.length]. unfold on_transient.
  destruct (post a); try discriminate; rewrite Hlt, ?IH1, ?IH2; now split.
Qed.

Lemma seq_split_at k n :
  k < n -> seq 0 n = seq 0 k ++ k :: seq (S k) (n - S k).
Proof.
  intros H. replace n with (k + S (n - S k)) at 1 by lia.
  rewrite seq_app. reflexivity.
Qed.

(** With [raise_on_error] a verdict only comes from a 200 answer. *)
Lemma retry_loop_raise a n :
  a + n = max_retries -> 0 < n ->
  (forall i, i < a -> transient (post i) = true) ->
  match retry_loop post interpret true (seq a n) with
  | Return b reason =>
      exists k text, k < max_retries
                     /\ (forall i, i < k -> transient (post i) = true)
                     /\ post k = Response 200 text
                     /\ interpret text = Verdict b reason
  | Raise _ => True
  | ReturnNone => False
  end.
Proof.
  revert a. induction n as [|n IH]; intros a Ha Hn Hpre; [lia|].
  cbn [seq retry_loop]. unfold on_transient, on_exception.
  assert (forall msg, transient (post a) = true ->
            match (if Nat.ltb a (max_retries - 1)
                   then retry_loop post interpret true (seq (S a) n)
                   else Raise msg) with
            | Return b reason =>
                exists k text, k < max_retries
                               /\ (forall i, i < k -> transient (post i) = true)
                               /\ post k = Response 200 text
                               /\ interpret text = Verdict b reason
            | Raise _ => True
            | ReturnNone => False
            end) as Hstep.
  { intros msg Ht. destruct (Nat.ltb a (max_retries - 1)) eqn:E; [|exact I].
    apply Nat.ltb_lt in E. apply IH; [lia|lia|].
    intros i Hi. destruct (Nat.eq_dec i a) as [->|]; [exact Ht|apply Hpre; lia]. }
  destruct (post a) as [msg|msg|msg|code text] eqn:Ep.
  - specialize (Hstep msg eq_refl). destruct (Nat.ltb a (max_retries - 1)); exact Hstep.
  - specialize (Hstep msg eq_refl). destruct (Nat.ltb a (max_retries - 1)); exact Hstep.
  - exact I.
  - destruct (Nat.eqb code 200) eqn:Ec; cbn [negb]; [|exact I].
    apply Nat.eqb_eq in Ec. subst code.
    destruct (interpret text) as [b reason|msg] eqn:Ei; [|exact I].
    exists a, text. repeat split; try assumption. lia.
Qed.

End Environment.

End RetryProps.

(** X9.  Connection errors and timeouts are the only failures that are
    retried: when the first [k] posts fail that way and post [k] (still
    within the three attempts) does not, exactly [k + 1] posts are made
    and post [k] alone decides the result: a 200 answer gives its verdict
    or the handler of the decoding failure, any other status or exception
    goes to the handler at once. *)
Theorem first_lasting_answer_decides
        (post : nat -> Guard.post_result)
        (interpret : string -> Guard.interpretation)
        (g : Guard.AIGuard) (title content : string)
        (raise_on_error : bool) (k : nat) :
  Guard.enabled g = true ->
  PyStr.falsy (Guard.api_key g) = false ->
  k < Guard.max_retries ->
  (forall i, i < k -> Guard.transient (post i) = true) ->
  Guard.transient (post k) = false ->
  let result := Guard.check_relevance post interpret true g title content raise_on_error in
  Guard.posts_made post (seq 0 Guard.max_retries) = S k
  /\ match post k with
     | Guard.Response status_code text =>
         if Nat.eqb status_code 200
         then match interpret text with
              | Guard.Verdict is_relevant reason =>
                  result = Guard.Return is_relevant reason
              | Guard.Fails msg => result = Guard.on_exception raise_on_error msg
              end
         else result = Guard.on_exception raise_on_error
                         ("HTTP " ++ PyStr.str_of_nat status_code ++ ": "
                          ++ PyStr.slice_to 200 text)%string
     | Guard.OtherException msg => result = Guard.on_exception raise_on_error msg
     | Guard.ConnectionError _ | Guard.Timeout _ => False
     end.
Proof.
  intros He Hk Hlt Hpre Hlast result. subst result.
  unfold Guard.check_relevance. rewrite He, Hk. cbn [negb].
  rewrite (RetryProps.seq_split_at k Guard.max_retries Hlt).
  destruct (RetryProps.retry_loop_prefix post interpret raise_on_error (seq 0 k)
              (k :: seq (S k) (Guard.max_retries - S k))) as [H1 H2].
  { intros i Hi. apply in_seq in Hi. split; [apply Hpre; lia|lia]. }
  rewrite H1, H2, length_seq. cbn [Guard.retry_loop Guard.posts_made].
  destruct (post k) as [msg|msg|msg|code text]; try discriminate.
  - split; [lia|reflexivity].
  - split; [lia|]. destruct (Nat.eqb code 200); cbn [negb]; [|reflexivity].
    destruct (interpret text); reflexivity.
Qed.

Lemma first_lasting_answer_decides_witness :
  let post := fun n => match n with
                       | 0 => Guard.Timeout "timed out"
                       | _ => Guard.Response 502 "Bad Gateway"
                       end in
  let g := {| Guard.enabled := true; Guard.api_key := "sk-1"; Guard.base_url := "";
              Guard.model := ""; Guard.custom_prompt := "" |} in
  Guard.posts_made post (seq 0 Guard.max_retries) = 2
  /\ Guard.check_relevance post (fun _ => Guard.Fails "") true g "t" "" false
     = Guard.Return true "AI请求异常: HTTP 502: Bad Gateway".
Proof.
  intros post g.
  apply (first_lasting_answer_decides post (fun _ => Guard.Fails "") g "t" "" false 1).
  - reflexivity.
  - reflexivity.
  - unfold Guard.max_retries. lia.
  - intros i Hi. assert (i = 0) as -> by lia. reflexivity.
  - reflexivity.
Defined.

(** X10.  With [raise_on_error=True] the guard never invents a verdict
    once a request is due: the call either raises, or returns the verdict
    decoded from a 200 answer that was preceded by transient failures
    only; apart from that it returns only through the three early exits
    (disabled, no key, [requests] missing), and it never falls out of the
    loop without a result. *)
Theorem raise_on_error_returns_only_decoded_verdicts
        (post : nat -> Guard.post_result)
        (interpret : string -> Guard.interpretation)
        (requests_installed : bool)
        (g : Guard.AIGuard) (title content : string) :
  match Guard.check_relevance post interpret requests_installed g title content true with
  | Guard.Return is_relevant reason =>
      (is_relevant = true
       /\ (Guard.enabled g = false \/ PyStr.falsy (Guard.api_key g) = true
           \/ requests_installed = false))
      \/ (Guard.enabled g = true /\ PyStr.falsy (Guard.api_key g) = false
          /\ requests_installed = true
          /\ exists k text,
              k < Guard.max_retries
              /\ (forall i, i < k -> Guard.transient (post i) = true)
              /\ post k = Guard.Response 200 text
              /\ interpret text = Guard.Verdict is_relevant reason)
  | Guard.Raise _ =>
      Guard.enabled g = true /\ PyStr.falsy (Guard.api_key g) = false
      /\ requests_installed = true
  | Guard.ReturnNone => False
  end.
Proof.
  unfold Guard.check_relevance.
  destruct (Guard.enabled g); cbn [negb]; [|left; auto].
  destruct (PyStr.falsy (Guard.api_key g)); [left; auto|].
  destruct requests_installed; cbn [negb]; [|left; auto].
  pose proof (RetryProps.retry_loop_raise post interpret 0 Guard.max_retries) as H.
  destruct (Guard.retry_loop post interpret true (seq 0 Guard.max_retries))
    as [b reason| |msg].
  - right. repeat split. apply H; [reflexivity|unfold Guard.max_retries; lia|lia].
  - apply H; [reflexivity|unfold Guard.max_retries; lia|lia].
  - now repeat split.
Qed.

(** X11.  A guard configured without [enable: True] (no configuration,
    an empty one, or one whose [enable] key is missing or false) lets
    every record pass: [check_relevance] answers [(True, "AI未启用")]
    whatever the title, the network or [raise_on_error]. *)
Theorem unconfigured_guard_lets_everything_pass
        (post : nat -> Guard.post_result)
        (interpret : string -> Guard.interpretation)
        (requests_installed : bool)
        (g : Guard.AIGuard) (config : option Guard.Config)
        (title content : string) (raise_on_error : bool) :
  match config with
  | Some c => Guard.cfg_enable c <> Some true
  | None => True
  end ->
  Guard.check_relevance post interpret requests_installed
    (Guard.update_config g config) title content raise_on_error
  = Guard.Return true "AI未启用".
Proof.
  intros H. unfold Guard.check_relevance.
  assert (Guard.enabled (Guard.update_config g config) = false) as ->; [|reflexivity].
  unfold Guard.update_config. destruct config as [c|]; [|reflexivity].
  destruct (Guard.falsy_config (Some c)); [reflexivity|].
  cbn [Guard.enabled]. destruct (Guard.cfg_enable c) as [[|]|]; try reflexivity.
  now elim H.
Qed.

Lemma unconfigured_guard_lets_everything_pass_witness :
  Guard.check_relevance (fun _ => Guard.Timeout "") (fun _ => Guard.Fails "") true
    (Guard.update_config
       {| Guard.enabled := true; Guard.api_key := "sk-1"; Guard.base_url := "";
          Guard.model := ""; Guard.custom_prompt := "" |}
       (Some {| Guard.cfg_api_key := Some "sk-2"; Guard.cfg_base_url := None;
                Guard.cfg_model := None; Guard.cfg_enable := None;
                Guard.cfg_prompt := None |}))
    "无人机巡检" "" true
  = Guard.Return true "AI未启用".
Proof.
  apply (unconfigured_guard_lets_everything_pass
           (fun _ => Guard.Timeout "") (fun _ => Guard.Fails "") true).
  cbn. discriminate.
Defined.

(* ===================================================================== *)
(** ** Crawler: what a fetch costs and what it returns                   *)
(* ===================================================================== *)

Module FetchProps.

Import PyStr Crawler Fetching.

Lemma backoff_total_app t1 t2 :
  backoff_total (t1 ++ t2) = backoff_total t1 + backoff_total t2.
Proof. unfold backoff_total. now rewrite map_app, list_sum_app. Qed.

Lemma gets_app t1 t2 : gets (t1 ++ t2) = gets t1 ++ gets t2.
Proof. unfold gets. now rewrite flat_map_app. Qed.

Section Environment.

Variable http_get : nat -> string -> get_result.

(** The trace, the requests and the backoff of the attempts [a], .. of
    one [fetch]. *)
Lemma fetch_loop_trace c url n a w :
  a + n = max_retries c ->
  exists t,
    trace (snd (fetch_loop http_get c url (seq a n) w)) = trace w ++ t
    /\ gets t = repeat url (requests (snd (fetch_loop http_get c url (seq a n) w))
                            - requests w)
    /\ requests w <= requests (snd (fetch_loop http_get c url (seq a n) w))
    /\ requests (snd (fetch_loop http_get c url (seq a n) w)) <= requests w + n
    /\ (0 < n -> requests w < requests (snd (fetch_loop http_get c url (seq a n) w)))
    /\ backoff_total t + 2 ^ (Nat.min (a + 1) (max_retries c)) <= 2 ^ max_retries c.
Proof.
  revert a w. induction n as [|n IH]; intros a w Ha.
  { cbn [seq fetch_loop snd]. exists []. rewrite app_nil_r, Nat.sub_diag.
    replace (Nat.min (a + 1) (max_retries c)) with (max_retries c) by lia.
    cbn. repeat split; lia. }
  assert (2 ^ (a + 1) <= 2 ^ max_retries c) as Hpow
      by (apply Nat.pow_le_mono_r; lia).
  assert (Nat.min (a + 1) (max_retries c) = a + 1) as Hmin by lia.
  assert (forall w1, trace w1 = trace w ++ [EvGet url] ->
                     requests w1 = S (requests w) ->
            let w' := snd (fetch_loop http_get c url (seq (S a) n)
                             (if Nat.ltb a (max_retries c - 1)
                              then emit (EvBackoff (2 ^ (a + 1))) w1 else w1)) in
            exists t,
              trace w' = trace w ++ t
              /\ gets t = repeat url (requests w' - requests w)
              /\ requests w <= requests w'
              /\ requests w' <= requests w + S n
              /\ (0 < S n -> requests w < requests w')
              /\ backoff_total t + 2 ^ (Nat.min (a + 1) (max_retries c))
                 <= 2 ^ max_retries c) as Hretry.
  { intros w1 Ht Hr.
    destruct (IH (S a) (if Nat.ltb a (max_retries c - 1)
                        then emit (EvBackoff (2 ^ (a + 1))) w1 else w1))
      as [t2 [H1 [H2 [H3 [H4 [_ H6]]]]]]; [lia|].
    cbv zeta.
    set (w' := snd (fetch_loop http_get c url (seq (S a) n) _)) in *.
    destruct (Nat.ltb a (max_retries c - 1)) eqn:E.
    - apply Nat.ltb_lt in E. cbn [emit trace requests] in H1, H2, H3, H4.
      rewrite Hr in H2, H3, H4. rewrite Ht, <- !app_assoc in H1. cbn [app] in H1.
      exists (EvGet url :: EvBackoff (2 ^ (a + 1)) :: t2).
      split; [exact H1|].
      split; [cbn [gets flat_map app]; fold (gets t2); rewrite H2;
              replace (requests w' - requests w) with (S (requests w' - S (requests w)))
                by lia; reflexivity|].
      split; [lia|]. split; [lia|]. split; [lia|].
      replace (Nat.min (S a + 1) (max_retries c)) with (S (a + 1)) in H6 by lia.
      rewrite Nat.pow_succ_r' in H6. rewrite Hmin.
      change (backoff_total (EvGet url :: EvBackoff (2 ^ (a + 1)) :: t2))
        with (0 + (2 ^ (a + 1) + backoff_total t2)). lia.
    - apply Nat.ltb_ge in E. rewrite Hr in H2, H3, H4.
      rewrite Ht, <- app_assoc in H1. cbn [app] in H1.
      exists (EvGet url :: t2).
      split; [exact H1|].
      split; [cbn [gets flat_map app]; fold (gets t2); rewrite H2;
              replace (requests w' - requests w) with (S (requests w' - S (requests w)))
                by lia; reflexivity|].
      split; [lia|]. split; [lia|]. split; [lia|].
      replace (Nat.min (S a + 1) (max_retries c)) with (max_retries c) in H6 by lia.
      replace (Nat.min (a + 1) (max_retries c)) with (max_retries c) by lia.
      change (backoff_total (EvGet url :: t2)) with (0 + backoff_total t2). lia. }
  cbn [seq fetch_loop]. unfold attempt_get, raise_for_status.
  destruct (http_get (requests w) url) as [r|e].
  - destruct (ok r) eqn:Eok.
    + cbn [snd emit count_request trace requests]. exists [EvGet url; EvDelay].
      rewrite <- app_assoc. rewrite Hmin.
      replace (S (requests w) - requests w) with 1 by lia.
      cbn. repeat split; lia.
    + cbn [gives_up error_status]. rewrite Eok. cbn [is_denied].
      apply Hretry; reflexivity.
  - destruct (gives_up e).
    + cbn [snd count_request trace requests]. exists [EvGet url]. rewrite Hmin.
      replace (S (requests w) - requests w) with 1 by lia.
      cbn. repeat split; lia.
    + apply Hretry; reflexivity.
Qed.

(** What [fetch] returns when no exception of the transport makes it
    give up. *)
Lemma fetch_loop_first_served c url todo w :
  (forall n e, http_get n url = Raised e -> gives_up e = false) ->
  match first_served http_get url (requests w) (List.length todo) with
  | Some (k, html) =>
      fst (fetch_loop http_get c url todo w) = Some html
      /\ requests (snd (fetch_loop http_get c url todo w)) = requests w + S k
  | None =>
      fst (fetch_loop http_get c url todo w) = None
      /\ requests (snd (fetch_loop http_get c url todo w))
         = requests w + List.length todo
  end.
Proof.
  intros Hno. revert w. induction todo as [|a todo IH]; intros w.
  { cbn. split; [reflexivity|lia]. }
  cbn [List.length first_served fetch_loop]. unfold attempt_get, raise_for_status, served.
  assert (forall w1, requests w1 = S (requests w) ->
            match
              match first_served http_get url (S (requests w)) (List.length todo) with
              | Some (k, html) => Some (S k, html)
              | None => None
              end
            with
            | Some (k, html) =>
                fst (fetch_loop http_get c url todo w1) = Some html
                /\ requests (snd (fetch_loop http_get c url todo w1)) = requests w + S k
            | None =>
                fst (fetch_loop http_get c url todo w1) = None
                /\ requests (snd (fetch_loop http_get c url todo w1))
                   = requests w + S (List.length todo)
            end) as Hretry.
  { intros w1 Hr. specialize (IH w1). rewrite Hr in IH.
    destruct (first_served http_get url (S (requests w)) (List.length todo))
      as [[k html]|]; destruct IH as [IH1 IH2]; (split; [exact IH1|lia]). }
  destruct (http_get (requests w) url) as [r|e] eqn:Eg.
  - destruct (ok r) eqn:Eok.
    + cbn. split; [reflexivity|lia].
    + cbn [gives_up error_status]. rewrite Eok. cbn [is_denied].
      destruct (Nat.ltb a (max_retries c - 1)); apply Hretry; reflexivity.
  - rewrite (Hno _ _ Eg).
    destruct (Nat.ltb a (max_retries c - 1)); apply Hretry; reflexivity.
Qed.

(** The cost of one [fetch]. *)
Lemma fetch_effort c url w :
  exists t,
    trace (snd (fetch http_get c url w)) = trace w ++ t
    /\ gets t = repeat url (requests (snd (fetch http_get c url w)) - requests w)
    /\ requests (snd (fetch http_get c url w)) <= requests w + max_retries c
    /\ (if Nat.ltb 0 (max_retries c)
        then requests w < requests (snd (fetch http_get c url w))
        else requests (snd (fetch http_get c url w)) = requests w)
    /\ backoff_total t <= 2 ^ max_retries c - 2
    /\ polls (snd (fetch http_get c url w)) = polls w.
Proof.
  unfold fetch.
  destruct (fetch_loop_trace c url (max_retries c) 0 w eq_refl)
    as [t [H1 [H2 [H3 [H4 [H5 H6]]]]]].
  exists t. split; [exact H1|]. split; [exact H2|]. split; [exact H4|].
  split; [|split; [|apply CrawlerProps.fetch_loop_polls]].
  - destruct (Nat.ltb 0 (max_retries c)) eqn:E.
    + apply Nat.ltb_lt in E. now apply H5.
    + apply Nat.ltb_ge in E. lia.
  - destruct (max_retries c) as [|m]; [cbn in H6; cbn; lia|].
    replace (Nat.min (0 + 1) (S m)) with 1 in H6 by lia.
    change (2 ^ 1) with 2 in H6. lia.
Qed.

End Environment.

End FetchProps.

(** X12.  Barring an exception on which it gives up, [fetch] returns the
    page of the first of its [max_retries] answers that is a response
    with a status below 400, having made exactly the requests up to that
    one; when none of them is, it returns [None] after [max_retries]
    requests.  An error status is never a reason to stop early. *)
Theorem fetch_returns_the_first_served_page
        (http_get : nat -> string -> Crawler.get_result)
        (c : Crawler.BaseCrawler) (url : string) (w : Crawler.world) :
  (forall n e, http_get n url = Crawler.Raised e -> Crawler.gives_up e = false) ->
  match Fetching.first_served http_get url (Crawler.requests w) (Crawler.max_retries c) with
  | Some (k, html) =>
      fst (Crawler.fetch http_get c url w) = Some html
      /\ Crawler.requests (snd (Crawler.fetch http_get c url w))
         = Crawler.requests w + S k
  | None =>
      fst (Crawler.fetch http_get c url w) = None
      /\ Crawler.requests (snd (Crawler.fetch http_get c url w))
         = Crawler.requests w + Crawler.max_retries c
  end.
Proof.
  intros Hno. unfold Crawler.fetch.
  pose proof (FetchProps.fetch_loop_first_served http_get c url
                (seq 0 (Crawler.max_retries c)) w Hno) as H.
  rewrite length_seq in H. exact H.
Qed.

(** X13.  Whatever the network does, one [fetch] makes at least one and
    at most [max_retries] requests, all of them to its url, sleeps at
    most [2 ^ max_retries - 2] seconds of backoff (jitter apart), only
    adds to the trace, and never polls the stop event. *)
Theorem fetch_effort_is_bounded
        (http_get : nat -> string -> Crawler.get_result)
        (c : Crawler.BaseCrawler) (url : string) (w : Crawler.world) :
  let w' := snd (Crawler.fetch http_get c url w) in
  exists t,
    Crawler.trace w' = Crawler.trace w ++ t
    /\ Fetching.gets t = repeat url (Crawler.requests w' - Crawler.requests w)
    /\ Crawler.requests w' <= Crawler.requests w + Crawler.max_retries c
    /\ (if Nat.ltb 0 (Crawler.max_retries c)
        then Crawler.requests w < Crawler.requests w'
        else Crawler.requests w' = Crawler.requests w)
    /\ Fetching.backoff_total t <= 2 ^ Crawler.max_retries c - 2
    /\ Crawler.polls w' = Crawler.polls w.
Proof.
  intros w'. subst w'. unfold Crawler.fetch.
  destruct (FetchProps.fetch_loop_trace http_get c url (Crawler.max_retries c) 0 w
              eq_refl) as [t [H1 [H2 [H3 [H4 [H5 H6]]]]]].
  exists t. split; [exact H1|]. split; [exact H2|]. split; [exact H4|].
  split; [|split; [|apply CrawlerProps.fetch_loop_polls]].
  - destruct (Nat.ltb 0 (Crawler.max_retries c)) eqn:E.
    + apply Nat.ltb_lt in E. now apply H5.
    + apply Nat.ltb_ge in E. lia.
  - destruct (Crawler.max_retries c) as [|m]; [cbn in H6; cbn; lia|].
    replace (Nat.min (0 + 1) (S m)) with 1 in H6 by lia.
    change (2 ^ 1) with 2 in H6. lia.
Qed.

Lemma fetch_returns_the_first_served_page_witness :
  let http_get := fun (n : nat) (_ : string) =>
                    match n with
                    | 0 => Crawler.Raised Crawler.Timeout
                    | 1 => Crawler.Got {| Crawler.status_code := 503;
                                          Crawler.text := "busy" |}
                    | _ => Crawler.Got {| Crawler.status_code := 200;
                                          Crawler.text := "<html>list</html>" |}
                    end in
  let c := {| Crawler.name := "demo"; Crawler.max_retries := 3;
              Crawler.get_list_urls := ["https://example.com/list"];
              Crawler.parse := fun _ => Some [] |} in
  fst (Crawler.fetch http_get c "https://example.com/list" Crawler.start)
  = Some "<html>list</html>"
  /\ Crawler.requests (snd (Crawler.fetch http_get c "https://example.com/list"
                              Crawler.start)) = 3.
Proof.
  intros http_get c.
  apply (fetch_returns_the_first_served_page http_get c "https://example.com/list"
           Crawler.start).
  intros [|[|n]] e H; inversion H; reflexivity.
Defined.

Module CrawlEffortProps.

Import PyStr Crawler Fetching.

Section Environment.

Variable lower : string -> string.
Variable http_get : nat -> string -> get_result.

(** The cost of the loop of [crawl] over [urls]. *)
Lemma crawl_loop_effort c stop_event urls all_bids failed_count w :
  exists t,
    trace (snd (crawl_loop lower http_get c stop_event urls all_bids failed_count w))
    = trace w ++ t
    /\ Forall (fun u => In u urls) (gets t)
    /\ List.length (gets t)
       = requests (snd (crawl_loop lower http_get c stop_event urls all_bids
                          failed_count w)) - requests w
    /\ requests w
       <= requests (snd (crawl_loop lower http_get c stop_event urls all_bids
                           failed_count w))
    /\ requests (snd (crawl_loop lower http_get c stop_event urls all_bids
                        failed_count w))
       <= requests w + List.length urls * max_retries c
    /\ polls w
       <= polls (snd (crawl_loop lower http_get c stop_event urls all_bids
                        failed_count w))
    /\ match stop_event with
       | None => polls (snd (crawl_loop lower http_get c stop_event urls all_bids
                               failed_count w)) = polls w
       | Some _ => polls (snd (crawl_loop lower http_get c stop_event urls all_bids
                                 failed_count w)) <= polls w + List.length urls
       end
    /\ backoff_total t <= List.length urls * (2 ^ max_retries c - 2).
Proof.
  revert all_bids failed_count w.
  induction urls as [|url rest IH]; intros all_bids failed_count w.
  { cbn [crawl_loop snd]. exists []. rewrite app_nil_r, Nat.sub_diag.
    cbn. repeat split; try lia; try constructor. destruct stop_event; lia. }
  set (budget := 2 ^ max_retries c - 2) in *.
  pose (P := fun w' : world =>
    exists t,
      trace w' = trace w ++ t
      /\ Forall (fun u => In u (url :: rest)) (gets t)
      /\ List.length (gets t) = requests w' - requests w
      /\ requests w <= requests w'
      /\ requests w' <= requests w + List.length (url :: rest) * max_retries c
      /\ polls w <= polls w'
      /\ match stop_event with
         | None => polls w' = polls w
         | Some _ => polls w' <= polls w + List.length (url :: rest)
         end
      /\ backoff_total t <= List.length (url :: rest) * budget).
  change (P (snd (crawl_loop lower http_get c stop_event (url :: rest) all_bids
                    failed_count w))).
  assert (forall ab fc w2 t2,
             trace w2 = trace w ++ t2 ->
             gets t2 = repeat url (requests w2 - requests w) ->
             requests w <= requests w2 ->
             requests w2 <= requests w + max_retries c ->
             polls w <= polls w2 ->
             match stop_event with
             | None => polls w2 = polls w
             | Some _ => polls w2 <= polls w + 1
             end ->
             backoff_total t2 <= budget ->
             P (snd (crawl_loop lower http_get c stop_event rest ab fc w2))) as Hcont.
  { intros ab fc w2 t2 T1 T2 T3 T4 T5 T6 T7.
    destruct (IH ab fc w2) as [t3 [H1 [H2 [H3 [H4 [H5 [H6 [H7 H8]]]]]]]].
    exists (t2 ++ t3). rewrite FetchProps.gets_app, FetchProps.backoff_total_app, T2.
    split; [rewrite H1, T1, app_assoc; reflexivity|].
    split.
    { apply Forall_app. split.
      - apply Forall_forall. intros u Hu. apply repeat_spec in Hu. now left.
      - revert H2. apply Forall_impl. intros u Hu. now right. }
    split; [rewrite length_app, repeat_length; lia|].
    split; [lia|]. cbn [List.length Nat.mul].
    split; [lia|]. split; [lia|].
    split; [destruct stop_event; lia|lia]. }
  assert (forall w0 tp,
             trace w0 = trace w ++ tp -> gets tp = [] -> backoff_total tp = 0 ->
             requests w0 = requests w ->
             polls w <= polls w0 ->
             match stop_event with
             | None => polls w0 = polls w
             | Some _ => polls w0 <= polls w + 1
             end ->
             P (snd (let '(html, w1) := fetch http_get c url w0 in
                     match html with
                     | Some page =>
                         if truthy page then
                           if _is_blocked lower page
                           then crawl_loop lower http_get c stop_event rest all_bids
                                  (S failed_count) w1
                           else
                             let w2 := emit (EvParse page) w1 in
                             match parse c page with
                             | Some bids =>
                                 crawl_loop lower http_get c stop_event rest
                                   (all_bids ++ bids) failed_count w2
                             | None =>
                                 crawl_loop lower http_get c stop_event rest all_bids
                                   (S failed_count) w2
                             end
                         else crawl_loop lower http_get c stop_event rest all_bids
                                (S failed_count) w1
                     | None => crawl_loop lower http_get c stop_event rest all_bids
                                 (S failed_count) w1
                     end))) as Hfetch.
  { intros w0 tp T1 T2 T3 T4 T5 T6.
    destruct (FetchProps.fetch_effort http_get c url w0)
      as [tf [F1 [F2 [F3 [F4 [F5 F6]]]]]].
    assert (requests w0 <= requests (snd (fetch http_get c url w0))) as F7.
    { destruct (Nat.ltb 0 (max_retries c)); lia. }
    destruct (fetch http_get c url w0) as [html w1]. cbn [snd] in F1, F2, F3, F5, F6, F7.
    clear F4.
    assert (P (snd (crawl_loop lower http_get c stop_event rest all_bids
                      (S failed_count) w1))) as Hfail.
    { apply (Hcont _ _ _ (tp ++ tf)); try lia.
      - rewrite F1, T1, app_assoc. reflexivity.
      - rewrite FetchProps.gets_app, T2, F2, T4. reflexivity.
      - rewrite F6. exact T6.
      - rewrite FetchProps.backoff_total_app. fold budget in F5. lia. }
    destruct html as [page|]; [|exact Hfail].
    destruct (truthy page); [|exact Hfail].
    destruct (_is_blocked lower page); [exact Hfail|].
    cbv zeta.
    destruct (parse c page);
      (apply (Hcont _ _ _ (tp ++ tf ++ [EvParse page]));
       cbn [emit trace requests polls]; try lia;
       [ rewrite F1, T1, <- !app_assoc; reflexivity
       | rewrite !FetchProps.gets_app, T2, F2, T4; cbn; now rewrite app_nil_r
       | rewrite F6; exact T6
       | rewrite !FetchProps.backoff_total_app; fold budget in F5;
         change (backoff_total [EvParse page]) with 0; lia ]). }
  cbn [crawl_loop]. unfold check_stop.
  destruct stop_event as [is_set|].
  - destruct (is_set (polls w)) eqn:Eb.
    + cbn [snd]. exists [EvPoll true]. cbn [count_poll trace requests polls].
      rewrite Nat.sub_diag. cbn. repeat split; try lia; constructor.
    + apply (Hfetch _ [EvPoll false]); cbn [count_poll trace requests polls];
        try reflexivity; lia.
  - apply (Hfetch _ []); try reflexivity; try lia. now rewrite app_nil_r.
Qed.

End Environment.

Lemma lower_ascii_app a b :
  lower_ascii (a ++ b) = (lower_ascii a ++ lower_ascii b)%string.
Proof. induction a as [|ch a IH]; cbn; [reflexivity|now rewrite IH]. Qed.

End CrawlEffortProps.

(** X14.  A crawl of [n] list urls makes at most [n * max_retries]
    requests, each of them to one of its list urls, sleeps at most
    [n * (2 ^ max_retries - 2)] seconds of backoff, and polls the stop
    event at most [n] times (never, when no event is passed); it only
    adds to what was done before. *)
Theorem crawl_effort_is_bounded
        (lower : string -> string)
        (http_get : nat -> string -> Crawler.get_result)
        (c : Crawler.BaseCrawler) (stop_event : option (nat -> bool))
        (w : Crawler.world) :
  let w' := snd (Crawler.crawl lower http_get c stop_event w) in
  let urls := Crawler.get_list_urls c in
  exists t,
    Crawler.trace w' = Crawler.trace w ++ t
    /\ Forall (fun u => In u urls) (Fetching.gets t)
    /\ List.length (Fetching.gets t) = Crawler.requests w' - Crawler.requests w
    /\ Crawler.requests w' <= Crawler.requests w + List.length urls * Crawler.max_retries c
    /\ match stop_event with
       | None => Crawler.polls w' = Crawler.polls w
       | Some _ => Crawler.polls w' <= Crawler.polls w + List.length urls
       end
    /\ Fetching.backoff_total t <= List.length urls * (2 ^ Crawler.max_retries c - 2).
Proof.
  intros w' urls. subst w' urls. unfold Crawler.crawl.
  destruct (CrawlEffortProps.crawl_loop_effort lower http_get c stop_event
              (Crawler.get_list_urls c) [] 0 w)
    as [t [H1 [H2 [H3 [H4 [H5 [H6 [H7 H8]]]]]]]].
  destruct (Crawler.crawl_loop lower http_get c stop_event (Crawler.get_list_urls c)
              [] 0 w) as [[all_bids failed_count] w'].
  cbn [snd] in *.
  exists t.
  destruct (Nat.eqb failed_count (List.length (Crawler.get_list_urls c))
            && Nat.ltb 0 (List.length (Crawler.get_list_urls c)));
    cbn [snd]; repeat split; assumption.
Qed.

(** X15.  [_is_blocked] finds a sign wherever it stands in the page and
    however its ASCII letters are cased: a page that holds, anywhere, a
    text equal to one of the ten signs up to the case of ASCII letters is
    reported as blocked. *)
Theorem blocked_sign_is_found_anywhere
        (sign s pre post : string) :
  In sign Crawler.blocked_signs ->
  PyStr.lower_ascii s = PyStr.lower_ascii sign ->
  Crawler._is_blocked PyStr.lower_ascii (pre ++ s ++ post) = true.
Proof.
  intros Hin Hs. unfold Crawler._is_blocked. apply existsb_exists.
  exists sign. split; [exact Hin|]. apply MatcherProps.contains_spec.
  exists (PyStr.lower_ascii pre), (PyStr.lower_ascii post).
  now rewrite !CrawlEffortProps.lower_ascii_app, Hs.
Qed.

Lemma blocked_sign_is_found_anywhere_witness :
  Crawler._is_blocked PyStr.lower_ascii
    ("<html><h1>" ++ "ACCESS denied" ++ "</h1></html>") = true.
Proof.
  apply (blocked_sign_is_found_anywhere "Access Denied" "ACCESS denied"
           "<html><h1>" "</h1></html>").
  - unfold Crawler.blocked_signs. do 6 right. left. reflexivity.
  - reflexivity.
Defined.

(* ===================================================================== *)
(** ** The command-line monitor: one round                               *)
(* ===================================================================== *)

Module MainProps.

Import Storage Marking Main.

Lemma fold_left_invariant {A B} (P : A -> Prop) (f : A -> B -> A) l a :
  P a -> (forall a b, P a -> P (f a b)) -> P (fold_left f l a).
Proof. revert a. induction l as [|x l IH]; intros a Ha Hf; cbn; auto. Qed.

(** Marking the collected records reaches their rows and no older one. *)
Lemma mark_batch_rows old news :
  Forall (fun row => r_unique_id row = unique_id (bid_of_row row)
                     /\ existsb (has_uid (unique_id (bid_of_row row))) old = false) news ->
  map (fun r => if reached (map unique_id (map bid_of_row news)) r
                then set_notified r else r) (old ++ news)
  = old ++ map set_notified news.
Proof.
  intros H. rewrite map_app. f_equal.
  - rewrite <- (map_id old) at 2. apply map_ext_in. intros r Hr.
    destruct (reached _ r) eqn:E; [|reflexivity]. exfalso.
    unfold reached in E. apply existsb_exists in E. destruct E as [uid [Hu Hh]].
    rewrite map_map in Hu. apply in_map_iff in Hu. destruct Hu as [row [<- Hrow]].
    rewrite Forall_forall in H. destruct (H row Hrow) as [_ Hold].
    rewrite <- not_true_iff_false in Hold. apply Hold.
    apply existsb_exists. now exists r.
  - apply map_ext_in. intros r Hr.
    destruct (reached _ r) eqn:E; [reflexivity|]. exfalso.
    rewrite <- not_true_iff_false in E. apply E. unfold reached.
    apply existsb_exists. exists (r_unique_id r). split.
    + rewrite map_map. apply in_map_iff. exists r. split; [|exact Hr].
      rewrite Forall_forall in H. now destruct (H r Hr) as [-> _].
    + unfold has_uid. apply String.eqb_refl.
Qed.

Lemma filter_unnotified_new news :
  Forall (fun row => r_notified row = 0%Z) news ->
  filter (fun r => (r_notified r =? 0)%Z) news = news
  /\ filter (fun r => (r_notified r =? 0)%Z) (map set_notified news) = [].
Proof.
  induction 1 as [|row news H _ [IH1 IH2]]; [now split|].
  cbn [map filter set_notified r_notified]. rewrite H, IH1, IH2. now split.
Qed.

Section Environment.

Variable lower : string -> string.
Variable http_get : nat -> string -> Crawler.get_result.
Variable db_clock : N -> N.
Variable send : list BidInfo -> bool.
Variable matcher : Matcher.KeywordMatcher.

(** What the loop over the crawlers leaves: the collected records are
    the rows it appended, each matched, unnotified and absent from the
    store the round started with. *)
Lemma turns_collect crawlers st w :
  exists news,
    all_matched_bids
      (fold_left (crawler_turn lower http_get db_clock matcher) crawlers
         {| store := st; net := w; all_matched_bids := []; failed := [];
            sent := None |}) = map bid_of_row news
    /\ rows (store
               (fold_left (crawler_turn lower http_get db_clock matcher) crawlers
                  {| store := st; net := w; all_matched_bids := []; failed := [];
                     sent := None |})) = rows st ++ news
    /\ sent (fold_left (crawler_turn lower http_get db_clock matcher) crawlers
               {| store := st; net := w; all_matched_bids := []; failed := [];
                  sent := None |}) = None
    /\ Forall (fun row =>
                 r_notified row = 0%Z
                 /\ r_unique_id row = unique_id (bid_of_row row)
                 /\ exists_ st (bid_of_row row) = false
                 /\ Matcher.matched
                      (Matcher.match_any lower matcher
                         [title (bid_of_row row); content (bid_of_row row)]) = true)
              news
    /\ NoDup (map r_unique_id news).
Proof.
  set (fresh := fun row =>
                  r_notified row = 0%Z
                  /\ r_unique_id row = unique_id (bid_of_row row)
                  /\ exists_ st (bid_of_row row) = false
                  /\ Matcher.matched
                       (Matcher.match_any lower matcher
                          [title (bid_of_row row); content (bid_of_row row)]) = true).
  pose (Inv := fun acc : Store * list BidInfo =>
                 exists news, snd acc = map bid_of_row news
                              /\ rows (fst acc) = rows st ++ news
                              /\ Forall fresh news
                              /\ NoDup (map r_unique_id news)).
  assert (forall acc bid, Inv acc -> Inv (consider lower db_clock matcher acc bid))
    as Hcons.
  { intros [s batch] bid [news [H1 [H2 [H3 H4]]]]. cbn [fst snd] in H1, H2.
    unfold consider. cbv zeta.
    destruct (Matcher.matched _) eqn:Em; [|now exists news].
    destruct (exists_ s bid) eqn:Ex; cbn [negb]; [now exists news|].
    unfold save. rewrite Ex. cbn [snd fst rows].
    unfold exists_ in Ex. rewrite H2, existsb_app in Ex.
    apply orb_false_iff in Ex. destruct Ex as [Ex1 Ex2].
    exists (news ++ [new_row s (db_clock (last_rowid s)) bid false]).
    split; [rewrite map_app, H1; cbn [map]; now rewrite RoundProps.bid_of_new_row|].
    split; [rewrite H2, app_assoc; reflexivity|].
    split.
    - apply Forall_app. split; [exact H3|]. constructor; [|constructor].
      unfold fresh. rewrite RoundProps.bid_of_new_row.
      cbn [new_row r_notified r_unique_id]. now repeat split.
    - rewrite map_app. apply NoDup_app; [exact H4| |].
      + cbn [map]. constructor; [intros []|constructor].
      + intros u Hu [Hv|[]]. cbn [new_row r_unique_id] in Hv. subst u.
        apply in_map_iff in Hu. destruct Hu as [row [Hr Hin]].
        rewrite <- not_true_iff_false in Ex2. apply Ex2.
        apply existsb_exists. exists row. split; [exact Hin|].
        unfold has_uid. rewrite Hr. apply String.eqb_refl. }
  pose (InvR := fun r : round =>
                  exists news, all_matched_bids r = map bid_of_row news
                               /\ rows (store r) = rows st ++ news
                               /\ sent r = None
                               /\ Forall fresh news
                               /\ NoDup (map r_unique_id news)).
  change (InvR (fold_left (crawler_turn lower http_get db_clock matcher) crawlers
                  {| store := st; net := w; all_matched_bids := []; failed := [];
                     sent := None |})).
  apply fold_left_invariant.
  - exists []. cbn. rewrite app_nil_r. repeat split; constructor.
  - intros r c [news [H1 [H2 [H3 [H4 H5]]]]]. unfold crawler_turn.
    destruct (Crawler.crawl lower http_get c None (net r)) as [[l|] w1].
    + destruct (fold_left_invariant Inv (consider lower db_clock matcher) l
                  (store r, all_matched_bids r)) as [news' [G1 [G2 [G3 G4]]]].
      * now exists news.
      * exact Hcons.
      * destruct (fold_left (consider lower db_clock matcher) l
                    (store r, all_matched_bids r)) as [s' b'].
        cbn [fst snd] in G1, G2. exists news'. cbn. now repeat split.
    + exists news. cbn. now repeat split.
Qed.

(** The rows a round leaves. *)
Lemma run_once_rows crawlers st w :
  exists news,
    all_matched_bids (run_once lower http_get db_clock send matcher crawlers st w)
    = map bid_of_row news
    /\ rows (store (run_once lower http_get db_clock send matcher crawlers st w))
       = rows st ++ (match sent (run_once lower http_get db_clock send matcher
                                   crawlers st w) with
                     | Some true => map set_notified news
                     | _ => news
                     end)
    /\ sent (run_once lower http_get db_clock send matcher crawlers st w)
       = match news with
         | [] => None
         | _ :: _ => Some (send (map bid_of_row news))
         end
    /\ Forall (fun row =>
                 r_notified row = 0%Z
                 /\ r_unique_id row = unique_id (bid_of_row row)
                 /\ exists_ st (bid_of_row row) = false
                 /\ Matcher.matched
                      (Matcher.match_any lower matcher
                         [title (bid_of_row row); content (bid_of_row row)]) = true)
              news
    /\ NoDup (map r_unique_id news).
Proof.
  destruct (turns_collect crawlers st w) as [news [H1 [H2 [H3 [H4 H5]]]]].
  exists news. unfold run_once.
  set (r0 := fold_left _ crawlers _) in *.
  unfold notify. rewrite H1.
  destruct news as [|n news'].
  { cbn [map]. rewrite H1, H2, H3. now repeat split. }
  cbn [map]. cbv iota zeta. cbn [all_matched_bids store sent].
  change (bid_of_row n :: map bid_of_row news') with (map bid_of_row (n :: news')).
  change (set_notified n :: map set_notified news')
    with (map set_notified (n :: news')).
  remember (n :: news') as news eqn:En.
  split; [reflexivity|].
  split; [|split; [reflexivity|split; [exact H4|subst news; exact H5]]].
  destruct (send (map bid_of_row news)); [|exact H2].
  change (fun st0 bid => mark_notified st0 (OneBid bid))
    with (fun st0 bid => update_notified (unique_id bid) st0).
  rewrite (MarkingProps.fold_left_map_uid unique_id).
  destruct (MarkingProps.fold_update_rows (map unique_id (map bid_of_row news))
              (store r0)) as [Hr _].
  rewrite Hr, H2. apply mark_batch_rows.
  revert H4. apply Forall_impl. intros row [_ [Hu [Hx _]]]. now split.
Qed.

End Environment.

End MainProps.

(** X16.  Whatever the sites serve, the records one round of the
    command-line monitor hands to the notifier are new: each was matched,
    was absent from the store when the round began and is stored when it
    ends; no two of them share a unique id, even when several sites list
    the same url; the store grows by exactly these records, after the
    rows it already held. *)
Theorem round_collects_only_new_records
        (lower : string -> string)
        (http_get : nat -> string -> Crawler.get_result)
        (db_clock : N -> N) (send : list Storage.BidInfo -> bool)
        (matcher : Matcher.KeywordMatcher)
        (crawlers : list Crawler.BaseCrawler)
        (st : Storage.Store) (w : Crawler.world) :
  let r := Main.run_once lower http_get db_clock send matcher crawlers st w in
  Forall (fun bid =>
            Storage.exists_ st bid = false
            /\ Storage.exists_ (Main.store r) bid = true
            /\ Matcher.matched
                 (Matcher.match_any lower matcher
                    [Storage.title bid; Storage.content bid]) = true)
         (Main.all_matched_bids r)
  /\ NoDup (map Storage.unique_id (Main.all_matched_bids r))
  /\ Storage.count_all (Main.store r)
     = Storage.count_all st + List.length (Main.all_matched_bids r)
  /\ firstn (Storage.count_all st) (Storage.rows (Main.store r)) = Storage.rows st.
Proof.
  intros r. subst r.
  destruct (MainProps.run_once_rows lower http_get db_clock send matcher crawlers st w)
    as [news [H1 [H2 [H3 [H4 H5]]]]].
  set (r := Main.run_once _ _ _ _ _ _ _ _) in *.
  set (tail := match Main.sent r with
               | Some true => map Storage.set_notified news
               | _ => news
               end) in *.
  assert (List.length tail = List.length news) as Hlen.
  { subst tail. destruct (Main.sent r) as [[|]|]; now rewrite ?length_map. }
  rewrite H1. split; [|split; [|split]].
  - apply Forall_map. apply Forall_forall. intros row Hin.
    rewrite Forall_forall in H4. destruct (H4 row Hin) as [_ [Hu [Hx Hm]]].
    split; [exact Hx|]. split; [|exact Hm].
    unfold Storage.exists_. rewrite H2, existsb_app.
    apply orb_true_iff. right. apply existsb_exists.
    assert (Storage.has_uid (Storage.unique_id (Storage.bid_of_row row)) row = true)
      as Hh by (unfold Storage.has_uid; rewrite Hu; apply String.eqb_refl).
    subst tail. destruct (Main.sent r) as [[|]|].
    + exists (Storage.set_notified row). split; [now apply in_map|exact Hh].
    + now exists row.
    + now exists row.
  - rewrite map_map.
    replace (map (fun x => Storage.unique_id (Storage.bid_of_row x)) news)
      with (map Storage.r_unique_id news); [exact H5|].
    apply map_ext_in. intros row Hin. rewrite Forall_forall in H4.
    now destruct (H4 row Hin) as [_ [Hu _]].
  - unfold Storage.count_all. rewrite H2, length_app, length_map. lia.
  - unfold Storage.count_all. rewrite H2, firstn_app, firstn_all, Nat.sub_diag.
    cbn [firstn]. apply app_nil_r.
Qed.

(** X17.  The round calls the notifier exactly when it collected
    something, and marks the collected records as notified exactly when
    the notifier answered True: afterwards the unnotified records are
    those from before the round, followed by the collected ones unless
    the send succeeded. *)
Theorem round_marks_only_after_a_successful_send
        (lower : string -> string)
        (http_get : nat -> string -> Crawler.get_result)
        (db_clock : N -> N) (send : list Storage.BidInfo -> bool)
        (matcher : Matcher.KeywordMatcher)
        (crawlers : list Crawler.BaseCrawler)
        (st : Storage.Store) (w : Crawler.world) :
  let r := Main.run_once lower http_get db_clock send matcher crawlers st w in
  Main.sent r = match Main.all_matched_bids r with
                | [] => None
                | _ :: _ => Some (send (Main.all_matched_bids r))
                end
  /\ Storage.get_unnotified (Main.store r)
     = Storage.get_unnotified st
       ++ match Main.sent r with
          | Some true => []
          | _ => Main.all_matched_bids r
          end.
Proof.
  intros r. subst r.
  destruct (MainProps.run_once_rows lower http_get db_clock send matcher crawlers st w)
    as [news [H1 [H2 [H3 [H4 H5]]]]].
  set (r := Main.run_once _ _ _ _ _ _ _ _) in *.
  split.
  - rewrite H3, H1. now destruct news.
  - unfold Storage.get_unnotified. rewrite H2, filter_app, map_app. f_equal.
    destruct (MainProps.filter_unnotified_new news) as [F1 F2].
    { revert H4. apply Forall_impl. now intros row [Hn _]. }
    destruct (Main.sent r) as [[|]|]; rewrite ?F1, ?F2, ?H1; reflexivity.
Qed.

(** X18.  A batch whose send failed is not sent again by a later round:
    its records stay unnotified in the store, and since they are stored,
    no later round (whatever the sites, the matcher and the notifier
    then are) collects any of them again. *)
Theorem failed_send_is_not_repeated
        (lower lower' : string -> string)
        (http_get http_get' : nat -> string -> Crawler.get_result)
        (db_clock db_clock' : N -> N)
        (send send' : list Storage.BidInfo -> bool)
        (matcher matcher' : Matcher.KeywordMatcher)
        (crawlers crawlers' : list Crawler.BaseCrawler)
        (st : Storage.Store) (w w' : Crawler.world) :
  let r := Main.run_once lower http_get db_clock send matcher crawlers st w in
  let r' := Main.run_once lower' http_get' db_clock' send' matcher' crawlers'
              (Main.store r) w' in
  Main.sent r = Some false ->
  Main.all_matched_bids r <> []
  /\ Forall (fun bid =>
               In bid (Storage.get_unnotified (Main.store r'))
               /\ Forall (fun bid' => Storage.unique_id bid' <> Storage.unique_id bid)
                         (Main.all_matched_bids r'))
            (Main.all_matched_bids r).
Proof.
  intros r r' Hs. subst r'.
  destruct (MainProps.run_once_rows lower http_get db_clock send matcher crawlers st w)
    as [news [H1 [H2 [H3 [H4 _]]]]].
  fold r in H1, H2, H3.
  destruct (MainProps.run_once_rows lower' http_get' db_clock' send' matcher' crawlers'
              (Main.store r) w') as [news' [H1' [H2' [_ [H4' _]]]]].
  set (r' := Main.run_once lower' http_get' db_clock' send' matcher' crawlers'
               (Main.store r) w') in *.
  rewrite Hs in H2. rewrite H1, H1'.
  split; [destruct news; [rewrite Hs in H3|]; discriminate|].
  apply Forall_map. apply Forall_forall. intros row Hin.
  rewrite Forall_forall in H4. destruct (H4 row Hin) as [Hn [Hu _]].
  split.
  - unfold Storage.get_unnotified. apply in_map. apply filter_In.
    split; [|now rewrite Hn].
    rewrite H2', H2. apply in_or_app. left. apply in_or_app. now right.
  - apply Forall_map. revert H4'. apply Forall_impl.
    intros row' [_ [_ [Hx _]]] E.
    unfold Storage.exists_ in Hx. rewrite <- not_true_iff_false in Hx. apply Hx.
    apply existsb_exists. exists row. split.
    + rewrite H2. apply in_or_app. now right.
    + unfold Storage.has_uid. rewrite E, Hu. apply String.eqb_refl.
Qed.

Lemma failed_send_is_not_repeated_witness :
  let m := Matcher.init PyStr.lower_ascii ["tender"] None None in
  let r := Main.run_once PyStr.lower_ascii Samples.serve_all Samples.clock
             (fun _ => false) m [Samples.site1; Samples.site2]
             Storage.init_db Crawler.start in
  let r' := Main.run_once PyStr.lower_ascii Samples.serve_all Samples.clock
              (fun _ => true) m [Samples.site1; Samples.site2]
              (Main.store r) Crawler.start in
  Main.sent r = Some false
  /\ Main.all_matched_bids r <> []
  /\ Forall (fun bid =>
               In bid (Storage.get_unnotified (Main.store r'))
               /\ Forall (fun bid' => Storage.unique_id bid' <> Storage.unique_id bid)
                         (Main.all_matched_bids r'))
            (Main.all_matched_bids r).
Proof.
  intros m r r'.
  assert (Main.sent r = Some false) as H by (vm_compute; reflexivity).
  split; [exact H|].
  exact (failed_send_is_not_repeated
           PyStr.lower_ascii PyStr.lower_ascii Samples.serve_all Samples.serve_all
           Samples.clock Samples.clock (fun _ => false) (fun _ => true) m m
           [Samples.site1; Samples.site2] [Samples.site1; Samples.site2]
           Storage.init_db Crawler.start Crawler.start H).
Defined.

(* ===================================================================== *)
(** ** The web server: logs, result pages, notification batches          *)
(* ===================================================================== *)

Module ServerProps.

Import PyStr Server.

Lemma clamp_from_end len (n : nat) :
  PyList.clamp len (- Z.of_nat (S n)) = len - S n.
Proof.
  unfold PyList.clamp.
  replace (- Z.of_nat (S n) <? 0)%Z with true by (symmetry; apply Z.ltb_lt; lia).
  lia.
Qed.

Lemma firstn_min_length {A} k (l : list A) :
  firstn (Nat.min k (List.length l)) l = firstn k l.
Proof.
  destruct (Nat.le_gt_cases k (List.length l)) as [H|H].
  - now rewrite Nat.min_l.
  - rewrite Nat.min_r, firstn_all by lia. symmetry. apply firstn_all2. lia.
Qed.

Lemma firstn_add {A} a b (l : list A) :
  firstn (a + b) l = firstn a l ++ firstn b (skipn a l).
Proof.
  revert l. induction a as [|a IH]; intros l; [reflexivity|].
  destruct l as [|x l]; cbn [Nat.add firstn skipn app].
  - now rewrite firstn_nil.
  - now rewrite IH.
Qed.

(** [l[offset:offset + limit]] for bounds that are not negative. *)
Lemma slice_page {A} (l : list A) (offset limit : Z) :
  (0 <= offset)%Z -> (0 <= limit)%Z ->
  PyList.slice l offset (offset + limit)
  = firstn (Z.to_nat limit) (skipn (Z.to_nat offset) l).
Proof.
  intros Ho Hl. unfold PyList.slice, PyList.clamp.
  replace (offset <? 0)%Z with false by (symmetry; apply Z.ltb_ge; lia).
  replace (offset + limit <? 0)%Z with false by (symmetry; apply Z.ltb_ge; lia).
  rewrite Z2Nat.inj_add by lia.
  set (o := Z.to_nat offset). set (k := Z.to_nat limit). set (n := List.length l).
  destruct (Nat.le_gt_cases o n) as [H|H].
  - rewrite (Nat.min_l o n) by lia.
    replace (Nat.min (o + k) n - o) with (Nat.min k (List.length (skipn o l)))
      by (rewrite length_skipn; fold n; lia).
    apply firstn_min_length.
  - rewrite !skipn_all2 by (fold n; lia). now rewrite !firstn_nil.
Qed.

(** The order of [str]: bytes of UTF-8 compare as code points do. *)
Lemma leb_refl s : String.leb s s = true.
Proof. destruct (String.leb_total s s); assumption. Qed.

Lemma leb_trans a b c :
  String.leb a b = true -> String.leb b c = true -> String.leb a c = true.
Proof.
  unfold String.leb. revert b c.
  induction a as [|x a IH]; intros [|y b] [|z c]; cbn [String.compare];
    try reflexivity; try discriminate.
  unfold Ascii.compare.
  destruct (N.compare_spec (N_of_ascii x) (N_of_ascii y)) as [E1|E1|E1];
    destruct (N.compare_spec (N_of_ascii y) (N_of_ascii z)) as [E2|E2|E2];
    destruct (N.compare_spec (N_of_ascii x) (N_of_ascii z)) as [E3|E3|E3];
    try discriminate; try reflexivity; try lia.
  apply IH.
Qed.

Lemma insert_by_date_perm b l : Permutation (b :: l) (insert_by_date b l).
Proof.
  induction l as [|x l IH]; cbn [insert_by_date]; [reflexivity|].
  destruct (String.leb _ _); [reflexivity|].
  rewrite perm_swap. now constructor.
Qed.

Lemma sort_by_publish_date_perm l : Permutation l (sort_by_publish_date l).
Proof.
  induction l as [|x l IH]; cbn; [constructor|].
  rewrite <- insert_by_date_perm. now constructor.
Qed.

Lemma insert_by_date_sorted b l :
  StronglySorted date_not_older l -> StronglySorted date_not_older (insert_by_date b l).
Proof.
  induction 1 as [|x l Hs IH Hall]; cbn [insert_by_date].
  - repeat constructor.
  - destruct (String.leb (Storage.publish_date x) (Storage.publish_date b)) eqn:E.
    + constructor; [now constructor|]. constructor; [exact E|].
      revert Hall. apply Forall_impl. intros y Hy. unfold date_not_older in *.
      now apply (leb_trans _ (Storage.publish_date x)).
    + constructor; [exact IH|].
      apply (Permutation_Forall (insert_by_date_perm b l)). constructor; [|exact Hall].
      unfold date_not_older.
      destruct (String.leb_total (Storage.publish_date x) (Storage.publish_date b));
        congruence.
Qed.

(** The sort is stable: records of one date keep their order. *)
Lemma insert_by_date_filter d b l :
  filter (fun x => String.eqb (Storage.publish_date x) d) (insert_by_date b l)
  = filter (fun x => String.eqb (Storage.publish_date x) d) (b :: l).
Proof.
  induction l as [|x l IH]; cbn [insert_by_date]; [reflexivity|].
  destruct (String.leb (Storage.publish_date x) (Storage.publish_date b)) eqn:E;
    [reflexivity|].
  cbn [filter] in *. rewrite IH.
  destruct (String.eqb (Storage.publish_date b) d) eqn:Eb; [|reflexivity].
  destruct (String.eqb (Storage.publish_date x) d) eqn:Ex; [|reflexivity].
  apply String.eqb_eq in Eb, Ex. rewrite Eb, Ex, leb_refl in E. discriminate.
Qed.

End ServerProps.

(** X19.  [add_log] keeps the newest 200 entries: the new entry is the
    last one, the log never holds more than 200 entries after a call that
    found at most 200, and what is kept is the end of the old log
    followed by the new entry. *)
Theorem add_log_keeps_the_newest
        (logs : list string) (timestamp message : string) :
  let logs' := Server.add_log logs timestamp message in
  List.length logs' = Nat.min 200 (S (List.length logs))
  /\ last logs' EmptyString = ("[" ++ timestamp ++ "] " ++ message)%string
  /\ exists dropped,
      logs ++ [("[" ++ timestamp ++ "] " ++ message)%string] = dropped ++ logs'
      /\ List.length dropped = S (List.length logs) - 200.
Proof.
  intros logs'. subst logs'. unfold Server.add_log. cbv zeta.
  set (e := ("[" ++ timestamp ++ "] " ++ message)%string).
  assert (List.length (logs ++ [e]) = S (List.length logs)) as Hlen
      by (rewrite length_app; cbn; lia).
  destruct (Nat.ltb 200 (List.length (logs ++ [e]))) eqn:E.
  - apply Nat.ltb_lt in E. unfold PyList.slice_from.
    change (-200)%Z with (- Z.of_nat 200)%Z. rewrite ServerProps.clamp_from_end, Hlen.
    set (k := S (List.length logs) - 200).
    assert (k <= List.length logs) as Hk by lia.
    split; [rewrite length_skipn; lia|]. split.
    + rewrite skipn_app. replace (k - List.length logs) with 0 by lia.
      cbn [skipn]. apply last_last.
    + exists (firstn k (logs ++ [e])). split; [now rewrite firstn_skipn|].
      rewrite length_firstn. lia.
  - apply Nat.ltb_ge in E. split; [lia|]. split; [apply last_last|].
    exists []. split; [reflexivity|cbn; lia].
Qed.

(** X20.  [/api/logs] with a positive [limit] answers with the last
    [limit] entries (all of them when there are fewer); with [limit=0]
    it answers with the whole log, not with nothing; with a negative
    [limit] it answers with the log without its first [-limit] entries. *)
Theorem get_logs_by_sign_of_limit (logs : list string) (limit : Z) :
  match (limit ?= 0)%Z with
  | Gt => Server.get_logs logs limit
          = skipn (List.length logs - Z.to_nat limit) logs
          /\ List.length (Server.get_logs logs limit)
             = Nat.min (Z.to_nat limit) (List.length logs)
  | Eq => Server.get_logs logs limit = logs
  | Lt => Server.get_logs logs limit = skipn (Z.to_nat (- limit)) logs
  end.
Proof.
  unfold Server.get_logs, PyList.slice_from, PyList.clamp.
  destruct (Z.compare_spec limit 0) as [E|E|E].
  - subst limit. reflexivity.
  - replace (- limit <? 0)%Z with false by (symmetry; apply Z.ltb_ge; lia).
    destruct (Nat.le_gt_cases (Z.to_nat (- limit)) (List.length logs)) as [H|H].
    + now rewrite Nat.min_l.
    + rewrite Nat.min_r by lia. now rewrite skipn_all, skipn_all2 by lia.
  - replace (- limit <? 0)%Z with true by (symmetry; apply Z.ltb_lt; lia).
    replace (Z.to_nat (Z.max 0 (Z.of_nat (List.length logs) + - limit)))
      with (List.length logs - Z.to_nat limit) by lia.
    split; [reflexivity|]. rewrite length_skipn. lia.
Qed.

(** X21.  [/api/results] pages the sorted records: for an offset and a
    limit that are not negative, the items are the records at positions
    [offset], .., [offset + limit - 1] of the sorted list, [total] counts
    every stored record, and a page followed by the next one is the page
    of both. *)
Theorem results_are_paged
        (st : Storage.Store) (limit limit' offset : Z) :
  (0 <= offset)%Z -> (0 <= limit)%Z -> (0 <= limit')%Z ->
  let all_bids := Server.sort_by_publish_date (Storage.get_all st) in
  Server.total (Server.get_results st limit offset) = Storage.count_all st
  /\ Server.items (Server.get_results st limit offset)
     = map Server.item_of (firstn (Z.to_nat limit) (skipn (Z.to_nat offset) all_bids))
  /\ Server.items (Server.get_results st limit offset)
     ++ Server.items (Server.get_results st limit' (offset + limit))
     = Server.items (Server.get_results st (limit + limit') offset).
Proof.
  intros Ho Hl Hl' all_bids. unfold Server.get_results. cbv zeta.
  fold all_bids. cbn [Server.total Server.items].
  rewrite !ServerProps.slice_page by lia.
  split; [|split; [reflexivity|]].
  - subst all_bids.
    rewrite <- (Permutation_length (ServerProps.sort_by_publish_date_perm _)).
    unfold Storage.get_all, Storage.count_all. rewrite length_map.
    symmetry. apply Permutation_length. apply StorageProps.order_by_perm.
  - rewrite <- map_app. f_equal.
    rewrite !Z2Nat.inj_add by lia. rewrite ServerProps.firstn_add, skipn_skipn.
    now rewrite (Nat.add_comm (Z.to_nat limit)).
Qed.

Lemma results_are_paged_witness :
  Server.total (Server.get_results Samples.store_ab 1 0) = 2
  /\ Server.items (Server.get_results Samples.store_ab 1 0)
     = map Server.item_of
           (firstn 1 (skipn 0 (Server.sort_by_publish_date
                                 (Storage.get_all Samples.store_ab))))
  /\ Server.items (Server.get_results Samples.store_ab 1 0)
     ++ Server.items (Server.get_results Samples.store_ab 1 1)
     = Server.items (Server.get_results Samples.store_ab 2 0).
Proof.
  apply (results_are_paged Samples.store_ab 1 1 0); lia.
Defined.

(** X22.  The list [/api/results] pages holds every stored record once,
    newest publication date first, and records of the same date in the
    order [get_all] returned them (the sort is stable). *)
Theorem results_are_sorted_by_date (st : Storage.Store) :
  let all_bids := Server.sort_by_publish_date (Storage.get_all st) in
  Permutation (Storage.get_all st) all_bids
  /\ StronglySorted Server.date_not_older all_bids
  /\ forall d,
      filter (fun b => String.eqb (Storage.publish_date b) d) all_bids
      = filter (fun b => String.eqb (Storage.publish_date b) d) (Storage.get_all st).
Proof.
  intros all_bids. subst all_bids.
  split; [apply ServerProps.sort_by_publish_date_perm|]. split.
  - induction (Storage.get_all st) as [|b l IH]; cbn; [constructor|].
    now apply ServerProps.insert_by_date_sorted.
  - intros d. induction (Storage.get_all st) as [|b l IH]; [reflexivity|].
    cbn [Server.sort_by_publish_date fold_right].
    rewrite ServerProps.insert_by_date_filter. cbn [filter].
    fold (Server.sort_by_publish_date l). now rewrite IH.
Qed.

(** X23.  Every mail and WeChat notification of the server carries the
    same records: the first ten that [get_unnotified] returns, that is,
    the ten oldest unnotified rows.  So once ten records wait unnotified,
    saving a further one changes nothing of what is sent. *)
Theorem notification_batch_is_the_ten_oldest
        (transport : nat -> Server.Contact -> Notify.channel -> Server.payload
                     -> Notify.send_result)
        (config : Server.Config) (st : Storage.Store)
        (contacts : list Server.Contact) (new_count : nat)
        (now : N) (bid : Storage.BidInfo) :
  10 <= List.length (Storage.get_unnotified st) ->
  Forall (fun batch => batch = firstn 10 (Storage.get_unnotified st))
         (Server.batches (Server.send_notifications transport config st contacts
                            new_count))
  /\ Server.send_notifications transport config
       (snd (Storage.save st now bid false)) contacts new_count
     = Server.send_notifications transport config st contacts new_count.
Proof.
  intros Hten. split.
  - unfold Server.send_notifications.
    set (u := Storage.get_unnotified st).
    assert (forall log,
               Forall (fun batch => batch = firstn 10 u) (Server.batches log) ->
               Forall (fun batch => batch = firstn 10 u)
                      (Server.batches
                         (fold_left (Server.notify_contact transport config u new_count)
                                    contacts log))) as H.
    { induction contacts as [|c contacts IH]; intros log Hlog; [exact Hlog|].
      cbn [fold_left]. apply IH. unfold Server.notify_contact, Server.try_send.
      assert (forall l e, Forall (fun batch => batch = firstn 10 u) (Server.batches l) ->
                          Forall (fun batch => batch = firstn 10 u) (Server.batches [e]) ->
                          Forall (fun batch => batch = firstn 10 u)
                                 (Server.batches (l ++ [e]))) as Happ.
      { intros l e H1 H2. unfold Server.batches in *. rewrite flat_map_app.
        apply Forall_app. now split. }
      destruct (negb _); [exact Hlog|]. cbv zeta.
      repeat match goal with
             | |- context [if ?b then _ else _] => destruct b
             end;
        repeat (apply Happ; [|cbn; repeat constructor]); exact Hlog. }
    apply H. constructor.
  - unfold Server.send_notifications.
    assert (firstn 10 (Storage.get_unnotified (snd (Storage.save st now bid false)))
            = firstn 10 (Storage.get_unnotified st)) as Hsame.
    { unfold Storage.save. destruct (Storage.exists_ st bid); [reflexivity|].
      cbn [snd]. unfold Storage.get_unnotified. cbn [Storage.rows].
      rewrite filter_app, map_app, firstn_app.
      replace (10 - _) with 0 by (unfold Storage.get_unnotified in Hten; lia).
      cbn [firstn]. now rewrite app_nil_r. }
    generalize (@nil Server.entry).
    induction contacts as [|c contacts IH]; intros log; [reflexivity|].
    cbn [fold_left]. rewrite IH. f_equal.
    unfold Server.notify_contact. now rewrite Hsame.
Qed.

Lemma notification_batch_is_the_ten_oldest_witness :
  let st := Storage.run_ops
              (map (fun n => Storage.OpSave (N.of_nat n)
                               (Samples.bid "Tender"
                                  ("https://example.com/" ++ PyStr.str_of_nat n))
                               false)
                   (seq 0 10)) in
  let transport := fun (_ : nat) (_ : Server.Contact) (_ : Notify.channel)
                       (_ : Server.payload) => Notify.Returned true in
  let config := {| Server.email_enabled := true; Server.sms_enabled := false;
                   Server.voice_enabled := false; Server.wechat_enabled := true;
                   Server.sms_access_key_id := ""; Server.sms_template_code := "";
                   Server.voice_tts_code := "" |} in
  let contacts := [{| Server.name := Some "alice"; Server.enabled := None;
                      Server.email := "alice@example.com";
                      Server.email_password := "secret";
                      Server.phone := ""; Server.wechat_token := "token" |}] in
  Server.send_notifications transport config
    (snd (Storage.save st 99 Samples.tender_c false)) contacts 1
  = Server.send_notifications transport config st contacts 1.
Proof.
  intros st transport config contacts.
  assert (10 <= List.length (Storage.get_unnotified st)) as H
      by (vm_compute; apply le_n).
  exact (proj2 (notification_batch_is_the_ten_oldest transport config st contacts 1
                  99%N Samples.tender_c H)).
Defined.

(* ===================================================================== *)
(** ** Message texts                                                     *)
(* ===================================================================== *)

Module TextsProps.

Import PyStr Texts.

Lemma len_app a b : len (a ++ b) = len a + len b.
Proof.
  induction a as [|c a IH]; cbn [append len]; [reflexivity|].
  rewrite IH. now destruct (is_continuation c).
Qed.

Lemma len_slice_to n s : len (slice_to n s) = Nat.min n (len s).
Proof.
  revert n. induction s as [|c s IH]; intros n; cbn [slice_to len]; [lia|].
  destruct (is_continuation c) eqn:E.
  - cbn [len]. rewrite E. apply IH.
  - destruct n as [|n]; [reflexivity|]. cbn [len]. rewrite E, IH. lia.
Qed.

Lemma slice_to_prefix n s : exists rest, s = (slice_to n s ++ rest)%string.
Proof.
  revert n. induction s as [|c s IH]; intros n; cbn [slice_to]; [now exists EmptyString|].
  destruct (is_continuation c).
  - destruct (IH n) as [rest H]. exists rest. cbn [append]. now rewrite <- H.
  - destruct n as [|n]; [now exists (String c s)|].
    destruct (IH n) as [rest H]. exists rest. cbn [append]. now rewrite <- H.
Qed.

End TextsProps.

(** X24.  The source text of a voice call never has more than ten code
    points: an empty source is replaced by the default text, any other
    is cut to its first ten code points. *)
Theorem tts_source_is_at_most_ten (source : string) :
  Texts.len (Texts.tts_source source) <= 10
  /\ if PyStr.falsy source
     then Texts.tts_source source = "招标网站"
     else Texts.len (Texts.tts_source source) = Nat.min 10 (Texts.len source)
          /\ exists rest, source = (Texts.tts_source source ++ rest)%string.
Proof.
  unfold Texts.tts_source, PyStr.truthy.
  destruct (PyStr.falsy source); cbn [negb].
  - split; [vm_compute; lia|reflexivity].
  - rewrite TextsProps.len_slice_to.
    split; [lia|]. split; [reflexivity|apply TextsProps.slice_to_prefix].
Qed.

(** X25.  The source text of an SMS summary: a joined text of at most 20
    code points is used as it is; a longer one is cut to 18 code points
    and an ellipsis, which makes 21. *)
Theorem summary_source_length (sources : list string) :
  let source_str := Texts.join "、" sources in
  if Nat.ltb 20 (Texts.len source_str)
  then Texts.len (Texts.summary_source sources) = 21
       /\ exists rest, source_str = (PyStr.slice_to 18 source_str ++ rest)%string
                       /\ Texts.summary_source sources
                          = (PyStr.slice_to 18 source_str ++ "...")%string
  else Texts.summary_source sources = source_str.
Proof.
  intros source_str. unfold Texts.summary_source. fold source_str. cbv zeta.
  destruct (Nat.ltb 20 (Texts.len source_str)) eqn:E; [|reflexivity].
  apply Nat.ltb_lt in E. split.
  - rewrite TextsProps.len_app, TextsProps.len_slice_to.
    change (Texts.len "...") with 3. lia.
  - destruct (TextsProps.slice_to_prefix 18 source_str) as [rest H].
    exists rest. now split.
Qed.

(* ===================================================================== *)
(** ** Notified once; history cleared                                    *)
(* ===================================================================== *)

Module OnceProps.

Import Storage Marking Notify.

(** The records of [urls] are stored and notified. *)
Lemma settled_run_op urls st o :
  o <> OpClear ->
  well_formed st
  /\ (forall u, In u urls -> exists r, In r (rows st) /\ r_url r = u)
  /\ (forall r, In r (rows st) -> In (r_url r) urls -> r_notified r = 1%Z) ->
  well_formed (run_op st o)
  /\ (forall u, In u urls -> exists r, In r (rows (run_op st o)) /\ r_url r = u)
  /\ (forall r, In r (rows (run_op st o)) -> In (r_url r) urls -> r_notified r = 1%Z).
Proof.
  intros Ho [Hwf [Hex Hnot]].
  split; [now apply StorageProps.run_op_well_formed|].
  destruct o as [now bid n|bids|]; [| |contradiction]; cbn [run_op].
  - unfold save. destruct (exists_ st bid) eqn:E; [now split|].
    cbn [snd rows]. split.
    + intros u Hu. destruct (Hex u Hu) as [r [Hr Hurl]].
      exists r. split; [apply in_or_app; now left|exact Hurl].
    + intros r Hr Hin. apply in_app_or in Hr. destruct Hr as [Hr|[<-|[]]]; [now apply Hnot|].
      cbn [new_row r_url] in Hin. exfalso.
      destruct (Hex _ Hin) as [r [Hr Hurl]].
      apply (StorageProps.exists_false_not_in st bid E).
      apply in_map_iff. exists r. split; [|exact Hr].
      pose proof (wf_uid st Hwf) as Hu. rewrite Forall_forall in Hu.
      rewrite (Hu r Hr), Hurl. reflexivity.
  - destruct (MarkingProps.mark_rows st bids) as [Hrows _]. rewrite Hrows. split.
    + intros u Hu. destruct (Hex u Hu) as [r [Hr Hurl]].
      exists (if reached (uids_of bids) r then set_notified r else r).
      split; [apply in_map_iff; now exists r|]. now destruct (reached _ r).
    + intros r Hr Hin. apply in_map_iff in Hr. destruct Hr as [r0 [<- Hr0]].
      destruct (reached (uids_of bids) r0); [reflexivity|now apply Hnot].
Qed.

Lemma settled_run_ops urls later st :
  Forall (fun o => o <> OpClear) later ->
  well_formed st
  /\ (forall u, In u urls -> exists r, In r (rows st) /\ r_url r = u)
  /\ (forall r, In r (rows st) -> In (r_url r) urls -> r_notified r = 1%Z) ->
  forall r, In r (rows (fold_left run_op later st)) -> In (r_url r) urls ->
            r_notified r = 1%Z.
Proof.
  intros Hl. revert st. induction Hl as [|o later Ho _ IH]; intros st H.
  - now destruct H as [_ [_ H]].
  - cbn [fold_left]. apply IH. now apply settled_run_op.
Qed.

(** After the fan-out the records of the batch are stored and notified. *)
Lemma settled_after_mark st :
  well_formed st ->
  let urls := map url (get_unnotified st) in
  well_formed (mark_notified st (UrlList urls))
  /\ (forall u, In u urls ->
                exists r, In r (rows (mark_notified st (UrlList urls))) /\ r_url r = u)
  /\ (forall r, In r (rows (mark_notified st (UrlList urls))) -> In (r_url r) urls ->
                r_notified r = 1%Z).
Proof.
  intros Hwf urls. split; [now apply StorageProps.mark_well_formed|].
  destruct (NotifyProps.mark_urls_rows urls st) as [Hrows _]. rewrite Hrows.
  pose proof (wf_uid st Hwf) as Hu. rewrite Forall_forall in Hu.
  split.
  - intros u Hin. subst urls. rewrite NotifyProps.unnotified_urls in Hin.
    apply in_map_iff in Hin. destruct Hin as [r [Hurl Hr]].
    apply filter_In in Hr. destruct Hr as [Hr _].
    exists (if marked_by (map r_url (filter (fun r => (r_notified r =? 0)%Z) (rows st))) r
            then set_notified r else r).
    split.
    + rewrite <- NotifyProps.unnotified_urls. apply in_map_iff. now exists r.
    + now destruct (marked_by _ r).
  - intros r Hr Hin. apply in_map_iff in Hr. destruct Hr as [r0 [<- Hr0]].
    destruct (marked_by urls r0) eqn:E; [reflexivity|].
    rewrite NotifyProps.marked_by_own_url in E; [discriminate|now apply Hu|exact Hin].
Qed.

End OnceProps.

(** X26.  The desktop fan-out notifies a record once: whatever is saved
    or marked after a dispatch, as long as the history is not cleared, no
    record of the dispatched batch is read as unnotified again, so no
    later dispatch carries it. *)
Theorem dispatched_records_are_never_dispatched_again
        (transport : nat -> Notify.Contact -> Notify.channel ->
                     list Storage.BidInfo -> Notify.send_result)
        (settings : Notify.Settings) (contacts : list Notify.Contact)
        (ops later : list Storage.op) :
  Forall (fun o => o <> Storage.OpClear) later ->
  let st := Storage.run_ops ops in
  let st' := snd (Notify.dispatch transport settings st contacts) in
  let st'' := fold_left Storage.run_op later st' in
  Forall (fun bid => ~ In (Storage.url bid) (map Storage.url (Storage.get_unnotified st'')))
         (Storage.get_unnotified st).
Proof.
  intros Hl st st' st''.
  pose proof (StorageProps.run_ops_well_formed ops) as Hwf. fold st in Hwf.
  apply Forall_forall. intros bid Hbid Hin.
  assert (st' = Storage.mark_notified st
                  (Storage.UrlList (map Storage.url (Storage.get_unnotified st)))) as Est.
  { subst st'. unfold Notify.dispatch.
    destruct (Storage.get_unnotified st); [contradiction|reflexivity]. }
  rewrite NotifyProps.unnotified_urls in Hin.
  apply in_map_iff in Hin. destruct Hin as [r [Hurl Hr]].
  apply filter_In in Hr. destruct Hr as [Hr Hn].
  assert (Storage.r_notified r = 1%Z) as H1.
  { apply (OnceProps.settled_run_ops (map Storage.url (Storage.get_unnotified st))
             later st' Hl); [|exact Hr|].
    - rewrite Est. now apply OnceProps.settled_after_mark.
    - rewrite Hurl. now apply in_map. }
  rewrite H1 in Hn. discriminate.
Qed.

Lemma dispatched_records_are_never_dispatched_again_witness :
  let st' := snd (Notify.dispatch Samples.flaky Samples.all_channels Samples.store_ab
                    [Samples.alice]) in
  let st'' := fold_left Storage.run_op
                [Storage.OpSave 30 Samples.tender_a' false;
                 Storage.OpSave 40 Samples.tender_c false;
                 Storage.OpMark (Storage.OneBid Samples.tender_c)] st' in
  Forall (fun bid => ~ In (Storage.url bid) (map Storage.url (Storage.get_unnotified st'')))
         (Storage.get_unnotified Samples.store_ab).
Proof.
  apply (dispatched_records_are_never_dispatched_again
           Samples.flaky Samples.all_channels [Samples.alice]
           [Storage.OpSave 10 Samples.tender_a false;
            Storage.OpSave 20 Samples.tender_b false]).
  repeat constructor; discriminate.
Defined.

(** X27.  Clearing the history forgets every record but not the row
    ids: in a cleared store any record is saved again (so it can be
    notified again), and its row gets an id above every id handed out
    before. *)
Theorem cleared_store_accepts_records_again
        (ops : list Storage.op) (now : N) (bid : Storage.BidInfo) (notified : bool) :
  let st := Storage.run_ops ops in
  let r := Storage.save (Storage.clear_all st) now bid notified in
  Storage.count_all (Storage.clear_all st) = 0
  /\ Storage.exists_ (Storage.clear_all st) bid = false
  /\ fst r = true
  /\ Storage.get_all (snd r) = [bid]
  /\ Storage.get_unnotified (snd r) = (if notified then [] else [bid])
  /\ map Storage.r_id (Storage.rows (snd r)) = [(Storage.last_rowid st + 1)%N]
  /\ Forall (fun old => (Storage.r_id old < Storage.last_rowid st + 1)%N)
            (Storage.rows st).
Proof.
  intros st r. subst r.
  pose proof (StorageProps.run_ops_well_formed ops) as Hwf. fold st in Hwf.
  split; [reflexivity|]. split; [reflexivity|].
  unfold Storage.save, Storage.clear_all, Storage.exists_.
  cbn [Storage.rows existsb fst snd app Storage.last_rowid].
  split; [reflexivity|].
  split; [unfold Storage.get_all; cbn; now rewrite RoundProps.bid_of_new_row|].
  split.
  - unfold Storage.get_unnotified. cbn [Storage.rows filter Storage.new_row
                                          Storage.r_notified].
    destruct notified; cbn; [reflexivity|now rewrite RoundProps.bid_of_new_row].
  - split; [reflexivity|].
    pose proof (Storage.wf_last st Hwf) as Hlast. revert Hlast.
    apply Forall_impl. intros old H. lia.
Qed.
